(** * Transforma Reader (Helium suite): duplicate cache, invoice router,
      relay client and submission controller.

    A shallow embedding of [src/helium/*.cpp] and of the properties the
    design document states about them.

    Conventions.
    - [char] is [ascii]; a [std::string] is a [list ascii] (it may hold NUL
      bytes, as in C++); a fixed [char buf[n]] is a [list ascii] of length n.
    - [std::wstring] is a list of UTF-16 code units.
    - Fixed-width unsigned integers are [Z] with the wrap-around written out.
    - [double] is the kernel's binary64 [float].
    - [std::string::npos] is [None]; positions are [nat].
    - Every class of the source is a module; every struct is a module with a
      record [t], so that fields keep the names they have in the source. *)

From Stdlib Require Import PrimFloat.
From Stdlib Require Import Ascii String ZArith.
From stdpp Require Import base decidable option list gmap strings.

#[local] Set Warnings "-inexact-float,-abstract-large-number".
#[local] Set Warnings "-clear-no-such-hyp".
#[local] Open Scope Z_scope.

(** ** Strings *)

(** A C++ string literal. *)
Definition str (s : string) : list ascii := list_ascii_of_string s.

Definition NUL : ascii := Ascii.zero.

(** [std::string(const char* p)] and [s.c_str()] read as a C string: the
    characters before the first NUL. *)
Fixpoint c_str (s : list ascii) : list ascii :=
  match s with
  | [] => []
  | a :: s' => if decide (a = NUL) then [] else a :: c_str s'
  end.

Fixpoint starts_with (needle hay : list ascii) : bool :=
  match needle, hay with
  | [], _ => true
  | _ :: _, [] => false
  | a :: needle', b :: hay' =>
      if decide (a = b) then starts_with needle' hay' else false
  end.

(** First offset at which [needle] occurs in [hay]. *)
Fixpoint find0 (needle hay : list ascii) : option nat :=
  if starts_with needle hay then Some 0%nat
  else match hay with
       | [] => None
       | _ :: hay' => S <$> find0 needle hay'
       end.

(** [hay.find(needle, pos)]: a start beyond the end finds nothing, not even
    the empty needle. *)
Definition find (hay needle : list ascii) (pos : nat) : option nat :=
  if decide (pos ≤ length hay)%nat
  then (λ i, (pos + i)%nat) <$> find0 needle (drop pos hay)
  else None.

(** [s.find_last_of(set)]. *)
Fixpoint find_last_of (s set : list ascii) : option nat :=
  match s with
  | [] => None
  | a :: s' =>
      match find_last_of s' set with
      | Some i => Some (S i)
      | None => if decide (a ∈ set) then Some 0%nat else None
      end
  end.

(** [s.substr(pos, n)] for [pos <= s.size()], the only way the source calls
    it; [s.substr(pos)] is [drop pos s]. *)
Definition substr (s : list ascii) (pos n : nat) : list ascii :=
  take n (drop pos s).

(** [::toupper] in the "C" locale. *)
Definition toupper (c : ascii) : ascii :=
  let n := N_of_ascii c in
  if ((97 <=? n) && (n <=? 122))%N then ascii_of_N (n - 32) else c.

Definition tolower (c : ascii) : ascii :=
  let n := N_of_ascii c in
  if ((65 <=? n) && (n <=? 90))%N then ascii_of_N (n + 32) else c.

(** [std::to_string(int)]. *)
Definition digit_char (d : Z) : ascii := ascii_of_N (48 + Z.to_N d).

Fixpoint to_string_pos (fuel : nat) (z : Z) (acc : list ascii) : list ascii :=
  match fuel with
  | O => acc
  | S fuel' =>
      let acc' := digit_char (z mod 10) :: acc in
      if z / 10 =? 0 then acc' else to_string_pos fuel' (z / 10) acc'
  end.

Definition to_string (z : Z) : list ascii :=
  if z <? 0 then str "-" ++ to_string_pos (Z.to_nat (- z)) (- z) []
  else to_string_pos (S (Z.to_nat z)) z [].

(** ** Paths and the file system *)

(** UTF-16 code units. *)
Abbreviation wstring := (list N).

Definition wstr (s : string) : wstring := N_of_ascii <$> str s.

(** [WideCharToMultiByte(CP_UTF8, 0, ...)]: UTF-16 to UTF-8, an unpaired
    surrogate becoming U+FFFD. *)
Definition utf8_encode (cp : N) : list ascii :=
  (if cp <? 128 then [ascii_of_N cp]
   else if cp <? 2048 then
     [ascii_of_N (192 + cp / 64); ascii_of_N (128 + cp mod 64)]
   else if cp <? 65536 then
     [ascii_of_N (224 + cp / 4096); ascii_of_N (128 + (cp / 64) mod 64);
      ascii_of_N (128 + cp mod 64)]
   else
     [ascii_of_N (240 + cp / 262144); ascii_of_N (128 + (cp / 4096) mod 64);
      ascii_of_N (128 + (cp / 64) mod 64); ascii_of_N (128 + cp mod 64)])%N.

Definition is_high_surrogate (u : N) : bool :=
  ((55296 <=? u) && (u <? 56320))%N.

Definition is_low_surrogate (u : N) : bool :=
  ((56320 <=? u) && (u <? 57344))%N.

Fixpoint utf16_decode (w : wstring) : list N :=
  match w with
  | [] => []
  | u :: rest =>
      if is_high_surrogate u then
        match rest with
        | lo :: rest' =>
            if is_low_surrogate lo then
              (65536 + (u - 55296) * 1024 + (lo - 56320))%N
                :: utf16_decode rest'
            else 65533%N :: utf16_decode rest
        | [] => [65533%N]
        end
      else if is_low_surrogate u then 65533%N :: utf16_decode rest
      else u :: utf16_decode rest
  end.

Definition WideToUtf8 (wide : wstring) : list ascii :=
  utf16_decode wide ≫= utf8_encode.

(** The part of a path after its last slash or backslash; the same three
    lines appear in [InvoiceRouter::Route], [RelayClient::BuildMultipartBody]
    and [HeliumController::ExtractFilename]. *)
Definition ExtractFilename (path : wstring) : list ascii :=
  let utf8 := WideToUtf8 path in
  match find_last_of utf8 (str "\/") with
  | Some lastSlash => drop (S lastSlash) utf8
  | None => utf8
  end.

(** What the code sees of the disk: the files an [ifstream] can open, with
    their bytes, and the paths an [ofstream] can open for writing. *)
Module FileSystem.
Record t := mk {
  files : gmap wstring (list ascii);
  writable : wstring → bool
}.

Definition read (fs : t) (path : wstring) : option (list ascii) :=
  files fs !! path.

(** [std::ofstream(path, binary | trunc)], the writes, [close()]. *)
Definition write (fs : t) (path : wstring) (data : list ascii) : option t :=
  if writable fs path
  then Some (mk (<[path := data]> (files fs)) (writable fs))
  else None.

(** [DeleteFileW(path)]: a file that exists and may be written is removed;
    anything else fails. *)
Definition remove (fs : t) (path : wstring) : option t :=
  match files fs !! path with
  | Some _ =>
      if writable fs path
      then Some (mk (delete path (files fs)) (writable fs))
      else None
  | None => None
  end.
End FileSystem.

(** [stream.read(buf, n)] into a buffer that already holds [buf]: the bytes
    obtained replace a prefix, the rest of the buffer is left as it was. *)
Definition read_into (buf data : list ascii) (n : nat) : list ascii :=
  let got := take n data in
  got ++ drop (length got) buf.

(** ** Little-endian integers *)

Definition byte_of_Z (z : Z) : ascii := ascii_of_N (Z.to_N (z mod 256)).
Definition Z_of_byte (a : ascii) : Z := Z.of_N (N_of_ascii a).

Fixpoint le_encode (n : nat) (z : Z) : list ascii :=
  match n with
  | O => []
  | S n' => byte_of_Z z :: le_encode n' (z / 256)
  end.

Fixpoint le_decode (l : list ascii) : Z :=
  match l with
  | [] => 0
  | a :: l' => Z_of_byte a + 256 * le_decode l'
  end.

(** [strncpy_s(dest, src, count)] on a [char dest[N]]: the first
    [D = min(count, strlen(src))] characters and a terminating NUL when
    they fit, else [dest[0] = 0] (and the invalid-parameter handler). The
    release CRT leaves the bytes after the terminator alone. *)
Definition strncpy_s (dest src : list ascii) (count : nat) : list ascii :=
  let s := take count (c_str src) in
  if decide (length s < length dest)%nat
  then s ++ NUL :: drop (S (length s)) dest
  else NUL :: drop 1 dest.

(** ** DuplicateCache.h *)

Module CacheHeader.
Record t := mk { version : Z; entryCount : Z; lastSyncTimestamp : Z }.

(** [CacheHeader header;] with its default member initialisers. *)
Definition default : t := mk 1 0 0.

Definition sizeof : nat := 16.

Definition to_bytes (h : t) : list ascii :=
  le_encode 4 (version h) ++ le_encode 4 (entryCount h)
    ++ le_encode 8 (lastSyncTimestamp h).

Definition of_bytes (b : list ascii) : t :=
  mk (le_decode (take 4 b)) (le_decode (take 4 (drop 4 b)))
     (le_decode (take 8 (drop 8 b))).
End CacheHeader.

Module CacheEntry.
Record t := mk {
  filename : list ascii;        (* char[256] *)
  submitTimestamp : Z;          (* uint64_t *)
  firsReference : list ascii;   (* char[32] *)
  submittedBy : list ascii      (* char[64] *)
}.

Definition sizeof : nat := 360.

(** [CacheEntry entry = {};] *)
Definition zero : t :=
  mk (replicate 256 NUL) 0 (replicate 32 NUL) (replicate 64 NUL).

(** The layout invariant of the packed struct. *)
Definition wf (e : t) : Prop :=
  length (filename e) = 256%nat ∧ 0 ≤ submitTimestamp e < 2 ^ 64 ∧
  length (firsReference e) = 32%nat ∧ length (submittedBy e) = 64%nat.

Definition to_bytes (e : t) : list ascii :=
  filename e ++ le_encode 8 (submitTimestamp e) ++ firsReference e
    ++ submittedBy e.

Definition of_bytes (b : list ascii) : t :=
  mk (take 256 b) (le_decode (take 8 (drop 256 b)))
     (take 32 (drop 264 b)) (take 64 (drop 296 b)).
End CacheEntry.

Module DuplicateStatus.
Inductive t := NotSubmitted | AlreadySubmitted | CacheUnavailable.

#[global] Instance DuplicateStatus_eq_dec : EqDecision t.
Proof. solve_decision. Defined.
End DuplicateStatus.

Module DuplicateCheckResult.
Record t := mk {
  status : DuplicateStatus.t;
  firsReference : list ascii;
  submittedBy : list ascii;
  submitTimestamp : Z
}.
End DuplicateCheckResult.

(** ** DuplicateCache.cpp *)

Module DuplicateCache.
Record t := mk {
  m_cachePath : wstring;
  m_entries : list CacheEntry.t;
  m_filenameIndex : gset (list ascii)
}.

(** [DuplicateCache::DuplicateCache() {}] *)
Definition new : t := mk [] [] ∅.

(** [std::string(entry.filename)]: the bytes from the start of the record
    to the first NUL. A field that holds no NUL does not stop the read: it
    goes on through the time stamp and the two fields behind it. Only a
    record without any NUL byte is read differently here, to its end, where
    the C++ reads on into the next record or past the storage of the
    vector. *)
Definition stored_filename (e : CacheEntry.t) : list ascii :=
  c_str (CacheEntry.to_bytes e).

(** [result.firsReference = entry.firsReference], read in the same way from
    the start of the field, with [submittedBy] behind it. *)
Definition stored_firsReference (e : CacheEntry.t) : list ascii :=
  c_str (CacheEntry.firsReference e ++ CacheEntry.submittedBy e).

(** [result.submittedBy = entry.submittedBy], the last field of the
    record. *)
Definition stored_submittedBy (e : CacheEntry.t) : list ascii :=
  c_str (CacheEntry.submittedBy e).

(** [m_entries.resize(n)] has two outcomes. When the vector has to grow and
    the machine does not grant the storage, it throws ([std::length_error]
    beyond [max_size()], [std::bad_alloc] else) and leaves the vector as it
    was; [can_allocate n] says whether storage for [n] records is granted.
    [resize_throws] is that case, [resize] the vector in the other. *)
Definition resize_throws (can_allocate : nat → bool) (l : list CacheEntry.t)
    (n : nat) : bool :=
  bool_decide (length l < n)%nat && negb (can_allocate n).

Definition resize (l : list CacheEntry.t) (n : nat) : list CacheEntry.t :=
  take n l ++ replicate (n - length l) CacheEntry.zero.

Definition entries_to_bytes (l : list CacheEntry.t) : list ascii :=
  l ≫= CacheEntry.to_bytes.

Fixpoint entries_of_bytes (n : nat) (b : list ascii) : list CacheEntry.t :=
  match n with
  | O => []
  | S n' =>
      CacheEntry.of_bytes (take CacheEntry.sizeof b)
        :: entries_of_bytes n' (drop CacheEntry.sizeof b)
  end.

(** The set the "Build index" loop of [Load] leaves in [m_filenameIndex]. *)
Definition build_index (l : list CacheEntry.t) : gset (list ascii) :=
  foldl (λ idx e, {[stored_filename e]} ∪ idx) ∅ l.

(** [CacheHeader header; file.read((char* )&header, sizeof(header));] *)
Definition read_header (data : list ascii) : CacheHeader.t :=
  CacheHeader.of_bytes
    (read_into (CacheHeader.to_bytes CacheHeader.default) data
       CacheHeader.sizeof).

(** [Load] has no [catch]: the exception of [resize] leaves it, with the
    count of the header, taken from the file as it is, as the size asked
    for. [Load_throws] says when that happens; [Load] is what [Load] returns
    and leaves when it does not. *)
Definition Load_throws (can_allocate : nat → bool) (c : t) (fs : FileSystem.t)
    (cachePath : wstring) : bool :=
  match FileSystem.read fs cachePath with
  | None => false
  | Some data =>
      let header := read_header data in
      if decide (CacheHeader.version header ≠ 1) then false
      else
        resize_throws can_allocate (m_entries c)
          (Z.to_nat (CacheHeader.entryCount header))
  end.

Definition Load (c : t) (fs : FileSystem.t) (cachePath : wstring) : bool * t :=
  let c := mk cachePath (m_entries c) (m_filenameIndex c) in
  match FileSystem.read fs cachePath with
  | None => (true, c)
  | Some data =>
      let header := read_header data in
      if decide (CacheHeader.version header ≠ 1) then (true, c)
      else
        let n := Z.to_nat (CacheHeader.entryCount header) in
        let resized := resize (m_entries c) n in
        let buf :=
          read_into (entries_to_bytes resized)
            (drop CacheHeader.sizeof data) (n * CacheEntry.sizeof) in
        let entries := entries_of_bytes n buf in
        (true, mk cachePath entries (build_index entries))
  end.

(** [Load] with both ways out: [None] is the exception on its way to the
    caller. *)
Definition Load_outcome (can_allocate : nat → bool) (c : t)
    (fs : FileSystem.t) (cachePath : wstring) : option (bool * t) :=
  if Load_throws can_allocate c fs cachePath then None
  else Some (Load c fs cachePath).

(** The "Find the full entry for details" loop of [Check]. *)
Fixpoint scan (l : list CacheEntry.t) (filename : list ascii)
    : option CacheEntry.t :=
  match l with
  | [] => None
  | entry :: l' =>
      if decide (stored_filename entry = filename) then Some entry
      else scan l' filename
  end.

Definition Check (c : t) (filename : list ascii) : DuplicateCheckResult.t :=
  if decide (filename ∈ m_filenameIndex c) then
    match scan (m_entries c) filename with
    | Some entry =>
        DuplicateCheckResult.mk DuplicateStatus.AlreadySubmitted
          (stored_firsReference entry) (stored_submittedBy entry)
          (CacheEntry.submitTimestamp entry)
    | None => DuplicateCheckResult.mk DuplicateStatus.AlreadySubmitted [] [] 0
    end
  else DuplicateCheckResult.mk DuplicateStatus.NotSubmitted [] [] 0.

(** [now] is what [time(nullptr)] returns inside [Save]. *)
Definition Save (c : t) (fs : FileSystem.t) (now : Z) : bool * FileSystem.t :=
  if decide (m_cachePath c = []) then (false, fs)
  else
    let header :=
      CacheHeader.mk 1 (Z.of_nat (length (m_entries c)) mod 2 ^ 32)
        (now mod 2 ^ 64) in
    match
      FileSystem.write fs (m_cachePath c)
        (CacheHeader.to_bytes header ++ entries_to_bytes (m_entries c))
    with
    | Some fs' => (true, fs')
    | None => (false, fs)
    end.

(** The record [AddEntry] builds: three bounded copies into a zeroed
    struct, then the time stamp. *)
Definition make_entry (filename firsRef user : list ascii) (now : Z)
    : CacheEntry.t :=
  let entry := CacheEntry.zero in
  CacheEntry.mk
    (strncpy_s (CacheEntry.filename entry) filename 255)
    (now mod 2 ^ 64)
    (strncpy_s (CacheEntry.firsReference entry) firsRef 31)
    (strncpy_s (CacheEntry.submittedBy entry) user 63).

(** [now] and [nowSave] are the two readings of the clock, the one in
    [AddEntry] and the one in the [Save] it calls. *)
Definition AddEntry (c : t) (fs : FileSystem.t)
    (filename firsRef user : list ascii) (now nowSave : Z)
    : t * FileSystem.t :=
  let entry := make_entry filename firsRef user now in
  let c' :=
    mk (m_cachePath c) (m_entries c ++ [entry])
       ({[filename]} ∪ m_filenameIndex c) in
  (c', (Save c' fs nowSave).2).
End DuplicateCache.

(** ** Calls to collaborators

    The code talks to the text-extraction engine, the session store, the
    relay and the toolbar. Every such call is written to a log, oldest
    first, so that "never calls" and "calls before" can be stated. The
    toolbar is told the button state, so the two types of
    HeliumController.h that describe it come first. *)

Module SubmitButtonState.
Inductive t :=
  | Ready | AlreadySubmitted | Checking | Submitting | Success | Error
  | NoSession | FloatNotRunning.

#[global] Instance SubmitButtonState_eq_dec : EqDecision t.
Proof. solve_decision. Defined.
End SubmitButtonState.

Module ButtonStateInfo.
Record t := mk {
  state : SubmitButtonState.t;
  label : list ascii;
  tooltip : list ascii
}.
End ButtonStateInfo.

Inductive Event :=
  | CallExtractFirstPageText (pdfPath : wstring) (maxChars : Z)
  | CallSessionLoad
  | CallCheck (filename : list ascii)
  | CallSubmitInvoice (pdfPath : wstring) (userEmail sessionToken : list ascii)
  | CallSendRequest (method path : wstring)
      (body contentType authToken : list ascii)
  | CallAddEntry (filename firsRef user : list ascii)
  | CallSleep (ms : Z)
  | Notify (info : ButtonStateInfo.t).

Module World.
Record t := mk {
  fs : FileSystem.t;
  log : list Event;
  ticks : nat              (* how often the clock has been read *)
}.
End World.

(** Code with effects on the world: a state monad. *)
Definition M (A : Type) : Type := World.t → A * World.t.

#[global] Instance M_ret : MRet M := λ A (a : A) w, (a, w).
#[global] Instance M_bind : MBind M :=
  λ A B (k : A → M B) (m : M A) w, let '(a, w') := m w in k a w'.

Definition emit (e : Event) : M unit :=
  λ w, (tt, World.mk (World.fs w) (World.log w ++ [e]) (World.ticks w)).

Definition get_fs : M FileSystem.t := λ w, (World.fs w, w).

Definition put_fs (fs : FileSystem.t) : M unit :=
  λ w, (tt, World.mk fs (World.log w) (World.ticks w)).

(** [time(nullptr)]: the next reading of a clock [clock : nat → Z]. *)
Definition time (clock : nat → Z) : M Z :=
  λ w, (clock (World.ticks w),
        World.mk (World.fs w) (World.log w) (S (World.ticks w))).

(** ** A model of [std::regex] (ECMAScript grammar, [icase]) *)

Module Regex.
Inductive t :=
  | Fail
  | Eps
  | Chr (p : ascii → bool)
  | Cat (r s : t)
  | Alt (r s : t)
  | Star (r : t).

Fixpoint nullable (r : t) : bool :=
  match r with
  | Fail | Chr _ => false
  | Eps | Star _ => true
  | Cat r s => nullable r && nullable s
  | Alt r s => nullable r || nullable s
  end.

Definition cat (r s : t) : t :=
  match r, s with
  | Fail, _ | _, Fail => Fail
  | Eps, _ => s
  | _, _ => Cat r s
  end.

Definition alt (r s : t) : t :=
  match r, s with
  | Fail, _ => s
  | _, Fail => r
  | _, _ => Alt r s
  end.

(** Brzozowski derivative. *)
Fixpoint deriv (c : ascii) (r : t) : t :=
  match r with
  | Fail | Eps => Fail
  | Chr p => if p c then Eps else Fail
  | Cat r s =>
      if nullable r then alt (cat (deriv c r) s) (deriv c s)
      else cat (deriv c r) s
  | Alt r s => alt (deriv c r) (deriv c s)
  | Star r => cat (deriv c r) (Star r)
  end.

(** [std::regex_match]. *)
Definition matches (r : t) (s : list ascii) : bool :=
  nullable (foldl (λ r c, deriv c r) r s).

Definition anything : t := Star (Chr (λ _, true)).

(** [std::regex_search]: some substring matches. *)
Definition search (s : list ascii) (r : t) : bool :=
  matches (Cat anything (Cat r anything)) s.

(** A literal character under [icase]. *)
Definition chr (c : ascii) : t :=
  Chr (λ x, bool_decide (tolower x = tolower c)).

(** A literal word under [icase]. *)
Definition word (s : string) : t := foldr (λ c r, Cat (chr c) r) Eps (str s).

(** [.]: any character but a line terminator. *)
Definition dot : t :=
  Chr (λ x, negb (bool_decide (x = "010"%char)
                  || bool_decide (x = "013"%char))).

(** [\d] *)
Definition digit : t :=
  Chr (λ x, let n := N_of_ascii x in ((48 <=? n) && (n <=? 57))%N).

Definition is_space (x : ascii) : bool :=
  let n := N_of_ascii x in ((n =? 32) || ((9 <=? n) && (n <=? 13)))%N.

(** The class [[_\-\s]]. *)
Definition separator : t :=
  Chr (λ x, bool_decide (x = "_"%char) || bool_decide (x = "-"%char)
            || is_space x).

(** [r?] *)
Definition opt (r : t) : t := Alt r Eps.

(** [r{n,m}] for the one use the table makes of it. *)
Fixpoint times (n : nat) (r : t) : t :=
  match n with O => Eps | S n' => Cat r (times n' r) end.
Fixpoint upto (n : nat) (r : t) : t :=
  match n with O => Eps | S n' => opt (Cat r (upto n' r)) end.
Definition range (n m : nat) (r : t) : t := Cat (times n r) (upto (m - n) r).

Definition alts (l : list t) : t := foldr Alt Fail l.
End Regex.

(** ** InvoiceRouter.h *)

Module RouteDecision.
Inductive t := Invoice | NotInvoice | Unknown.

#[global] Instance RouteDecision_eq_dec : EqDecision t.
Proof. solve_decision. Defined.
End RouteDecision.

Module RouteResult.
Record t := mk {
  decision : RouteDecision.t;
  matchedPattern : list ascii;
  clientHint : list ascii;
  confidenceScore : float
}.
End RouteResult.

Module RoutingPattern.
Record t := mk {
  name : list ascii;
  filenameRegex : Regex.t;
  description : list ascii
}.
End RoutingPattern.

(** ** InvoiceRouter.cpp *)

Module InvoiceRouter.
Import Regex.

Record t := mk { m_patterns : list RoutingPattern.t }.

Definition InitDefaultPatterns : list RoutingPattern.t :=
  [ (* GT[_\-\s]?(Bank|B).*inv *)
    RoutingPattern.mk (str "GTBank")
      (Cat (word "GT") (Cat (opt separator)
         (Cat (Alt (word "Bank") (word "B")) (Cat (Star dot) (word "inv")))))
      (str "GTBank invoice filenames");
    (* MTN.*(?:invoice|bill|statement) *)
    RoutingPattern.mk (str "MTN")
      (Cat (word "MTN") (Cat (Star dot)
         (alts [word "invoice"; word "bill"; word "statement"])))
      (str "MTN billing documents");
    (* Airtel.*(?:invoice|bill|statement) *)
    RoutingPattern.mk (str "Airtel")
      (Cat (word "Airtel") (Cat (Star dot)
         (alts [word "invoice"; word "bill"; word "statement"])))
      (str "Airtel billing documents");
    (* WN\d{4,6}\.pdf *)
    RoutingPattern.mk (str "ExecuJet")
      (Cat (word "WN") (Cat (range 4 6 digit) (word ".pdf")))
      (str "ExecuJet work order / invoice");
    (* (?:INV|INVOICE|BILL|RECEIPT|TAX[_\-\s]?INV)[\-_\s]?\d *)
    RoutingPattern.mk (str "Generic")
      (Cat (alts [word "INV"; word "INVOICE"; word "BILL"; word "RECEIPT";
                  Cat (word "TAX") (Cat (opt separator) (word "INV"))])
         (Cat (opt separator) digit))
      (str "Generic invoice filenames");
    (* (?:FIRS|TIN|VAT)[\-_\s] *)
    RoutingPattern.mk (str "FIRS")
      (Cat (alts [word "FIRS"; word "TIN"; word "VAT"]) separator)
      (str "FIRS / tax-related documents") ].

(** [InvoiceRouter::InvoiceRouter()] *)
Definition new : t := mk InitDefaultPatterns.

(** Tier 1. The loop over [m_patterns]. *)
Fixpoint MatchFilename_loop (patterns : list RoutingPattern.t)
    (filename : list ascii) : RouteResult.t :=
  match patterns with
  | [] => RouteResult.mk RouteDecision.Unknown [] [] 0
  | pattern :: patterns' =>
      if search filename (RoutingPattern.filenameRegex pattern)
      then
        RouteResult.mk RouteDecision.Invoice
          (RoutingPattern.description pattern) (RoutingPattern.name pattern)
          0.95
      else MatchFilename_loop patterns' filename
  end.

Definition MatchFilename (r : t) (filename : list ascii) : RouteResult.t :=
  MatchFilename_loop (m_patterns r) filename.

Definition printable (c : ascii) : bool :=
  let n := N_of_ascii c in ((32 <=? n) && (n <? 127))%N.

(** The loop of [ExtractFirstPageText] over the bytes read. *)
Fixpoint extract_loop (buffer : list ascii) (maxChars : Z)
    (text run : list ascii) : list ascii * list ascii :=
  match buffer with
  | [] => (text, run)
  | c :: buffer' =>
      if Z.of_nat (length text) <? maxChars then
        if printable c then extract_loop buffer' maxChars text (run ++ [c])
        else
          extract_loop buffer' maxChars
            (if decide (4 ≤ length run)%nat then text ++ run ++ str " "
             else text) []
      else (text, run)
  end.

(** The placeholder extraction: printable ASCII runs of the first 8 KB. *)
Definition ExtractFirstPageText (pdfPath : wstring) (maxChars : Z)
    : M (list ascii) :=
  emit (CallExtractFirstPageText pdfPath maxChars);;
  fs ← get_fs;
  match FileSystem.read fs pdfPath with
  | None => mret []
  | Some data =>
      let '(text, run) := extract_loop (take 8192 data) maxChars [] [] in
      let text := if decide (4 ≤ length run)%nat then text ++ run else text in
      mret (if Z.of_nat (length text) >? maxChars
            then take (Z.to_nat maxChars) text else text)
  end.

Module Marker.
Record t := mk { text : list ascii; weight : float }.
End Marker.

Definition markers : list Marker.t :=
  [ Marker.mk (str "TAX INVOICE") 0.40;
    Marker.mk (str "INVOICE") 0.25;
    Marker.mk (str "BILL TO") 0.20;
    Marker.mk (str "SHIP TO") 0.15;
    Marker.mk (str "TIN:") 0.30;
    Marker.mk (str "VAT:") 0.20;
    Marker.mk (str "TOTAL AMOUNT") 0.15;
    Marker.mk (str "SUBTOTAL") 0.15;
    Marker.mk (str "DUE DATE") 0.15;
    Marker.mk (str "INVOICE NO") 0.30;
    Marker.mk (str "INVOICE NUMBER") 0.30;
    Marker.mk (str "INV NO") 0.25;
    Marker.mk (str "PURCHASE ORDER") 0.20;
    Marker.mk (str "ACCOUNT NO") 0.10;
    Marker.mk (str "FIRS") 0.25 ].

(** [upper.find(m.text) != std::string::npos] *)
Definition found (upper : list ascii) (m : Marker.t) : bool :=
  bool_decide (is_Some (find upper (Marker.text m) 0)).

(** The loop over [markers], carrying [score] and [bestMatch]. *)
Fixpoint score_loop (ms : list Marker.t) (upper : list ascii)
    (score : float) (bestMatch : list ascii) : float * list ascii :=
  match ms with
  | [] => (score, bestMatch)
  | m :: ms' =>
      if found upper m then
        score_loop ms' upper (score + Marker.weight m)%float
          (if decide (bestMatch = []) then Marker.text m else bestMatch)
      else score_loop ms' upper score bestMatch
  end.

(** [AnalyzeContent] from the point where it holds a non-empty [text]. *)
Definition score_text (text : list ascii) : RouteResult.t :=
  let upper := toupper <$> text in
  let '(score, bestMatch) := score_loop markers upper 0 [] in
  let score := if PrimFloat.ltb 1 score then 1%float else score in
  if PrimFloat.leb 0.30 score
  then
    RouteResult.mk RouteDecision.Invoice
      (str "Content analysis: " ++ bestMatch) [] score
  else RouteResult.mk RouteDecision.NotInvoice [] [] (1 - score)%float.

(** Tier 2. *)
Definition AnalyzeContent (r : t) (pdfPath : wstring) : M RouteResult.t :=
  text ← ExtractFirstPageText pdfPath 500;
  if decide (text = []) then mret (RouteResult.mk RouteDecision.Unknown [] [] 0)
  else mret (score_text text).

Definition Route (r : t) (pdfPath : wstring) : M RouteResult.t :=
  let filename := ExtractFilename pdfPath in
  let result := MatchFilename r filename in
  if decide (RouteResult.decision result = RouteDecision.Invoice)
  then mret result
  else AnalyzeContent r pdfPath.
End InvoiceRouter.

(** ** What the operating system and the network answer

    The parts of the program that are calls into Windows (WinHTTP, DPAPI,
    the CRT's date parsing, the random device, the wall clock) are taken as
    given: one record of answers. *)

Module RelayResponse.
Record t := mk {
  statusCode : Z;
  body : list ascii;
  error : list ascii;
  success : bool
}.
End RelayResponse.

Module Env.
Record t := mk {
  (** [RelayClient::SendRequest], a sequence of WinHTTP calls: host, port,
      method, path, body, content type, bearer token. *)
  SendRequest :
    wstring → Z → wstring → wstring → list ascii → list ascii → list ascii
    → RelayResponse.t;
  (** The sixteen hexadecimal digits [BuildMultipartBody] draws. *)
  random_hex : list ascii;
  (** The readings of [time()], in order. *)
  clock : nat → Z;
  (** [SessionToken::GetTokenPath] (known folder and Windows user name). *)
  GetTokenPath : wstring;
  (** [SessionToken::Decrypt] (DPAPI); empty on failure. *)
  Decrypt : list ascii → list ascii;
  (** [sscanf_s] of the six date fields followed by [_mkgmtime]; [None]
      when fewer than six fields parse. *)
  parse_expiry : list ascii → option Z
}.
End Env.

Definition dquote : ascii := "034"%char.
Definition CRLF : list ascii := ["013"%char; "010"%char].

(** ** RelayClient.h, RelayClient.cpp *)

Module SubmitResult.
Record t := mk {
  success : bool;
  firsReference : list ascii;
  fileUuid : list ascii;
  error : list ascii;
  httpStatus : Z
}.
End SubmitResult.

Module RelayClient.
Record t := mk { m_host : wstring; m_port : Z }.

Definition new : t := mk (wstr "localhost") 8082.

(** The lambda [extractField] of [SubmitInvoice], over [resp.body]. *)
Definition extractField (body key : list ascii) : list ascii :=
  let search := dquote :: key ++ [dquote] in
  match find body search 0 with
  | None => []
  | Some pos =>
      match find body [dquote] (pos + length search + 1) with
      | None => []
      | Some pos =>
          match find body [dquote] (pos + 1) with
          | None => []
          | Some end_ => substr body (pos + 1) (end_ - pos - 1)
          end
      end
  end.

(** Returns the body and, through its reference parameter, the boundary. *)
Definition BuildMultipartBody (env : Env.t) (pdfPath : wstring)
    (userEmail : list ascii) : M (list ascii * list ascii) :=
  let boundary := str "----HeliumBoundary" ++ Env.random_hex env in
  fs ← get_fs;
  match FileSystem.read fs pdfPath with
  | None => mret ([], boundary)
  | Some pdfData =>
      let filename := ExtractFilename pdfPath in
      mret
        (str "--" ++ boundary ++ CRLF
         ++ str "Content-Disposition: form-data; name=" ++ [dquote]
         ++ str "source" ++ [dquote] ++ CRLF ++ CRLF
         ++ str "transforma_reader" ++ CRLF
         ++ str "--" ++ boundary ++ CRLF
         ++ str "Content-Disposition: form-data; name=" ++ [dquote]
         ++ str "user" ++ [dquote] ++ CRLF ++ CRLF
         ++ userEmail ++ CRLF
         ++ str "--" ++ boundary ++ CRLF
         ++ str "Content-Disposition: form-data; name=" ++ [dquote]
         ++ str "file" ++ [dquote] ++ str "; filename=" ++ [dquote]
         ++ filename ++ [dquote] ++ CRLF
         ++ str "Content-Type: application/pdf" ++ CRLF ++ CRLF
         ++ pdfData ++ CRLF
         ++ str "--" ++ boundary ++ str "--" ++ CRLF,
         boundary)
  end.

Definition SendRequest (env : Env.t) (r : t) (method path : wstring)
    (body contentType authToken : list ascii) : M RelayResponse.t :=
  emit (CallSendRequest method path body contentType authToken);;
  mret (Env.SendRequest env (m_host r) (m_port r) method path body
          contentType authToken).

(** [SubmitInvoice] from the point where it holds the response. *)
Definition read_response (resp : RelayResponse.t) : SubmitResult.t :=
  let status := RelayResponse.statusCode resp in
  if negb (RelayResponse.success resp) then
    SubmitResult.mk false [] [] (RelayResponse.error resp) status
  else if decide (status = 200 ∨ status = 201) then
    SubmitResult.mk true
      (extractField (RelayResponse.body resp) (str "firs_reference"))
      (extractField (RelayResponse.body resp) (str "file_uuid"))
      [] status
  else if decide (status = 409) then
    SubmitResult.mk false [] []
      (str "Invoice already submitted (duplicate)") status
  else if decide (status = 429) then
    SubmitResult.mk false [] [] (str "Daily submission limit exceeded") status
  else
    SubmitResult.mk false [] []
      (str "Relay returned HTTP " ++ to_string status) status.

Definition SubmitInvoice (env : Env.t) (r : t) (pdfPath : wstring)
    (userEmail sessionToken : list ascii) : M SubmitResult.t :=
  '(body, boundary) ← BuildMultipartBody env pdfPath userEmail;
  if decide (body = []) then
    mret (SubmitResult.mk false [] [] (str "Failed to read PDF file") 0)
  else
    let contentType := str "multipart/form-data; boundary=" ++ boundary in
    resp ← SendRequest env r (wstr "POST") (wstr "/api/ingest") body
             contentType sessionToken;
    mret (read_response resp).

Definition IsRelayAvailable (env : Env.t) (r : t) : M bool :=
  resp ← SendRequest env r (wstr "GET") (wstr "/health") [] [] [];
  mret (RelayResponse.success resp
        && bool_decide (RelayResponse.statusCode resp = 200)).
End RelayClient.

(** ** SessionToken.h, SessionToken.cpp *)

Module SessionInfo.
Record t := mk {
  username : list ascii;
  token : list ascii;
  expiresAt : list ascii;
  userId : list ascii;
  valid : bool;
  error : list ascii
}.
End SessionInfo.

Module SessionToken.
Definition ExtractJsonString (json key : list ascii) : list ascii :=
  let search := dquote :: key ++ [dquote] in
  match find json search 0 with
  | None => []
  | Some pos =>
      match find json (str ":") (pos + length search) with
      | None => []
      | Some pos =>
          match find json [dquote] (pos + 1) with
          | None => []
          | Some pos =>
              match find json [dquote] (pos + 1) with
              | None => []
              | Some end_ => substr json (pos + 1) (end_ - pos - 1)
              end
          end
      end
  end.

Definition IsExpired (env : Env.t) (expiresAt : list ascii) : M bool :=
  if decide (expiresAt = []) then mret true
  else
    match Env.parse_expiry env expiresAt with
    | None => mret true
    | Some expiry =>
        now ← time (Env.clock env);
        mret (bool_decide (expiry - now ≤ 0))
    end.

Definition failed (error : string) : SessionInfo.t :=
  SessionInfo.mk [] [] [] [] false (str error).

Definition Load (env : Env.t) : M SessionInfo.t :=
  let path := Env.GetTokenPath env in
  if decide (path = []) then mret (failed "Cannot determine token path")
  else
    fs ← get_fs;
    match FileSystem.read fs path with
    | None => mret (failed "No session found (not logged in)")
    | Some encrypted =>
        if decide (encrypted = []) then mret (failed "Empty session file")
        else
          let json := Env.Decrypt env encrypted in
          if decide (json = []) then
            mret (failed "Failed to decrypt session (wrong user or corrupted)")
          else
            let username := ExtractJsonString json (str "username") in
            let token := ExtractJsonString json (str "token") in
            let expiresAt := ExtractJsonString json (str "expires_at") in
            let userId := ExtractJsonString json (str "user_id") in
            if decide (token = []) then
              mret (SessionInfo.mk username token expiresAt userId false
                      (str "Invalid session data (no token)"))
            else
              expired ← IsExpired env expiresAt;
              if expired : bool then
                mret (SessionInfo.mk username token expiresAt userId false
                        (str "Session expired"))
              else
                mret (SessionInfo.mk username token expiresAt userId true [])
    end.

Definition HasValidSession (env : Env.t) : M bool :=
  info ← Load env; mret (SessionInfo.valid info).

Definition LF : list ascii := ["010"%char].

(** One line of [BuildJson]: two blanks, the key and the value, quoted. *)
Definition json_line (key : string) (value : list ascii) : list ascii :=
  str "  " ++ [dquote] ++ str key ++ [dquote] ++ str ": " ++ [dquote]
  ++ value ++ [dquote].

Definition BuildJson (session : SessionInfo.t) : list ascii :=
  str "{" ++ LF
  ++ json_line "username" (SessionInfo.username session) ++ str "," ++ LF
  ++ json_line "token" (SessionInfo.token session) ++ str "," ++ LF
  ++ json_line "expires_at" (SessionInfo.expiresAt session) ++ str "," ++ LF
  ++ json_line "user_id" (SessionInfo.userId session) ++ LF
  ++ str "}".

(** [Encrypt] is [SessionToken::Encrypt] (DPAPI; empty on failure).
    [CreateDirectoryW] and the hidden attribute leave no trace in what this
    model sees of the disk: whether the file can be written is asked of the
    disk as it is after them. *)
Definition Save (Encrypt : list ascii → list ascii) (env : Env.t)
    (session : SessionInfo.t) : M bool :=
  let path := Env.GetTokenPath env in
  if decide (path = []) then mret false
  else
    let json := BuildJson session in
    let encrypted := Encrypt json in
    if decide (encrypted = []) then mret false
    else
      fs ← get_fs;
      match FileSystem.write fs path encrypted with
      | None => mret false
      | Some fs' => put_fs fs';; mret true
      end.

Definition ClearSession (env : Env.t) : M bool :=
  let path := Env.GetTokenPath env in
  if decide (path = []) then mret false
  else
    fs ← get_fs;
    match FileSystem.remove fs path with
    | None => mret false
    | Some fs' => put_fs fs';; mret true
    end.
End SessionToken.

(** ** HeliumController.h, HeliumController.cpp *)

Module HeliumController.
Record t := mk {
  m_relay : RelayClient.t;
  m_cache : DuplicateCache.t;
  m_router : InvoiceRouter.t;
  m_buttonState : ButtonStateInfo.t;
  m_onStateChange : bool;       (* is a callback registered? *)
  m_currentPdf : wstring
}.

Definition new : t :=
  mk RelayClient.new DuplicateCache.new InvoiceRouter.new
     (ButtonStateInfo.mk SubmitButtonState.Checking (str "Checking...")
        (str "Verifying session and connection"))
     false [].

Definition set_cache (c : t) (cache : DuplicateCache.t) : t :=
  mk (m_relay c) cache (m_router c) (m_buttonState c) (m_onStateChange c)
     (m_currentPdf c).

Definition SetButtonStateCallback (c : t) : t :=
  mk (m_relay c) (m_cache c) (m_router c) (m_buttonState c) true
     (m_currentPdf c).

Definition GetButtonState (c : t) : ButtonStateInfo.t := m_buttonState c.

Definition SetState (c : t) (state : SubmitButtonState.t)
    (label tooltip : list ascii) : M t :=
  let info := ButtonStateInfo.mk state label tooltip in
  let c' :=
    mk (m_relay c) (m_cache c) (m_router c) info (m_onStateChange c)
       (m_currentPdf c) in
  if m_onStateChange c then emit (Notify info);; mret c' else mret c'.

(** [Sleep(ms)] *)
Definition Sleep (ms : Z) : M unit := emit (CallSleep ms).

(** [m_cache.Check(filename)], noted in the log. *)
Definition cache_Check (c : t) (filename : list ascii)
    : M DuplicateCheckResult.t :=
  emit (CallCheck filename);;
  mret (DuplicateCache.Check (m_cache c) filename).

(** [Save()] as [AddEntry] calls it: the clock is read only once the file
    is open. *)
Definition cache_Save (env : Env.t) (cache : DuplicateCache.t) : M bool :=
  λ w,
    match
      DuplicateCache.Save cache (World.fs w) (Env.clock env (World.ticks w))
    with
    | (true, fs') => (true, World.mk fs' (World.log w) (S (World.ticks w)))
    | (false, _) => (false, w)
    end.

(** [m_cache.AddEntry(filename, firsRef, user)], noted in the log. *)
Definition cache_AddEntry (env : Env.t) (c : t)
    (filename firsRef user : list ascii) : M t :=
  emit (CallAddEntry filename firsRef user);;
  now ← time (Env.clock env);
  let entry := DuplicateCache.make_entry filename firsRef user now in
  let cache := m_cache c in
  let cache' :=
    DuplicateCache.mk (DuplicateCache.m_cachePath cache)
      (DuplicateCache.m_entries cache ++ [entry])
      ({[filename]} ∪ DuplicateCache.m_filenameIndex cache) in
  cache_Save env cache';;
  mret (set_cache c cache').

Definition relay_SubmitInvoice (env : Env.t) (c : t) (pdfPath : wstring)
    (userEmail sessionToken : list ascii) : M SubmitResult.t :=
  emit (CallSubmitInvoice pdfPath userEmail sessionToken);;
  RelayClient.SubmitInvoice env (m_relay c) pdfPath userEmail sessionToken.

Definition session_Load (env : Env.t) : M SessionInfo.t :=
  emit CallSessionLoad;; SessionToken.Load env.

(** The body of the thread [OnSubmitClicked] starts. *)
Definition OnSubmitClicked (env : Env.t) (c : t) (currentPdfPath : wstring)
    : M t :=
  (* 1. Check session *)
  session ← session_Load env;
  if negb (SessionInfo.valid session) then
    SetState c SubmitButtonState.NoSession (str "Sign In Required")
      (SessionInfo.error session)
  else
    (* 2. Check duplicate *)
    let filename := ExtractFilename currentPdfPath in
    dupCheck ← cache_Check c filename;
    if decide (DuplicateCheckResult.status dupCheck
               = DuplicateStatus.AlreadySubmitted) then
      SetState c SubmitButtonState.AlreadySubmitted (str "Already Submitted")
        (str "Submitted by " ++ DuplicateCheckResult.submittedBy dupCheck
         ++ str " (Ref: " ++ DuplicateCheckResult.firsReference dupCheck
         ++ str ")")
    else
      (* 3. Submit via Relay *)
      c ← SetState c SubmitButtonState.Submitting (str "Submitting...")
            (str "Sending to Helium Relay for FIRS processing");
      result ← relay_SubmitInvoice env c currentPdfPath
                 (SessionInfo.username session) (SessionInfo.token session);
      if SubmitResult.success result then
        (* 4. Record in cache *)
        c ← cache_AddEntry env c filename (SubmitResult.firsReference result)
              (SessionInfo.username session);
        c ← SetState c SubmitButtonState.Success (str "Submitted!")
              (str "FIRS Reference: " ++ SubmitResult.firsReference result);
        Sleep 3000;;
        SetState c SubmitButtonState.AlreadySubmitted
          (str "Already Submitted")
          (str "FIRS Reference: " ++ SubmitResult.firsReference result)
      else
        c ← SetState c SubmitButtonState.Error (str "Submit Failed")
              (SubmitResult.error result);
        Sleep 5000;;
        SetState c SubmitButtonState.Ready (str "Submit to FIRS")
          (str "Click to retry submission").

Definition set_currentPdf (c : t) (pdfPath : wstring) : t :=
  mk (m_relay c) (m_cache c) (m_router c) (m_buttonState c)
     (m_onStateChange c) pdfPath.

(** [SessionToken::HasValidSession()], noted in the log. *)
Definition session_HasValidSession (env : Env.t) : M bool :=
  emit CallSessionLoad;; SessionToken.HasValidSession env.

(** [m_cache.Load(cachePath)] on the disk of the world. Nothing catches what
    [resize] throws in [Load]: [None] is the exception on its way out, and
    [can_allocate] the allocator of [DuplicateCache.resize_throws]. *)
Definition cache_Load (can_allocate : nat → bool) (c : t)
    (cachePath : wstring) : M (option t) :=
  fs ← get_fs;
  match DuplicateCache.Load_outcome can_allocate (m_cache c) fs cachePath with
  | None => mret None
  | Some loaded => mret (Some (set_cache c loaded.2))
  end.

(** [cachePath] is what [GetCachePath()] returns (a known folder of
    Windows). [None]: the exception of [m_cache.Load] leaves [Initialize],
    which has no handler either, before anything else is done. *)
Definition Initialize (env : Env.t) (can_allocate : nat → bool)
    (cachePath : wstring) (c : t) : M (option (bool * t)) :=
  (* Load duplicate cache *)
  loaded ← cache_Load can_allocate c cachePath;
  match loaded with
  | None => mret None
  | Some c =>
      (* Check session *)
      valid ← session_HasValidSession env;
      if negb valid then
        c ← SetState c SubmitButtonState.NoSession (str "Sign In Required")
              (str "Open Float to sign in to your Helium account");
        mret (Some (true, c))
      else
        (* Check Relay connectivity *)
        available ← RelayClient.IsRelayAvailable env (m_relay c);
        if negb available then
          c ← SetState c SubmitButtonState.FloatNotRunning (str "Start Float")
                (str "Helium Float must be running to submit invoices");
          mret (Some (true, c))
        else
          c ← SetState c SubmitButtonState.Ready (str "Submit to FIRS")
                (str "Send this invoice to FIRS for processing");
          mret (Some (true, c))
  end.

Definition RefreshButtonState (env : Env.t) (c : t) (pdfPath : wstring)
    : M t :=
  let filename := ExtractFilename pdfPath in
  (* Check duplicate cache first (instant) *)
  dupCheck ← cache_Check c filename;
  if decide (DuplicateCheckResult.status dupCheck
             = DuplicateStatus.AlreadySubmitted) then
    SetState c SubmitButtonState.AlreadySubmitted (str "Already Submitted")
      (str "Submitted by " ++ DuplicateCheckResult.submittedBy dupCheck
       ++ str " (Ref: " ++ DuplicateCheckResult.firsReference dupCheck
       ++ str ")")
  else
    (* Check session *)
    valid ← session_HasValidSession env;
    if negb valid then
      SetState c SubmitButtonState.NoSession (str "Sign In Required")
        (str "Open Float to sign in")
    else
      SetState c SubmitButtonState.Ready (str "Submit to FIRS")
        (str "Send this invoice to FIRS for processing").

Definition OnPdfOpened (env : Env.t) (c : t) (pdfPath : wstring)
    : M (RouteResult.t * t) :=
  let c := set_currentPdf c pdfPath in
  result ← InvoiceRouter.Route (m_router c) pdfPath;
  if decide (RouteResult.decision result = RouteDecision.Invoice
             ∨ RouteResult.decision result = RouteDecision.Unknown) then
    (* Show in Transforma: refresh button state for this file *)
    c ← RefreshButtonState env c pdfPath;
    mret (result, c)
  else mret (result, c).

Definition CheckRelayConnection (env : Env.t) (c : t) : M bool :=
  RelayClient.IsRelayAvailable env (m_relay c).
End HeliumController.

(** ** patches/SumatraIntegration.cpp *)

Module SumatraIntegration.
Definition IsButtonClickable (state : SubmitButtonState.t) : bool :=
  match state with
  | SubmitButtonState.Ready | SubmitButtonState.NoSession
  | SubmitButtonState.FloatNotRunning => true
  | _ => false
  end.
End SumatraIntegration.

(** * Specification-side definitions

    What the design document says, in its own words, next to the code; and
    the concrete worlds the statements below are tried on. *)

(** ** The duplicate cache *)

(** A string that needs no cutting. *)
Definition fits (n : nat) (s : list ascii) : Prop :=
  (NUL ∉ s) ∧ (length s ≤ n)%nat.

#[global] Instance fits_dec n s : Decision (fits n s).
Proof. unfold fits. solve_decision. Defined.

(** A history of a cache: the calls made on it, in order. *)
Module CacheOp.
Inductive t :=
  | OpLoad (cachePath : wstring)
  | OpAddEntry (filename firsRef user : list ascii) (now nowSave : Z).

Definition run (s : DuplicateCache.t * FileSystem.t) (op : t)
    : DuplicateCache.t * FileSystem.t :=
  match op with
  | OpLoad cachePath => ((DuplicateCache.Load s.1 s.2 cachePath).2, s.2)
  | OpAddEntry filename firsRef user now nowSave =>
      DuplicateCache.AddEntry s.1 s.2 filename firsRef user now nowSave
  end.

Definition run_all (ops : list t) (s : DuplicateCache.t * FileSystem.t)
    : DuplicateCache.t * FileSystem.t :=
  foldl run s ops.

Definition is_add (op : t) : bool :=
  match op with OpAddEntry _ _ _ _ _ => true | OpLoad _ => false end.

(** The file names [AddEntry] was called with. *)
Definition added (ops : list t) : list (list ascii) :=
  ops ≫= λ op,
    match op with OpAddEntry filename _ _ _ _ => [filename] | OpLoad _ => [] end.
End CacheOp.

(** The invariant of the design document: the index is the set of the file
    names the records hold. *)
Definition index_invariant (c : DuplicateCache.t) : Prop :=
  DuplicateCache.m_filenameIndex c
  = list_to_set (DuplicateCache.stored_filename <$> DuplicateCache.m_entries c).

(** An empty disk on which every path can be written. *)
Definition sample_fs : FileSystem.t := FileSystem.mk ∅ (λ _, true).

(** A path whose last component has 134 characters (130 times U+00E9 and
    the extension), which are 264 bytes of UTF-8. *)
Definition long_path : wstring :=
  wstr "C:/scans/" ++ replicate 130 233%N ++ wstr ".pdf".

Definition long_name : list ascii := ExtractFilename long_path.

(** One earlier submission. *)
Definition sample_ops : list CacheOp.t :=
  [CacheOp.OpAddEntry (str "b.pdf") (str "FIRS-7") (str "amy")
     1699999999 1699999999].

(** The header fields within their widths. *)
Definition CacheHeader_wf (h : CacheHeader.t) : Prop :=
  0 ≤ CacheHeader.version h < 2 ^ 32
  ∧ 0 ≤ CacheHeader.entryCount h < 2 ^ 32
  ∧ 0 ≤ CacheHeader.lastSyncTimestamp h < 2 ^ 64.

#[global] Instance CacheEntry_wf_dec (e : CacheEntry.t)
  : Decision (CacheEntry.wf e).
Proof. unfold CacheEntry.wf. solve_decision. Defined.

(** A cache loaded from nothing, with two submissions recorded. *)
Definition sample_cache : DuplicateCache.t :=
  (CacheOp.run_all
     [CacheOp.OpLoad
        (wstr "C:\ProgramData\Helium\cache\submitted-invoices.cache");
      CacheOp.OpAddEntry (str "a.pdf") (str "FIRS-1") (str "bob")
        1700000000 1700000001;
      CacheOp.OpAddEntry (str "b.pdf") (str "FIRS-2") (str "amy")
        1700000100 1700000101]
     (DuplicateCache.new, sample_fs)).1.

(** As many records as a 32-bit count cannot hold. *)
Definition overfull_cache : DuplicateCache.t :=
  DuplicateCache.mk (wstr "submitted-invoices.cache")
     (replicate (N.to_nat 4294967296) CacheEntry.zero) {[ [] ]}.

(** A disk whose cache file says version 2. *)
Definition unknown_version_fs : FileSystem.t :=
  FileSystem.mk
    {[ wstr "C:\cache\submitted-invoices.cache"
       := le_encode 4 2 ++ le_encode 4 7 ++ le_encode 8 1600000000
          ++ str "left over from another format" ]}
    (λ _, true).

(** ** The router *)

(** The capital of a small letter; any other character stands for
    itself. *)
Definition upper_case (c : ascii) : ascii :=
  default c
    (snd <$> List.find (λ p : ascii * ascii, bool_decide (p.1 = c))
               (zip (str "abcdefghijklmnopqrstuvwxyz")
                    (str "ABCDEFGHIJKLMNOPQRSTUVWXYZ"))).

(** [needle] occurs in [hay]: [hay] holds it as a run of consecutive
    characters. *)
Definition occurs (needle hay : list ascii) : Prop :=
  ∃ pre post, hay = pre ++ needle ++ post.

(** Tier 2 in the words of the design document, from the markers [present]
    in the upper-cased excerpt, in table order: add their weights, clamp to
    1.0, compare with 0.30; the diagnostic names the first of them. *)
Definition tier2_spec (present : list InvoiceRouter.Marker.t)
    : RouteResult.t :=
  let sum :=
    foldl (λ s m, (s + InvoiceRouter.Marker.weight m)%float) 0%float present in
  let score := if PrimFloat.ltb 1 sum then 1%float else sum in
  if PrimFloat.leb 0.30 score then
    RouteResult.mk RouteDecision.Invoice
      (str "Content analysis: "
       ++ default [] (InvoiceRouter.Marker.text <$> head present))
      [] score
  else RouteResult.mk RouteDecision.NotInvoice [] [] (1 - score)%float.

(** The result tier 1 gives for a pattern. *)
Definition tier1_result (p : RoutingPattern.t) : RouteResult.t :=
  RouteResult.mk RouteDecision.Invoice (RoutingPattern.description p)
    (RoutingPattern.name p) 0.95.

(** [std::regex_search] of a file name against a pattern of the table. *)
Definition pattern_matches (filename : list ascii) (p : RoutingPattern.t)
    : bool :=
  Regex.search filename (RoutingPattern.filenameRegex p).

(** A disk with one scanned invoice and no session file. *)
Definition sample_pdf_fs : FileSystem.t :=
  FileSystem.mk
    {[ wstr "C:\scans\0042.pdf" := str "%PDF-1.4 Invoice   Bill to: Acme Ltd" ]}
    (λ _, true).

(** ** The log of calls *)

(** A computation only ever appends to the log. *)
Definition grows {A} (m : M A) : Prop :=
  ∀ w, ∃ events, World.log (m w).2 = World.log w ++ events.

(** The calls that reach the relay. *)
Definition is_transport (e : Event) : bool :=
  match e with
  | CallSubmitInvoice _ _ _ | CallSendRequest _ _ _ _ _ => true
  | _ => false
  end.

(** What a computation adds to the log of [w]. *)
Definition events_of {A} (m : M A) (w : World.t) : list Event :=
  drop (length (World.log w)) (World.log (m w).2).

(** ** A sample environment *)

(** A JSON string literal. *)
Definition quoted (s : string) : list ascii := dquote :: str s ++ [dquote].

(** A relay that accepts everything. *)
Definition accepting_relay : RelayResponse.t :=
  RelayResponse.mk 201
    (str "{" ++ quoted "file_uuid" ++ str ": " ++ quoted "3f2a-77" ++ str ", "
     ++ quoted "firs_reference" ++ str ": " ++ quoted "FIRS-2024-00847392"
     ++ str "}")
    [] true.

(** An accepting relay, the identity for DPAPI, a clock that starts at
    1700000000 and a session that expires at 1800000000. *)
Definition sample_env : Env.t :=
  Env.mk (λ _ _ _ _ _ _ _, accepting_relay)
    (str "0123456789abcdef")
    (λ n, 1700000000 + Z.of_nat n)
    (wstr "C:\ProgramData\Helium\sessions\bob.token.enc")
    (λ encrypted, encrypted)
    (λ _, Some 1800000000).

(** ** The submission sequence, in two halves *)

(** Steps 3 to 5 of [OnSubmitClicked], once both checks have passed. *)
Definition OnSubmitClicked_submit (env : Env.t) (c : HeliumController.t)
    (currentPdfPath : wstring) (session : SessionInfo.t)
    (filename : list ascii) : M HeliumController.t :=
  c ← HeliumController.SetState c SubmitButtonState.Submitting
        (str "Submitting...")
        (str "Sending to Helium Relay for FIRS processing");
  result ← HeliumController.relay_SubmitInvoice env c currentPdfPath
             (SessionInfo.username session) (SessionInfo.token session);
  if SubmitResult.success result then
    c ← HeliumController.cache_AddEntry env c filename
          (SubmitResult.firsReference result) (SessionInfo.username session);
    c ← HeliumController.SetState c SubmitButtonState.Success
          (str "Submitted!")
          (str "FIRS Reference: " ++ SubmitResult.firsReference result);
    HeliumController.Sleep 3000;;
    HeliumController.SetState c SubmitButtonState.AlreadySubmitted
      (str "Already Submitted")
      (str "FIRS Reference: " ++ SubmitResult.firsReference result)
  else
    c ← HeliumController.SetState c SubmitButtonState.Error
          (str "Submit Failed") (SubmitResult.error result);
    HeliumController.Sleep 5000;;
    HeliumController.SetState c SubmitButtonState.Ready (str "Submit to FIRS")
      (str "Click to retry submission").

(** The world after one more call. *)
Definition log_event (e : Event) (w : World.t) : World.t :=
  World.mk (World.fs w) (World.log w ++ [e]) (World.ticks w).

(** What Float stores after a sign-in. *)
Definition session_json : list ascii :=
  str "{" ++ quoted "username" ++ str ": " ++ quoted "bob@example.com"
  ++ str ", " ++ quoted "token" ++ str ": " ++ quoted "tok-81"
  ++ str ", " ++ quoted "expires_at" ++ str ": " ++ quoted "2027-01-15T09:00:00Z"
  ++ str ", " ++ quoted "user_id" ++ str ": " ++ quoted "u-7" ++ str "}".

(** A machine on which Float has signed the user in. *)
Definition signed_in_fs : FileSystem.t :=
  FileSystem.mk
    {[ wstr "C:\scans\0042.pdf" := str "%PDF-1.4 Invoice   Bill to: Acme Ltd";
       wstr "C:\ProgramData\Helium\sessions\bob.token.enc" := session_json ]}
    (λ _, true).

(** A controller whose cache was loaded and whose toolbar listens. *)
Definition sample_controller : HeliumController.t :=
  HeliumController.SetButtonStateCallback
    (HeliumController.set_cache HeliumController.new
       (DuplicateCache.Load DuplicateCache.new signed_in_fs
          (wstr "C:\ProgramData\Helium\cache\submitted-invoices.cache")).2).

(** ** Further samples and measures *)

(** A cache file that ends after its header, which counts three records. *)
Definition truncated_fs : FileSystem.t :=
  FileSystem.mk
    {[ wstr "C:\cache\submitted-invoices.cache"
       := le_encode 4 1 ++ le_encode 4 3 ]}
    (λ _, true).

(** The tokens of a text, each behind its opening quote. *)
Definition dq_join (tokens : list (list ascii)) : list ascii :=
  tokens ≫= λ t, dquote :: t.

(** The sessions [BuildJson] writes so that [ExtractJsonString] reads them
    back: no quote in a field (none is escaped), and no field equal to the
    name of a key written after it. *)
Definition json_safe (s : SessionInfo.t) : Prop :=
  (dquote ∉ SessionInfo.username s) ∧ (dquote ∉ SessionInfo.token s)
  ∧ (dquote ∉ SessionInfo.expiresAt s) ∧ (dquote ∉ SessionInfo.userId s)
  ∧ (SessionInfo.username s ∉ [str "token"; str "expires_at"; str "user_id"])
  ∧ (SessionInfo.token s ∉ [str "expires_at"; str "user_id"])
  ∧ SessionInfo.expiresAt s ≠ str "user_id".

(** The session behind [session_json]. *)
Definition sample_session : SessionInfo.t :=
  SessionInfo.mk (str "bob@example.com") (str "tok-81")
    (str "2027-01-15T09:00:00Z") (str "u-7") true [].

(** A session whose user name is the name of a later key. *)
Definition confusing_session : SessionInfo.t :=
  SessionInfo.mk (str "user_id") (str "tok-81")
    (str "2027-01-15T09:00:00Z") (str "u-7") true [].

(** Every sum the marker loop can reach from [s], whatever the text. *)
Fixpoint reachable_scores (ms : list InvoiceRouter.Marker.t) (s : float)
    : list float :=
  match ms with
  | [] => [s]
  | m :: ms' =>
      reachable_scores ms' (s + InvoiceRouter.Marker.weight m)%float
      ++ reachable_scores ms' s
  end.

(** Is the confidence of a verdict in its range? *)
Definition confidence_in_range (res : RouteResult.t) : bool :=
  let c := RouteResult.confidenceScore res in
  match RouteResult.decision res with
  | RouteDecision.Invoice => PrimFloat.leb 0.30 c && PrimFloat.leb c 1
  | RouteDecision.NotInvoice => PrimFloat.leb 0.75 c && PrimFloat.leb c 1
  | RouteDecision.Unknown => PrimFloat.eqb c 0
  end.

(** The range of the confidence of each verdict. *)
Definition confidence_ok (res : RouteResult.t) : Prop :=
  let c := RouteResult.confidenceScore res in
  match RouteResult.decision res with
  | RouteDecision.Invoice =>
      PrimFloat.leb 0.30 c = true ∧ PrimFloat.leb c 1 = true
  | RouteDecision.NotInvoice =>
      PrimFloat.leb 0.75 c = true ∧ PrimFloat.leb c 1 = true
  | RouteDecision.Unknown => c = 0%float
  end.

(** The verdict of tier 2 on a sum of weights. *)
Definition verdict_of_sum (sum : float) : RouteResult.t :=
  let score := if PrimFloat.ltb 1 sum then 1%float else sum in
  if PrimFloat.leb 0.30 score
  then RouteResult.mk RouteDecision.Invoice [] [] score
  else RouteResult.mk RouteDecision.NotInvoice [] [] (1 - score)%float.

(** A computation that leaves the disk alone and does not reach the relay. *)
Definition offline {A} (m : M A) : Prop :=
  ∀ w, World.fs (m w).2 = World.fs w
       ∧ ∃ events, World.log (m w).2 = World.log w ++ events
                   ∧ Forall (λ e, is_transport e = false) events.

(** The state the toolbar button shows. *)
Definition button (c : HeliumController.t) : SubmitButtonState.t :=
  ButtonStateInfo.state (HeliumController.m_buttonState c).

(** Does the cache of the controller know the file? *)
Definition known (c : HeliumController.t) (filename : list ascii) : Prop :=
  DuplicateCheckResult.status
    (DuplicateCache.Check (HeliumController.m_cache c) filename)
  = DuplicateStatus.AlreadySubmitted.

(** A relay that is not there. *)
Definition absent_relay : RelayResponse.t :=
  RelayResponse.mk 0 [] (str "Failed to connect to Helium Relay") false.

(** The sample environment with that relay. *)
Definition offline_env : Env.t :=
  Env.mk (λ _ _ _ _ _ _ _, absent_relay)
    (Env.random_hex sample_env) (Env.clock sample_env)
    (Env.GetTokenPath sample_env) (Env.Decrypt sample_env)
    (Env.parse_expiry sample_env).

(** A regular expression whose character classes do not tell a letter from
    its lower-case form. *)
Fixpoint case_blind (r : Regex.t) : Prop :=
  match r with
  | Regex.Fail | Regex.Eps => True
  | Regex.Chr p => ∀ x, p (tolower x) = p x
  | Regex.Cat r s | Regex.Alt r s => case_blind r ∧ case_blind s
  | Regex.Star r => case_blind r
  end.

(** ** What the relay answers *)














(** * Proofs *)

Section DuplicateCacheProofs.
Import DuplicateCache.

(** ** C strings and bounded copies *)

Lemma c_str_no_NUL (s : list ascii) : NUL ∉ c_str s.
Proof.
  induction s as [|a s IH]; simpl; [apply not_elem_of_nil|].
  case_decide; [apply not_elem_of_nil|].
  rewrite not_elem_of_cons. split; [congruence | done].
Qed.

Lemma c_str_id (s : list ascii) : NUL ∉ s → c_str s = s.
Proof.
  induction s as [|a s IH]; simpl; [done|].
  rewrite not_elem_of_cons. intros [Ha Hs].
  case_decide; [congruence|]. by rewrite IH.
Qed.

Lemma c_str_app_NUL (s t : list ascii) : NUL ∉ s → c_str (s ++ NUL :: t) = s.
Proof.
  induction s as [|a s IH]; simpl.
  - intros _. reflexivity.
  - rewrite not_elem_of_cons. intros [Ha Hs].
    case_decide; [congruence|]. by rewrite IH.
Qed.

Lemma c_str_length (s : list ascii) : (length (c_str s) ≤ length s)%nat.
Proof. induction s; simpl; [done|]. case_decide; simpl; lia. Qed.

Lemma not_elem_of_take {A} (x : A) (n : nat) (l : list A) :
  x ∉ l → x ∉ take n l.
Proof.
  intros H Hin. apply H. rewrite <- (take_drop n l). apply elem_of_app. by left.
Qed.

(** With [count = sizeof dest - 1] the copy always fits, and what a C
    string read of the buffer gives back is the source cut at its first NUL
    and at [count] characters. *)
Lemma c_str_strncpy_s (dest src : list ascii) (count : nat) :
  (count < length dest)%nat →
  c_str (strncpy_s dest src count) = take count (c_str src).
Proof.
  intros Hlen. unfold strncpy_s.
  case_decide as Hfit.
  - apply c_str_app_NUL, not_elem_of_take, c_str_no_NUL.
  - exfalso. apply Hfit. rewrite length_take. lia.
Qed.

Lemma strncpy_s_length (dest src : list ascii) (count : nat) :
  (count < length dest)%nat →
  length (strncpy_s dest src count) = length dest.
Proof.
  intros Hlen. unfold strncpy_s.
  case_decide as Hfit.
  - rewrite length_app. simpl. rewrite length_drop. lia.
  - exfalso. apply Hfit. rewrite length_take. lia.
Qed.

Lemma take_c_str_fits (n : nat) (s : list ascii) :
  fits n s → take n (c_str s) = s.
Proof. intros [Hn Hl]. rewrite c_str_id by done. by apply take_ge. Qed.

Lemma c_str_app_stop (s t : list ascii) : NUL ∈ s → c_str (s ++ t) = c_str s.
Proof.
  induction s as [|a s IH]; simpl.
  - intros H. by apply elem_of_nil in H.
  - intros [Ha|H]%elem_of_cons.
    + subst a. by rewrite !decide_True.
    + case_decide; [done|]. by rewrite IH.
Qed.

Lemma strncpy_s_NUL (dest src : list ascii) (count : nat) :
  NUL ∈ strncpy_s dest src count.
Proof.
  unfold strncpy_s. case_decide.
  - apply elem_of_app. right. by left.
  - by left.
Qed.

(** A record whose file-name field holds a NUL is read inside that field. *)
Lemma stored_filename_terminated (e : CacheEntry.t) :
  NUL ∈ CacheEntry.filename e →
  stored_filename e = c_str (CacheEntry.filename e).
Proof. intros H. unfold stored_filename, CacheEntry.to_bytes. by apply c_str_app_stop. Qed.

Lemma stored_firsReference_terminated (e : CacheEntry.t) :
  NUL ∈ CacheEntry.firsReference e →
  stored_firsReference e = c_str (CacheEntry.firsReference e).
Proof. intros H. unfold stored_firsReference. by apply c_str_app_stop. Qed.

Lemma make_entry_filename f r u now :
  stored_filename (make_entry f r u now) = take 255 (c_str f).
Proof.
  rewrite stored_filename_terminated by apply strncpy_s_NUL.
  unfold make_entry. simpl CacheEntry.filename.
  apply c_str_strncpy_s. vm_compute. lia.
Qed.

Lemma make_entry_firsReference f r u now :
  stored_firsReference (make_entry f r u now) = take 31 (c_str r).
Proof.
  rewrite stored_firsReference_terminated by apply strncpy_s_NUL.
  unfold make_entry. simpl CacheEntry.firsReference.
  apply c_str_strncpy_s. vm_compute. lia.
Qed.

Lemma make_entry_submittedBy f r u now :
  stored_submittedBy (make_entry f r u now) = take 63 (c_str u).
Proof.
  unfold stored_submittedBy, make_entry. simpl CacheEntry.submittedBy.
  apply c_str_strncpy_s. vm_compute. lia.
Qed.

Lemma make_entry_wf f r u now : CacheEntry.wf (make_entry f r u now).
Proof.
  unfold CacheEntry.wf, make_entry. simpl.
  rewrite !strncpy_s_length by (vm_compute; lia).
  repeat split; try done.
  - apply Z.mod_pos_bound. done.
  - apply Z.mod_pos_bound. done.
Qed.

(** ** The scan of [Check] *)

Lemma scan_app_miss (l l' : list CacheEntry.t) (f : list ascii) :
  (∀ e, e ∈ l → stored_filename e ≠ f) → scan (l ++ l') f = scan l' f.
Proof.
  induction l as [|e l IH]; simpl; [done|]. intros H.
  case_decide as Heq.
  - exfalso. eapply H; [apply elem_of_cons; by left | done].
  - apply IH. intros e' He'. apply H. apply elem_of_cons; by right.
Qed.

Lemma scan_None (l : list CacheEntry.t) (f : list ascii) :
  scan l f = None ↔ ∀ e, e ∈ l → stored_filename e ≠ f.
Proof.
  induction l as [|e l IH]; simpl.
  - split; [intros _ e He; by apply elem_of_nil in He | done].
  - case_decide as Heq.
    + split; [done|]. intros H. exfalso. eapply H; [apply elem_of_cons; by left|done].
    + rewrite IH. split.
      * intros H e' [->|He']%elem_of_cons; auto.
      * intros H e' He'. apply H. apply elem_of_cons; by right.
Qed.

Lemma scan_Some (l : list CacheEntry.t) (f : list ascii) (e : CacheEntry.t) :
  scan l f = Some e → e ∈ l ∧ stored_filename e = f.
Proof.
  induction l as [|e' l IH]; simpl; [done|].
  case_decide as Heq.
  - intros [= ->]. split; [apply elem_of_cons; by left | done].
  - intros [H1 H2]%IH. split; [apply elem_of_cons; by right | done].
Qed.

Lemma build_index_spec_aux (l : list CacheEntry.t) (acc : gset (list ascii)) :
  foldl (λ idx e, {[stored_filename e]} ∪ idx) acc l
  = list_to_set (stored_filename <$> l) ∪ acc.
Proof.
  revert acc. induction l as [|e l IH]; intros acc; simpl.
  - set_solver.
  - rewrite IH. set_solver.
Qed.

Lemma build_index_spec (l : list CacheEntry.t) :
  build_index l = list_to_set (stored_filename <$> l).
Proof. unfold build_index. rewrite build_index_spec_aux. set_solver. Qed.

(** ** [Check] and [AddEntry] *)

Lemma Check_absent (c : DuplicateCache.t) (f : list ascii) :
  f ∉ m_filenameIndex c →
  Check c f = DuplicateCheckResult.mk DuplicateStatus.NotSubmitted [] [] 0.
Proof. intros H. unfold Check. by case_decide. Qed.

Lemma Check_fallback (c : DuplicateCache.t) (f : list ascii) :
  f ∈ m_filenameIndex c →
  Forall (λ e, stored_filename e ≠ f) (m_entries c) →
  Check c f = DuplicateCheckResult.mk DuplicateStatus.AlreadySubmitted [] [] 0.
Proof.
  intros Hin Hno. unfold Check. case_decide; [|done].
  assert (scan (m_entries c) f = None) as ->; [|done].
  apply scan_None. by apply Forall_forall.
Qed.

Lemma AddEntry_cache c fs f r u now nowSave :
  (AddEntry c fs f r u now nowSave).1
  = mk (m_cachePath c) (m_entries c ++ [make_entry f r u now])
       ({[f]} ∪ m_filenameIndex c).
Proof. reflexivity. Qed.

Lemma Check_after_AddEntry c fs X ref user now nowSave :
  fits 255 X → fits 31 ref → fits 63 user →
  Forall (λ e, stored_filename e ≠ X) (m_entries c) →
  Check (AddEntry c fs X ref user now nowSave).1 X
  = DuplicateCheckResult.mk DuplicateStatus.AlreadySubmitted ref user
      (now mod 2 ^ 64).
Proof.
  intros HX Hr Hu Hno. rewrite AddEntry_cache. unfold Check. simpl.
  case_decide as Hin; [|set_solver].
  rewrite scan_app_miss by (by apply Forall_forall).
  simpl. rewrite make_entry_filename, take_c_str_fits by done.
  case_decide; [|done].
  rewrite make_entry_firsReference, make_entry_submittedBy.
  by rewrite !take_c_str_fits.
Qed.

Lemma run_all_adds_index (ops : list CacheOp.t) s :
  forallb CacheOp.is_add ops = true →
  m_filenameIndex (CacheOp.run_all ops s).1
  = list_to_set (CacheOp.added ops) ∪ m_filenameIndex s.1.
Proof.
  unfold CacheOp.run_all, CacheOp.added.
  revert s. induction ops as [|op ops IH]; intros s; simpl.
  - intros _. set_solver.
  - intros [Hop Hops]%andb_prop. rewrite IH by done.
    destruct op; [done|]. simpl. set_solver.
Qed.

(** C9. Whatever the cache holds, and also when nothing was ever loaded,
    [Check] answers [NotSubmitted] or [AlreadySubmitted] and never
    [CacheUnavailable]; a file name that is not in the index gets
    [NotSubmitted], and so does every file name on the freshly constructed
    cache. *)
Theorem Check_never_CacheUnavailable (c : DuplicateCache.t) (f : list ascii) :
  (DuplicateCheckResult.status (Check c f) = DuplicateStatus.NotSubmitted
   ∨ DuplicateCheckResult.status (Check c f) = DuplicateStatus.AlreadySubmitted)
  ∧ DuplicateCheckResult.status (Check c f) ≠ DuplicateStatus.CacheUnavailable
  ∧ (f ∉ m_filenameIndex c →
     Check c f = DuplicateCheckResult.mk DuplicateStatus.NotSubmitted [] [] 0)
  ∧ Check DuplicateCache.new f
    = DuplicateCheckResult.mk DuplicateStatus.NotSubmitted [] [] 0.
Proof.
  split_and!.
  - unfold Check. case_decide; [|by left].
    destruct (scan _ _); by right.
  - unfold Check. case_decide; [|done]. by destruct (scan _ _).
  - apply Check_absent.
  - apply Check_absent. set_solver.
Qed.

Lemma Check_never_CacheUnavailable_witness :
  Check DuplicateCache.new (str "a.pdf")
  = DuplicateCheckResult.mk DuplicateStatus.NotSubmitted [] [] 0.
Proof.
  apply (Check_never_CacheUnavailable DuplicateCache.new (str "a.pdf")).
Defined.

(** C10. When the file name is in the index but no record stores it,
    [Check] answers [AlreadySubmitted] with an empty reference, an empty
    user and time stamp 0. That branch is reached: [AddEntry] with a name of
    more than 255 bytes puts the whole name into the index and the name cut
    to 255 bytes into the record, and [Check] of the whole name then finds
    no record. *)
Theorem Check_fallback_reachable :
  (∀ (c : DuplicateCache.t) (f : list ascii),
     f ∈ m_filenameIndex c →
     Forall (λ e, stored_filename e ≠ f) (m_entries c) →
     Check c f
     = DuplicateCheckResult.mk DuplicateStatus.AlreadySubmitted [] [] 0)
  ∧ (∀ c fs f r u now nowSave,
       NUL ∉ f → (255 < length f)%nat →
       Forall (λ e, stored_filename e ≠ f) (m_entries c) →
       let c' := (AddEntry c fs f r u now nowSave).1 in
       f ∈ m_filenameIndex c'
       ∧ stored_filename <$> m_entries c'
         = (stored_filename <$> m_entries c) ++ [take 255 f]
       ∧ take 255 f ≠ f
       ∧ Check c' f
         = DuplicateCheckResult.mk DuplicateStatus.AlreadySubmitted [] [] 0).
Proof.
  split; [apply Check_fallback|].
  intros c fs f r u now nowSave Hnul Hlen Hno c'.
  assert (Hcut : take 255 f ≠ f).
  { intros Heq. apply (f_equal length) in Heq. rewrite length_take in Heq. lia. }
  assert (Hin : f ∈ m_filenameIndex c') by (subst c'; simpl; set_solver).
  split_and!; try done.
  - subst c'. simpl. rewrite fmap_app. simpl.
    by rewrite make_entry_filename, c_str_id.
  - apply Check_fallback; [done|]. subst c'. simpl.
    apply Forall_app. split; [done|]. apply Forall_singleton.
    by rewrite make_entry_filename, c_str_id.
Qed.

Lemma Check_fallback_reachable_witness :
  Check (AddEntry DuplicateCache.new sample_fs long_name (str "FIRS-1")
           (str "bob") 1700000000 1700000001).1 long_name
  = DuplicateCheckResult.mk DuplicateStatus.AlreadySubmitted [] [] 0.
Proof.
  apply (proj2 Check_fallback_reachable DuplicateCache.new sample_fs long_name).
  - compute_done.
  - vm_compute. lia.
  - constructor.
Defined.

(** C1, amended. For a file name of at most 255 bytes, a reference of at
    most 31 bytes and a user of at most 63 bytes, none holding a NUL byte,
    and a cache in which no record stores that file name: after [AddEntry]
    the [Check] of the name answers [AlreadySubmitted] with exactly that
    reference and user (and the time of the call). On a cache built from
    the empty one by [AddEntry] calls only, [Check] of a name [AddEntry] was
    never called with answers [NotSubmitted]. *)
Theorem Check_after_AddEntry_bounded :
  (∀ c fs X ref user now nowSave,
     fits 255 X → fits 31 ref → fits 63 user →
     Forall (λ e, stored_filename e ≠ X) (m_entries c) →
     Check (AddEntry c fs X ref user now nowSave).1 X
     = DuplicateCheckResult.mk DuplicateStatus.AlreadySubmitted ref user
         (now mod 2 ^ 64))
  ∧ (∀ ops fs Y,
       forallb CacheOp.is_add ops = true →
       Y ∉ CacheOp.added ops →
       Check (CacheOp.run_all ops (DuplicateCache.new, fs)).1 Y
       = DuplicateCheckResult.mk DuplicateStatus.NotSubmitted [] [] 0).
Proof.
  split; [apply Check_after_AddEntry|].
  intros ops fs Y Hadds HY. apply Check_absent.
  rewrite run_all_adds_index by done. simpl. set_solver.
Qed.

Lemma Check_after_AddEntry_bounded_witness :
  let s := CacheOp.run_all sample_ops (DuplicateCache.new, sample_fs) in
  Check (AddEntry s.1 s.2 (str "a.pdf") (str "FIRS-1") (str "bob")
           1700000000 1700000001).1 (str "a.pdf")
  = DuplicateCheckResult.mk DuplicateStatus.AlreadySubmitted (str "FIRS-1")
      (str "bob") 1700000000
  ∧ Check (CacheOp.run_all sample_ops (DuplicateCache.new, sample_fs)).1
      (str "c.pdf")
    = DuplicateCheckResult.mk DuplicateStatus.NotSubmitted [] [] 0.
Proof.
  split.
  - apply (proj1 Check_after_AddEntry_bounded); compute_done.
  - apply (proj2 Check_after_AddEntry_bounded); [reflexivity | compute_done].
Defined.

(** C1 as stated fails on the code: a user name of more than 63 bytes comes
    back from [Check] cut to 63 bytes, not equal to what was added. *)
Lemma Check_after_AddEntry_counterexample :
  let user :=
    str "accounts.payable.shared-mailbox@procurement.example-holdings.com.ng" in
  DuplicateCheckResult.submittedBy
    (Check (AddEntry DuplicateCache.new sample_fs (str "a.pdf") (str "FIRS-1")
              user 1700000000 1700000001).1 (str "a.pdf"))
  = take 63 user
  ∧ take 63 user ≠ user.
Proof. split; [vm_compute; reflexivity|]. vm_compute. discriminate. Qed.

(** [Load] leaves the invariant in place: it either rebuilds the index from
    the records or touches neither. *)
Lemma Load_index_invariant c fs path :
  index_invariant c → index_invariant (Load c fs path).2.
Proof.
  unfold index_invariant, Load. intros H.
  destruct (FileSystem.read fs path) as [data|]; [|done].
  case_decide; [done|]. simpl. apply build_index_spec.
Qed.

(** [AddEntry] keeps the invariant for a name that needs no cutting. *)
Lemma AddEntry_index_invariant c fs f r u now nowSave :
  fits 255 f → index_invariant c →
  index_invariant (AddEntry c fs f r u now nowSave).1.
Proof.
  unfold index_invariant. intros Hf H. simpl. rewrite fmap_app. simpl.
  rewrite make_entry_filename, take_c_str_fits by done.
  rewrite list_to_set_app_L, H. set_solver.
Qed.

(** C2, on the code. After one [AddEntry], on the empty cache, with a file
    name of 264 bytes (a name a disk can hold: 134 characters), the index
    holds the whole name while the only record stores the name cut to 255
    bytes: the index is not the set of the file names of the records. *)
Theorem AddEntry_breaks_index_invariant :
  let s :=
    CacheOp.run_all
      [CacheOp.OpAddEntry long_name (str "FIRS-1") (str "bob")
         1700000000 1700000001]
      (DuplicateCache.new, sample_fs) in
  length long_name = 264%nat
  ∧ long_name ∈ m_filenameIndex s.1
  ∧ stored_filename <$> m_entries s.1 = [take 255 long_name]
  ∧ ¬ index_invariant s.1.
Proof.
  cbv zeta. set (c := (CacheOp.run_all _ _).1).
  assert (Hlen : length long_name = 264%nat) by (vm_compute; reflexivity).
  assert (H1 : long_name ∈ m_filenameIndex c)
    by (unfold c; simpl; set_solver).
  assert (H2 : stored_filename <$> m_entries c = [take 255 long_name]).
  { unfold c. simpl. rewrite make_entry_filename.
    rewrite c_str_id by compute_done. reflexivity. }
  split_and!; [done..|].
  unfold index_invariant. intros Hinv.
  rewrite Hinv, H2 in H1. apply elem_of_list_to_set in H1.
  apply list_elem_of_singleton in H1. apply (f_equal length) in H1.
  rewrite length_take, Hlen in H1. discriminate H1.
Qed.

(** ** Little-endian integers *)

Lemma Z_of_byte_of_Z (z : Z) : Z_of_byte (byte_of_Z z) = z mod 256.
Proof.
  unfold Z_of_byte, byte_of_Z.
  pose proof (Z.mod_pos_bound z 256 eq_refl) as Hb.
  rewrite N_ascii_embedding by lia. lia.
Qed.

Lemma length_le_encode (n : nat) (z : Z) : length (le_encode n z) = n.
Proof. revert z. induction n; intros z; simpl; [done|]. by rewrite IHn. Qed.

Lemma le_decode_encode (n : nat) (z : Z) :
  le_decode (le_encode n z) = z mod 256 ^ Z.of_nat n.
Proof.
  revert z. induction n as [|n IH]; intros z.
  - simpl. by rewrite Z.mod_1_r.
  - cbn [le_encode le_decode]. rewrite IH, Z_of_byte_of_Z.
    rewrite Nat2Z.inj_succ, Z.pow_succ_r by lia.
    rewrite Z.rem_mul_r; [done | done |]. apply Z.pow_pos_nonneg; lia.
Qed.

Lemma le_decode_encode_small (n : nat) (z : Z) :
  0 ≤ z < 256 ^ Z.of_nat n → le_decode (le_encode n z) = z.
Proof. intros H. rewrite le_decode_encode. by apply Z.mod_small. Qed.

(** ** The header and the records, to bytes and back *)

Lemma CacheHeader_to_bytes_length (h : CacheHeader.t) :
  length (CacheHeader.to_bytes h) = 16%nat.
Proof.
  unfold CacheHeader.to_bytes. by rewrite !length_app, !length_le_encode.
Qed.

Lemma CacheHeader_of_to_bytes (h : CacheHeader.t) (rest : list ascii) :
  CacheHeader_wf h → CacheHeader.of_bytes (CacheHeader.to_bytes h ++ rest) = h.
Proof.
  intros (Hv & Hc & Ht). destruct h as [v c t]. simpl in Hv, Hc, Ht.
  unfold CacheHeader.of_bytes, CacheHeader.to_bytes.
  cbn [CacheHeader.version CacheHeader.entryCount CacheHeader.lastSyncTimestamp].
  rewrite <- ?app_assoc.
  rewrite (take_app_length' (le_encode 4 v)) by (by rewrite length_le_encode).
  rewrite (drop_app_add' (le_encode 4 v) _ 4 4) by (by rewrite length_le_encode).
  rewrite (drop_app_length' (le_encode 4 v)) by (by rewrite length_le_encode).
  rewrite (take_app_length' (le_encode 4 c)) by (by rewrite length_le_encode).
  rewrite (drop_app_length' (le_encode 4 c)) by (by rewrite length_le_encode).
  rewrite (take_app_length' (le_encode 8 t)) by (by rewrite length_le_encode).
  by rewrite !le_decode_encode_small.
Qed.

Lemma read_header_saved (h : CacheHeader.t) (rest : list ascii) :
  CacheHeader_wf h → read_header (CacheHeader.to_bytes h ++ rest) = h.
Proof.
  intros Hwf. unfold read_header, read_into, CacheHeader.sizeof.
  rewrite take_app_length' by (by rewrite CacheHeader_to_bytes_length).
  rewrite drop_ge by (by rewrite !CacheHeader_to_bytes_length).
  rewrite <- (CacheHeader_of_to_bytes h []) at 2 by done. done.
Qed.

Lemma CacheEntry_to_bytes_length (e : CacheEntry.t) :
  CacheEntry.wf e → length (CacheEntry.to_bytes e) = 360%nat.
Proof.
  intros (Hf & _ & Hr & Hu). unfold CacheEntry.to_bytes.
  by rewrite !length_app, length_le_encode, Hf, Hr, Hu.
Qed.

Lemma CacheEntry_of_to_bytes (e : CacheEntry.t) :
  CacheEntry.wf e → CacheEntry.of_bytes (CacheEntry.to_bytes e) = e.
Proof.
  intros (Hf & Ht & Hr & Hu). destruct e as [f t r u]. simpl in Hf, Ht, Hr, Hu.
  unfold CacheEntry.of_bytes, CacheEntry.to_bytes.
  cbn [CacheEntry.filename CacheEntry.submitTimestamp CacheEntry.firsReference
       CacheEntry.submittedBy].
  rewrite (take_app_length' f) by done.
  rewrite (drop_app_add' f _ 256 40) by done.
  rewrite (drop_app_add' f _ 256 8) by done.
  rewrite (drop_app_length' f) by done.
  rewrite (take_app_length' (le_encode 8 t)) by (by rewrite length_le_encode).
  rewrite (drop_app_add' (le_encode 8 t) _ 8 32) by (by rewrite length_le_encode).
  rewrite (drop_app_length' (le_encode 8 t)) by (by rewrite length_le_encode).
  rewrite (take_app_length' r) by done.
  rewrite (drop_app_length' r) by done.
  rewrite take_ge by lia.
  by rewrite le_decode_encode_small.
Qed.

Lemma entries_to_bytes_cons e l :
  entries_to_bytes (e :: l) = CacheEntry.to_bytes e ++ entries_to_bytes l.
Proof. reflexivity. Qed.

Lemma entries_to_bytes_length (l : list CacheEntry.t) :
  Forall CacheEntry.wf l →
  length (entries_to_bytes l) = (length l * 360)%nat.
Proof.
  induction 1 as [|e l He Hl IH]; [done|].
  rewrite entries_to_bytes_cons, length_app, IH, CacheEntry_to_bytes_length by done.
  simpl. lia.
Qed.

Lemma entries_of_to_bytes (l : list CacheEntry.t) (rest : list ascii) :
  Forall CacheEntry.wf l →
  entries_of_bytes (length l) (entries_to_bytes l ++ rest) = l.
Proof.
  induction 1 as [|e l He Hl IH]; [done|].
  rewrite entries_to_bytes_cons, <- app_assoc. cbn [length entries_of_bytes].
  unfold CacheEntry.sizeof.
  rewrite take_app_length' by (by rewrite CacheEntry_to_bytes_length).
  rewrite drop_app_length' by (by rewrite CacheEntry_to_bytes_length).
  by rewrite CacheEntry_of_to_bytes, IH.
Qed.

Lemma take_entries_to_bytes (n : nat) (l : list CacheEntry.t) :
  Forall CacheEntry.wf l →
  take (n * 360) (entries_to_bytes l) = entries_to_bytes (take n l).
Proof.
  intros Hwf. revert n. induction Hwf as [|e l He Hl IH]; intros n.
  - rewrite take_nil. change (entries_to_bytes []) with (@nil ascii).
    by rewrite take_nil.
  - destruct n as [|n]; [done|].
    rewrite entries_to_bytes_cons. cbn [take]. rewrite entries_to_bytes_cons.
    replace (S n * 360)%nat with (length (CacheEntry.to_bytes e) + n * 360)%nat
      by (rewrite CacheEntry_to_bytes_length by done; lia).
    by rewrite take_app_add, IH.
Qed.

(** ** [Save], then [Load] *)

(** What [Load] finds in a file [Save] wrote: as many records as the 32-bit
    count of the header says, from the front. *)
Lemma Load_after_Save (c c0 : DuplicateCache.t) (fs : FileSystem.t) (now : Z) :
  Forall CacheEntry.wf (m_entries c) →
  m_cachePath c ≠ [] →
  FileSystem.writable fs (m_cachePath c) = true →
  let kept :=
    take (Z.to_nat (Z.of_nat (length (m_entries c)) mod 2 ^ 32)) (m_entries c) in
  ∃ fs',
    Save c fs now = (true, fs')
    ∧ FileSystem.read fs' (m_cachePath c)
      = Some (CacheHeader.to_bytes
                (CacheHeader.mk 1 (Z.of_nat (length (m_entries c)) mod 2 ^ 32)
                   (now mod 2 ^ 64))
              ++ entries_to_bytes (m_entries c))
    ∧ Load c0 fs' (m_cachePath c)
      = (true, mk (m_cachePath c) kept (list_to_set (stored_filename <$> kept))).
Proof.
  intros Hwf Hpath Hw kept. unfold Save, FileSystem.write.
  case_decide; [done|]. rewrite Hw. eexists. split; [done|].
  assert (Hread : ∀ d, FileSystem.read
            (FileSystem.mk (<[m_cachePath c := d]> (FileSystem.files fs))
               (FileSystem.writable fs)) (m_cachePath c) = Some d).
  { intros d. unfold FileSystem.read. simpl. apply lookup_insert_eq. }
  split; [apply Hread|].
  unfold Load. rewrite Hread.
  set (count := Z.of_nat (length (m_entries c)) mod 2 ^ 32) in *.
  assert (Hcount : 0 ≤ count < 2 ^ 32) by (apply Z.mod_pos_bound; done).
  assert (Hle : (Z.to_nat count ≤ length (m_entries c))%nat).
  { pose proof (Z.mod_le (Z.of_nat (length (m_entries c))) (2 ^ 32)) as Hm.
    unfold count. lia. }
  rewrite read_header_saved.
  2:{ pose proof (Z.mod_pos_bound now (2 ^ 64) eq_refl).
      unfold CacheHeader_wf. simpl. lia. }
  simpl CacheHeader.version. simpl CacheHeader.entryCount.
  case_decide; [done|].
  rewrite drop_app_length' by (by rewrite CacheHeader_to_bytes_length).
  unfold read_into, CacheEntry.sizeof.
  rewrite take_entries_to_bytes by done.
  fold kept.
  assert (Hk : length kept = Z.to_nat count) by (unfold kept; rewrite length_take; lia).
  assert (Hkwf : Forall CacheEntry.wf kept) by (by apply Forall_take).
  rewrite <- Hk, !entries_of_to_bytes by done.
  by rewrite build_index_spec.
Qed.

(** C3, amended. For fewer than 2^32 records (each laid out as the packed
    struct is), [Save] to a path that can be written followed by [Load] of
    that path, into any cache object, gives back the same records in the
    same order and the index made of exactly their file names. *)
Theorem Save_Load_roundtrip (c c0 : DuplicateCache.t) (fs : FileSystem.t)
    (now : Z) :
  Forall CacheEntry.wf (m_entries c) →
  Z.of_nat (length (m_entries c)) < 2 ^ 32 →
  m_cachePath c ≠ [] →
  FileSystem.writable fs (m_cachePath c) = true →
  ∃ fs',
    Save c fs now = (true, fs')
    ∧ Load c0 fs' (m_cachePath c)
      = (true,
         mk (m_cachePath c) (m_entries c)
            (list_to_set (stored_filename <$> m_entries c))).
Proof.
  intros Hwf Hlen Hpath Hw.
  destruct (Load_after_Save c c0 fs now Hwf Hpath Hw) as (fs' & HS & _ & HL).
  exists fs'. split; [done|]. rewrite HL.
  rewrite Z.mod_small, Nat2Z.id, firstn_all by lia. done.
Qed.

Lemma Save_Load_roundtrip_witness :
  ∃ fs',
    Save sample_cache sample_fs 1700000200 = (true, fs')
    ∧ Load DuplicateCache.new fs' (m_cachePath sample_cache)
      = (true,
         mk (m_cachePath sample_cache) (m_entries sample_cache)
            (list_to_set (stored_filename <$> m_entries sample_cache))).
Proof.
  apply (Save_Load_roundtrip sample_cache DuplicateCache.new sample_fs 1700000200).
  - compute_done.
  - vm_compute. reflexivity.
  - compute_done.
  - reflexivity.
Defined.

(** *** A cache of 2^32 records

    Nothing below evaluates the list of records: its length is only ever
    rewritten. *)

Lemma overfull_wf : Forall CacheEntry.wf (m_entries overfull_cache).
Proof. apply Forall_replicate. compute_done. Qed.

Lemma overfull_length :
  Z.of_nat (length (m_entries overfull_cache)) = 2 ^ 32.
Proof.
  change (m_entries overfull_cache)
    with (replicate (N.to_nat 4294967296) CacheEntry.zero).
  rewrite length_replicate, N_nat_Z. reflexivity.
Qed.

Lemma overfull_count :
  Z.of_nat (length (m_entries overfull_cache)) mod 2 ^ 32 = 0.
Proof. rewrite overfull_length. reflexivity. Qed.

Lemma overfull_nonempty : m_entries overfull_cache ≠ [].
Proof.
  change (m_entries overfull_cache)
    with (replicate (N.to_nat 4294967296) CacheEntry.zero).
  intros Heq. apply (f_equal length) in Heq. rewrite length_replicate in Heq.
  apply (f_equal N.of_nat) in Heq.
  rewrite N2Nat.id in Heq. discriminate Heq.
Qed.

Lemma overfull_path : m_cachePath overfull_cache ≠ [].
Proof. 
  change (m_cachePath overfull_cache) with (wstr "submitted-invoices.cache").
  compute_done.
Qed.

(** A count that is a multiple of 2^32 is written as 0. *)
Lemma Load_after_Save_wrapped (c : DuplicateCache.t) fs now :
  Forall CacheEntry.wf (m_entries c) →
  m_cachePath c ≠ [] →
  FileSystem.writable fs (m_cachePath c) = true →
  Z.of_nat (length (m_entries c)) mod 2 ^ 32 = 0 →
  ∃ fs',
    Save c fs now = (true, fs')
    ∧ m_entries (Load DuplicateCache.new fs' (m_cachePath c)).2 = [].
Proof.
  intros Hwf Hp Hw H0.
  destruct (Load_after_Save c DuplicateCache.new fs now Hwf Hp Hw)
    as (fs' & HS & _ & HL).
  exists fs'. split; [done|]. rewrite HL, H0. reflexivity.
Qed.

(** C3 as stated fails on the code: a store of 2^32 records is saved with
    count 0 in the header, and loading the written file yields no record. *)
Lemma Save_Load_roundtrip_counterexample :
  Z.of_nat (length (m_entries overfull_cache)) = 2 ^ 32
  ∧ ∃ fs',
      Save overfull_cache sample_fs 1700000200 = (true, fs')
      ∧ m_entries
          (Load DuplicateCache.new fs' (m_cachePath overfull_cache)).2
        = []
      ∧ m_entries overfull_cache ≠ [].
Proof.
  split; [exact overfull_length|].
  destruct (Load_after_Save_wrapped overfull_cache sample_fs 1700000200
              overfull_wf overfull_path eq_refl overfull_count)
    as (fs' & HS & HL).
  exists fs'. split_and!; [exact HS | exact HL | exact overfull_nonempty].
Qed.

(** On the freshly constructed cache, the way [Initialize] calls it,
    [Load] of a missing file or of another version leaves no records and an
    empty index: there were none. An [AddEntry] and a [Save] after that
    leave a version-1 file with that one record. *)
Lemma Load_fresh_fail_open (fs : FileSystem.t) (path : wstring) :
  (FileSystem.read fs path = None
   ∨ ∃ data, FileSystem.read fs path = Some data
             ∧ CacheHeader.version (read_header data) ≠ 1) →
  Load DuplicateCache.new fs path = (true, mk path [] ∅)
  ∧ ∀ f r u now nowSave now',
      path ≠ [] → FileSystem.writable fs path = true →
      let s :=
        AddEntry (Load DuplicateCache.new fs path).2 fs f r u now nowSave in
      let entry := make_entry f r u now in
      ∃ fs',
        Save s.1 s.2 now' = (true, fs')
        ∧ FileSystem.read fs' path
          = Some (CacheHeader.to_bytes (CacheHeader.mk 1 1 (now' mod 2 ^ 64))
                  ++ CacheEntry.to_bytes entry)
        ∧ Load DuplicateCache.new fs' path
          = (true, mk path [entry] {[stored_filename entry]}).
Proof.
  intros Hfile.
  assert (HL : Load DuplicateCache.new fs path = (true, mk path [] ∅)).
  { unfold Load. destruct Hfile as [-> | (data & -> & Hv)]; [done|].
    by case_decide. }
  split; [exact HL|].
  intros f r u now nowSave now' Hpath Hw. rewrite HL. intros s entry.
  assert (Hs1 : s.1 = mk path [entry] ({[f]} ∪ ∅)) by reflexivity.
  assert (Hw' : FileSystem.writable s.2 path = true).
  { unfold s, AddEntry, Save, FileSystem.write. simpl.
    case_decide; [done|]. by rewrite Hw. }
  destruct (Load_after_Save s.1 DuplicateCache.new s.2 now')
    as (fs' & HS & HR & HL').
  - rewrite Hs1. simpl. apply Forall_singleton, make_entry_wf.
  - by rewrite Hs1.
  - by rewrite Hs1.
  - exists fs'. rewrite Hs1 in HR, HL'. simpl in HR, HL'.
    split; [exact HS|]. split.
    + rewrite HR. unfold entries_to_bytes. simpl. by rewrite app_nil_r.
    + rewrite HL'. f_equal. f_equal. set_solver.
Qed.

(** On a cache that already holds records, a missing or unknown file leaves
    them alone. *)
Lemma Load_fail_open_keeps (c : DuplicateCache.t) (fs : FileSystem.t)
    (path : wstring) :
  (FileSystem.read fs path = None
   ∨ ∃ data, FileSystem.read fs path = Some data
             ∧ CacheHeader.version (read_header data) ≠ 1) →
  Load c fs path = (true, mk path (m_entries c) (m_filenameIndex c)).
Proof.
  intros Hfile. unfold Load.
  destruct Hfile as [-> | (data & -> & Hv)]; [done|]. by case_decide.
Qed.

(** C6, on the code. With a missing file, or a header that does not say
    version 1, [Load] returns [true] before it has touched the records and
    the index: it does not start fresh. The cache that holds the two
    submissions a.pdf and b.pdf, loaded from a disk without the cache file
    or from a file of version 2, still holds both records, still has a.pdf
    in its index, and [Check] still answers [AlreadySubmitted] for a.pdf
    with the old reference: the store is not empty. *)
Theorem Load_does_not_start_fresh :
  let path := wstr "C:\cache\submitted-invoices.cache" in
  let missing := Load sample_cache sample_fs path in
  let unknown := Load sample_cache unknown_version_fs path in
  FileSystem.read sample_fs path = None
  ∧ CacheHeader.version
      (read_header
         (default [] (FileSystem.read unknown_version_fs path))) = 2
  ∧ missing.1 = true ∧ unknown.1 = true
  ∧ unknown.2 = missing.2
  ∧ stored_filename <$> m_entries missing.2 = [str "a.pdf"; str "b.pdf"]
  ∧ m_filenameIndex missing.2 ≠ ∅
  ∧ Check missing.2 (str "a.pdf")
    = DuplicateCheckResult.mk DuplicateStatus.AlreadySubmitted (str "FIRS-1")
        (str "bob") 1700000000.
Proof.
  intros path missing unknown. subst missing unknown.
  rewrite (Load_fail_open_keeps sample_cache sample_fs path) by (by left).
  rewrite (Load_fail_open_keeps sample_cache unknown_version_fs path).
  2:{ right. eexists. split; [reflexivity|]. vm_compute. discriminate. }
  cbn [fst snd m_entries m_filenameIndex].
  split_and!; [reflexivity | vm_compute; reflexivity | reflexivity
              | reflexivity | reflexivity | | |].
  - vm_compute. reflexivity.
  - cut (str "a.pdf" ∈ m_filenameIndex sample_cache); [set_solver|].
    unfold sample_cache. simpl. set_solver.
  - unfold Check. rewrite decide_True.
    + vm_compute. reflexivity.
    + cbn [m_filenameIndex]. unfold sample_cache. simpl. set_solver.
Qed.

End DuplicateCacheProofs.

Section InvoiceRouterProofs.
Import InvoiceRouter.

(** ** Tier 2 *)

(** The loop is a filter, a sum and a first element. *)
Lemma score_loop_spec (ms : list Marker.t) (upper : list ascii)
    (score : float) (bestMatch : list ascii) :
  Forall (λ m, Marker.text m ≠ []) ms →
  score_loop ms upper score bestMatch
  = (foldl (λ s m, (s + Marker.weight m)%float) score
       (List.filter (found upper) ms),
     if decide (bestMatch = []) then
       default [] (Marker.text <$> head (List.filter (found upper) ms))
     else bestMatch).
Proof.
  intros Hne. revert score bestMatch.
  induction Hne as [|m ms Hm Hms IH]; intros score bestMatch.
  - simpl. case_decide; by subst.
  - cbn [score_loop List.filter]. destruct (found upper m).
    + rewrite IH. cbn [foldl]. f_equal.
      destruct (decide (bestMatch = [])) as [->|Hb].
      * by case_decide.
      * by case_decide.
    + apply IH.
Qed.

Lemma markers_nonempty : Forall (λ m, Marker.text m ≠ []) markers.
Proof. repeat constructor; discriminate. Qed.

Lemma score_text_spec (text : list ascii) :
  score_text text
  = tier2_spec (List.filter (found (toupper <$> text)) markers).
Proof.
  unfold score_text, tier2_spec.
  rewrite (score_loop_spec markers _ _ _ markers_nonempty).
  by case_decide.
Qed.

Lemma filter_found_ext (upper : list ascii) (P : Marker.t → bool) :
  (∀ m, m ∈ markers → found upper m = P m) →
  List.filter (found upper) markers = List.filter P markers.
Proof.
  intros H. apply List.filter_ext_in. intros m Hm. apply H.
  by apply list_elem_of_In.
Qed.

Lemma AnalyzeContent_text (r : InvoiceRouter.t) (path : wstring) (w : World.t) :
  let text := (ExtractFirstPageText path 500 w).1 in
  text ≠ [] → (AnalyzeContent r path w).1 = score_text text.
Proof.
  intros text Hne. unfold AnalyzeContent, mbind, M_bind. subst text.
  destruct (ExtractFirstPageText path 500 w) as [text w'].
  simpl in *. by case_decide.
Qed.

(** What [std::string::find] finds is an occurrence, and it misses none. *)
Lemma starts_with_prefix (needle hay : list ascii) :
  starts_with needle hay = true ↔ ∃ post, hay = needle ++ post.
Proof.
  revert hay. induction needle as [|a n IH]; intros hay; simpl.
  - split; [by exists hay|done].
  - destruct hay as [|b hay].
    + split; [done|]. intros (post & [=]).
    + case_decide as Hab.
      * subst b. rewrite IH. split; intros (post & H); exists post.
        -- by rewrite H.
        -- by injection H.
      * split; [done|]. intros (post & H). by injection H as E _.
Qed.

Lemma find0_occurs (needle hay : list ascii) :
  is_Some (find0 needle hay) ↔ occurs needle hay.
Proof.
  unfold occurs. induction hay as [|b hay IH].
  - cbn [find0]. destruct (starts_with needle []) eqn:Hs.
    + split; [|by eexists]. intros _.
      apply starts_with_prefix in Hs as (post & H). by exists [], post.
    + split; [by intros [? [=]]|]. intros (pre & post & H). exfalso.
      symmetry in H. apply app_eq_nil in H as [_ H].
      apply app_eq_nil in H as [-> _]. discriminate.
  - cbn [find0]. destruct (starts_with needle (b :: hay)) eqn:Hs.
    + split; [|by eexists]. intros _.
      apply starts_with_prefix in Hs as (post & H). by exists [], post.
    + rewrite fmap_is_Some, IH. split.
      * intros (pre & post & ->). by exists (b :: pre), post.
      * intros (pre & post & H). destruct pre as [|p pre].
        -- exfalso. assert (starts_with needle (b :: hay) = true) as Hyes
             by (apply starts_with_prefix; by exists post).
           congruence.
        -- injection H as _ ->. by exists pre, post.
Qed.

Lemma found_occurs (upper : list ascii) (m : Marker.t) :
  found upper m = true ↔ occurs (Marker.text m) upper.
Proof.
  unfold found, find. rewrite bool_decide_eq_true.
  rewrite decide_True by lia. rewrite drop_0, fmap_is_Some.
  apply find0_occurs.
Qed.

Lemma occurs_iff_decide (upper : list ascii) (P : Marker.t → Prop)
    `{!∀ m, Decision (P m)} :
  Forall (λ m, found upper m = bool_decide (P m)) markers →
  ∀ m, m ∈ markers → occurs (Marker.text m) upper ↔ P m.
Proof.
  intros Hall m Hm. rewrite Forall_forall in Hall.
  rewrite <- found_occurs, (Hall m Hm). apply bool_decide_eq_true.
Qed.

Lemma toupper_upper_case (c : ascii) : toupper c = upper_case c.
Proof. by destruct c as [[] [] [] [] [] [] [] []]; vm_compute. Qed.

(** C4. For a non-empty excerpt, tier 2 is what the design document
    describes: the excerpt is put in upper case, small letters replaced by
    their capitals; a marker is present when its text occurs in that as a
    run of consecutive characters; the weights of the markers present are
    added up in table order and the sum clamped to 1.0; from 0.30 upwards
    the result is [Invoice] with that score and the first marker present as
    diagnostic, below it [NotInvoice] with 1 minus the score. When exactly
    INVOICE and BILL TO occur the result is [Invoice] with confidence 0.45;
    when no marker occurs it is [NotInvoice] with confidence 1.0. *)
Theorem AnalyzeContent_scoring (r : InvoiceRouter.t) (path : wstring)
    (w : World.t) :
  let text := (ExtractFirstPageText path 500 w).1 in
  let upper := upper_case <$> text in
  text ≠ [] →
  (∃ present : Marker.t → bool,
     (∀ m, present m = true ↔ occurs (Marker.text m) upper)
     ∧ (AnalyzeContent r path w).1
       = tier2_spec (List.filter present markers))
  ∧ ((∀ m, m ∈ markers →
        occurs (Marker.text m) upper
        ↔ Marker.text m = str "INVOICE" ∨ Marker.text m = str "BILL TO") →
     (AnalyzeContent r path w).1
     = RouteResult.mk RouteDecision.Invoice (str "Content analysis: INVOICE")
         [] 0.45)
  ∧ ((∀ m, m ∈ markers → ¬ occurs (Marker.text m) upper) →
     (AnalyzeContent r path w).1
     = RouteResult.mk RouteDecision.NotInvoice [] [] 1).
Proof.
  intros text upper Hne.
  rewrite (AnalyzeContent_text r path w Hne), score_text_spec.
  fold text.
  assert (Hupper : toupper <$> text = upper).
  { apply list_fmap_ext. intros i c _. apply toupper_upper_case. }
  rewrite Hupper. split_and!.
  - exists (found upper). split; [|done]. intros m. apply found_occurs.
  - intros H.
    rewrite (filter_found_ext upper
               (λ m, bool_decide (Marker.text m = str "INVOICE"
                                  ∨ Marker.text m = str "BILL TO"))).
    + vm_compute. reflexivity.
    + intros m Hm. specialize (H m Hm). rewrite <- found_occurs in H.
      destruct (found upper m); symmetry.
      * apply bool_decide_eq_true. by apply H.
      * apply bool_decide_eq_false. intros HP. apply H in HP. discriminate.
  - intros H. rewrite (filter_found_ext upper (λ _, false)).
    + vm_compute. reflexivity.
    + intros m Hm. specialize (H m Hm). rewrite <- found_occurs in H.
      by destruct (found upper m).
Qed.

Lemma AnalyzeContent_scoring_witness :
  (AnalyzeContent InvoiceRouter.new (wstr "C:\scans\0042.pdf")
     (World.mk sample_pdf_fs [] 0)).1
  = RouteResult.mk RouteDecision.Invoice (str "Content analysis: INVOICE") []
      0.45.
Proof.
  apply (AnalyzeContent_scoring InvoiceRouter.new (wstr "C:\scans\0042.pdf")
           (World.mk sample_pdf_fs [] 0)).
  - vm_compute. discriminate.
  - apply (occurs_iff_decide _
             (λ m, Marker.text m = str "INVOICE" ∨ Marker.text m = str "BILL TO")).
    compute_done.
Defined.

(** ** Tier 1 *)

Lemma MatchFilename_loop_first (ps : list RoutingPattern.t) (f : list ascii)
    (i : nat) (p : RoutingPattern.t) :
  ps !! i = Some p → pattern_matches f p = true →
  (∀ j q, (j < i)%nat → ps !! j = Some q → pattern_matches f q = false) →
  MatchFilename_loop ps f = tier1_result p.
Proof.
  revert i. induction ps as [|q ps IH]; intros i Hi Hp Hbefore; [done|].
  destruct i as [|i]; simpl in Hi.
  - injection Hi as ->. simpl. unfold pattern_matches in Hp. by rewrite Hp.
  - simpl. pose proof (Hbefore 0%nat q ltac:(lia) eq_refl) as Hq.
    unfold pattern_matches in Hq. rewrite Hq.
    apply (IH i); [done..|]. intros j q' Hj Hq'.
    apply (Hbefore (S j)); [lia | done].
Qed.

Lemma MatchFilename_loop_none (ps : list RoutingPattern.t) (f : list ascii) :
  (∀ p, p ∈ ps → pattern_matches f p = false) →
  MatchFilename_loop ps f = RouteResult.mk RouteDecision.Unknown [] [] 0.
Proof.
  induction ps as [|q ps IH]; intros H; [done|]. simpl.
  pose proof (H q ltac:(apply elem_of_cons; by left)) as Hq.
  unfold pattern_matches in Hq. rewrite Hq. apply IH.
  intros p Hp. apply H, elem_of_cons. by right.
Qed.

(** Some pattern matches: then there is a first one. *)
Lemma first_match_exists (ps : list RoutingPattern.t) (f : list ascii) :
  (∃ p, p ∈ ps ∧ pattern_matches f p = true) →
  ∃ i p, ps !! i = Some p ∧ pattern_matches f p = true
         ∧ ∀ j q, (j < i)%nat → ps !! j = Some q → pattern_matches f q = false.
Proof.
  induction ps as [|q ps IH]; intros (p & Hin & Hp).
  - by apply elem_of_nil in Hin.
  - destruct (pattern_matches f q) eqn:Hq.
    + exists 0%nat, q. split_and!; [done..|]. intros; lia.
    + apply elem_of_cons in Hin as [->|Hin]; [congruence|].
      destruct IH as (i & p' & Hi & Hp' & Hb); [by exists p|].
      exists (S i), p'. split_and!; [done..|].
      intros [|j] q' Hj Hq'; simpl in Hq'; [congruence|].
      apply (Hb j); [lia | done].
Qed.

(** C5. When a pattern of the table matches the base file name, [Route]
    returns [Invoice] with confidence 0.95 and the description and name of
    the first matching pattern in table order, and the world is unchanged:
    the text extraction is not called. When no pattern matches, the
    extraction is called, once. *)
Theorem Route_tier1_short_circuit (r : InvoiceRouter.t) (path : wstring)
    (w : World.t) :
  let filename := ExtractFilename path in
  (∀ i p,
     m_patterns r !! i = Some p → pattern_matches filename p = true →
     (∀ j q, (j < i)%nat → m_patterns r !! j = Some q →
             pattern_matches filename q = false) →
     Route r path w = (tier1_result p, w))
  ∧ ((∃ p, p ∈ m_patterns r ∧ pattern_matches filename p = true) →
     World.log (Route r path w).2 = World.log w
     ∧ RouteResult.decision (Route r path w).1 = RouteDecision.Invoice
     ∧ RouteResult.confidenceScore (Route r path w).1 = 0.95%float)
  ∧ ((∀ p, p ∈ m_patterns r → pattern_matches filename p = false) →
     World.log (Route r path w).2
     = World.log w ++ [CallExtractFirstPageText path 500]).
Proof.
  intros filename.
  assert (Hfirst : ∀ i p,
     m_patterns r !! i = Some p → pattern_matches filename p = true →
     (∀ j q, (j < i)%nat → m_patterns r !! j = Some q →
             pattern_matches filename q = false) →
     Route r path w = (tier1_result p, w)).
  { intros i p Hi Hp Hb. unfold Route, MatchFilename. fold filename.
    by rewrite (MatchFilename_loop_first _ _ i p Hi Hp Hb). }
  split_and!; [exact Hfirst | |].
  - intros Hsome.
    destruct (first_match_exists _ _ Hsome) as (i & p & Hi & Hp & Hb).
    by rewrite (Hfirst i p Hi Hp Hb).
  - intros Hnone. unfold Route, MatchFilename. fold filename.
    rewrite (MatchFilename_loop_none _ _ Hnone). simpl.
    unfold AnalyzeContent, ExtractFirstPageText, mbind, M_bind, emit, get_fs,
      mret, M_ret.
    simpl. destruct (FileSystem.read _ _) as [data|]; simpl.
    + destruct (extract_loop _ _ _ _) as [text run]. by case_decide.
    + done.
Qed.

Lemma Route_tier1_short_circuit_witness :
  ∃ p,
    m_patterns InvoiceRouter.new !! 0%nat = Some p
    ∧ RoutingPattern.name p = str "GTBank"
    ∧ Route InvoiceRouter.new (wstr "C:\docs\MTN_GT-Bank_invoice 3.pdf")
        (World.mk sample_pdf_fs [] 0)
      = (tier1_result p, World.mk sample_pdf_fs [] 0).
Proof.
  eexists. split; [reflexivity|]. split; [reflexivity|].
  apply (proj1 (Route_tier1_short_circuit InvoiceRouter.new
                  (wstr "C:\docs\MTN_GT-Bank_invoice 3.pdf")
                  (World.mk sample_pdf_fs [] 0)) 0%nat).
  - reflexivity.
  - vm_compute. reflexivity.
  - intros j q Hj. lia.
Defined.

(** The default table on a few file names. *)
Example default_patterns_examples :
  let hits f := pattern_matches (str f) <$> InitDefaultPatterns in
  hits "WN42752.pdf" = [false; false; false; true; false; false]
  ∧ hits "WN123.pdf" = [false; false; false; false; false; false]
  ∧ hits "gt bank march Inv.pdf" = [true; false; false; false; false; false]
  ∧ hits "MTN_GT-Bank_invoice 3.pdf" = [true; true; false; false; true; false]
  ∧ hits "airtel-statement.pdf" = [false; false; true; false; false; false]
  ∧ hits "tax_inv-7.pdf" = [false; false; false; false; true; false]
  ∧ hits "vat return.pdf" = [false; false; false; false; false; true]
  ∧ hits "holiday.pdf" = [false; false; false; false; false; false].
Proof. vm_compute. repeat split. Qed.

(** No marker, one marker below the threshold, two markers that reach it. *)
Example score_text_examples :
  score_text (str "minutes of the meeting")
  = RouteResult.mk RouteDecision.NotInvoice [] [] 1
  ∧ score_text (str "Ship to: 4 Marina Road")
    = RouteResult.mk RouteDecision.NotInvoice [] [] 0.85
  ∧ score_text (str "Ship to: 4 Marina Road. Due date: 1 May")
    = RouteResult.mk RouteDecision.Invoice (str "Content analysis: SHIP TO")
        [] 0.3.
Proof. vm_compute. repeat split. Qed.

End InvoiceRouterProofs.

(** ** Substring search *)

Lemma find0_single_first (c : ascii) (pre rest : list ascii) :
  c ∉ pre → find0 [c] (pre ++ c :: rest) = Some (length pre).
Proof.
  induction pre as [|a pre IH]; simpl.
  - intros _. by rewrite decide_True.
  - rewrite not_elem_of_cons. intros [Hne Hpre].
    rewrite decide_False by done. by rewrite IH.
Qed.

Lemma find_single_from (c : ascii) (before mid rest : list ascii) (pos : nat) :
  pos = length before → c ∉ mid →
  find (before ++ mid ++ c :: rest) [c] pos = Some (pos + length mid)%nat.
Proof.
  intros -> Hmid. unfold find. rewrite decide_True by (rewrite length_app; lia).
  rewrite drop_app_length. by rewrite find0_single_first.
Qed.


(** ** Searching past quoted tokens *)

Lemma starts_with_app (needle rest : list ascii) :
  starts_with needle (needle ++ rest) = true.
Proof. induction needle as [|a n IH]; simpl; [done|]. by rewrite decide_True. Qed.

Lemma find0_here (needle hay : list ascii) :
  starts_with needle hay = true → find0 needle hay = Some 0%nat.
Proof. intros H. destruct hay; simpl in *; by rewrite H. Qed.

Lemma find0_next (needle : list ascii) (a : ascii) (hay : list ascii) :
  starts_with needle (a :: hay) = false →
  find0 needle (a :: hay) = S <$> find0 needle hay.
Proof. intros H. cbn [find0]. by rewrite H. Qed.

Lemma find0_skip (c : ascii) (needle seg rest : list ascii) :
  c ∉ seg →
  find0 (c :: needle) (seg ++ rest)
  = (λ i, (length seg + i)%nat) <$> find0 (c :: needle) rest.
Proof.
  induction seg as [|a seg IH]; intros Hc.
  - simpl. by destruct (find0 _ _).
  - apply not_elem_of_cons in Hc as [Hne Hc].
    change ((a :: seg) ++ rest) with (a :: (seg ++ rest)).
    rewrite find0_next.
    2:{ cbn [starts_with]. rewrite decide_False; done. }
    rewrite IH by done. by destruct (find0 (c :: needle) rest).
Qed.

(** A quoted token that is not the key is no place for the quoted key. *)
Lemma starts_with_other_token (key tok rest : list ascii) :
  dquote ∉ key → dquote ∉ tok → tok ≠ key →
  starts_with (key ++ [dquote]) (tok ++ dquote :: rest) = false.
Proof.
  revert tok. induction key as [|k key IH]; intros tok Hk Ht Hne.
  - destruct tok as [|t tok]; [done|]. simpl.
    apply not_elem_of_cons in Ht as [Ht _]. by rewrite decide_False.
  - apply not_elem_of_cons in Hk as [Hk Hkey].
    destruct tok as [|t tok]; simpl.
    + by rewrite decide_False.
    + apply not_elem_of_cons in Ht as [Ht Htok].
      case_decide as Heq; [|done]. subst t.
      apply IH; [done..|]. congruence.
Qed.

Lemma dq_join_cons (t : list ascii) (ts : list (list ascii)) :
  dq_join (t :: ts) = dquote :: t ++ dq_join ts.
Proof. reflexivity. Qed.

Lemma dq_join_app (ts us : list (list ascii)) :
  dq_join (ts ++ us) = dq_join ts ++ dq_join us.
Proof. unfold dq_join. apply bind_app. Qed.

(** The quoted key is first found where the key is a token, when no token
    before it is the key. *)
Lemma find0_dq_join (key : list ascii) (before : list (list ascii))
    (t : list ascii) (after : list (list ascii)) :
  dquote ∉ key →
  Forall (λ tok, (dquote ∉ tok) ∧ tok ≠ key) before →
  find0 (dquote :: key ++ [dquote]) (dq_join (before ++ key :: t :: after))
  = Some (length (dq_join before)).
Proof.
  intros Hkey Hbefore. induction Hbefore as [|tok before [Htok Hne] _ IH].
  - simpl app. rewrite !dq_join_cons. apply find0_here.
    cbn [starts_with]. rewrite decide_True by done.
    replace (key ++ dquote :: t ++ dq_join after)
      with ((key ++ [dquote]) ++ t ++ dq_join after)
      by (by rewrite <- app_assoc).
    apply starts_with_app.
  - change ((tok :: before) ++ key :: t :: after)
      with (tok :: (before ++ key :: t :: after)).
    rewrite !dq_join_cons.
    rewrite find0_next.
    2:{ cbn [starts_with]. rewrite decide_True by done.
        destruct before as [|b before']; simpl app;
          by apply starts_with_other_token. }
    rewrite find0_skip by done. rewrite IH. simpl.
    rewrite length_app. done.
Qed.

(** ** RelayClient *)

Lemma BuildMultipartBody_read (env : Env.t) (path : wstring)
    (user pdf : list ascii) (w : World.t) :
  FileSystem.read (World.fs w) path = Some pdf →
  ∃ body,
    RelayClient.BuildMultipartBody env path user w
    = ((body, str "----HeliumBoundary" ++ Env.random_hex env), w)
    ∧ body ≠ [].
Proof.
  intros Hread. unfold RelayClient.BuildMultipartBody, mbind, M_bind, get_fs.
  rewrite Hread. eexists. split; [reflexivity|]. discriminate.
Qed.















(** ** The log only grows *)

Create HintDb grows discriminated.

Lemma grows_mret {A} (a : A) : grows (mret a).
Proof. intros w. exists []. by rewrite app_nil_r. Qed.

Lemma grows_bind {A B} (m : M A) (k : A → M B) :
  grows m → (∀ a, grows (k a)) → grows (m ≫= k).
Proof.
  intros Hm Hk w. unfold mbind, M_bind.
  destruct (Hm w) as [e1 H1]. destruct (m w) as [a w1].
  destruct (Hk a w1) as [e2 H2]. exists (e1 ++ e2).
  simpl in *. by rewrite H2, H1, app_assoc.
Qed.

Lemma grows_emit (e : Event) : grows (emit e).
Proof. intros w. by exists [e]. Qed.

Lemma grows_get_fs : grows get_fs.
Proof. intros w. exists []. by rewrite app_nil_r. Qed.

Lemma grows_time (clock : nat → Z) : grows (time clock).
Proof. intros w. exists []. by rewrite app_nil_r. Qed.

#[global] Hint Resolve grows_mret grows_emit grows_get_fs grows_time : grows.

Ltac grows_step :=
  first
    [ apply grows_bind; [|intros ?]
    | progress eauto with grows
    | match goal with
      | |- grows (match ?x with _ => _ end) => destruct x
      | |- grows (let '(_, _) := ?x in _) => destruct x
      end ].

Lemma grows_SetState c state label tooltip :
  grows (HeliumController.SetState c state label tooltip).
Proof. unfold HeliumController.SetState. repeat grows_step. Qed.

Lemma grows_cache_Save env cache : grows (HeliumController.cache_Save env cache).
Proof.
  intros w. exists []. unfold HeliumController.cache_Save.
  destruct (DuplicateCache.Save _ _ _) as [[] fs']; simpl; by rewrite app_nil_r.
Qed.

#[global] Hint Resolve grows_SetState grows_cache_Save : grows.

Lemma grows_cache_AddEntry env c f r u :
  grows (HeliumController.cache_AddEntry env c f r u).
Proof. unfold HeliumController.cache_AddEntry. repeat grows_step. Qed.

Lemma grows_SubmitInvoice env r path user token :
  grows (RelayClient.SubmitInvoice env r path user token).
Proof.
  unfold RelayClient.SubmitInvoice, RelayClient.BuildMultipartBody,
    RelayClient.SendRequest.
  repeat grows_step.
Qed.

#[global] Hint Resolve grows_cache_AddEntry grows_SubmitInvoice : grows.

Lemma events_of_app {A} (m : M A) (w : World.t) (events : list Event) :
  World.log (m w).2 = World.log w ++ events → events_of m w = events.
Proof. intros H. unfold events_of. by rewrite H, drop_app_length. Qed.

(** ** The session store is only read *)

Lemma SessionToken_Load_log (env : Env.t) (w : World.t) :
  World.log (SessionToken.Load env w).2 = World.log w.
Proof.
  unfold SessionToken.Load, SessionToken.IsExpired, mbind, M_bind, get_fs,
    mret, M_ret, time.
  repeat (case_decide; [done|]). simpl.
  destruct (FileSystem.read _ _); [|done].
  repeat (case_decide; [done|]).
  destruct (Env.parse_expiry _ _); simpl; [|done].
  by case_bool_decide.
Qed.

Lemma SetState_spec c state label tooltip w :
  let info := ButtonStateInfo.mk state label tooltip in
  HeliumController.m_buttonState
    (HeliumController.SetState c state label tooltip w).1 = info
  ∧ World.log (HeliumController.SetState c state label tooltip w).2
    = World.log w
      ++ (if HeliumController.m_onStateChange c then [Notify info] else []).
Proof.
  unfold HeliumController.SetState.
  destruct (HeliumController.m_onStateChange c); simpl; [done|].
  by rewrite app_nil_r.
Qed.

(** ** The submission sequence *)

Lemma bind_run {A B} (m : M A) (k : A → M B) (w : World.t) :
  (m ≫= k) w = k (m w).1 (m w).2.
Proof. unfold mbind, M_bind. by destruct (m w). Qed.

Lemma OnSubmitClicked_unfold (env : Env.t) (c : HeliumController.t)
    (path : wstring) (w : World.t) :
  let loaded := SessionToken.Load env (log_event CallSessionLoad w) in
  let session := loaded.1 in
  let filename := ExtractFilename path in
  let dupCheck := DuplicateCache.Check (HeliumController.m_cache c) filename in
  HeliumController.OnSubmitClicked env c path w
  = if SessionInfo.valid session then
      if decide (DuplicateCheckResult.status dupCheck
                 = DuplicateStatus.AlreadySubmitted) then
        HeliumController.SetState c SubmitButtonState.AlreadySubmitted
          (str "Already Submitted")
          (str "Submitted by " ++ DuplicateCheckResult.submittedBy dupCheck
           ++ str " (Ref: " ++ DuplicateCheckResult.firsReference dupCheck
           ++ str ")")
          (log_event (CallCheck filename) loaded.2)
      else
        OnSubmitClicked_submit env c path session filename
          (log_event (CallCheck filename) loaded.2)
    else
      HeliumController.SetState c SubmitButtonState.NoSession
        (str "Sign In Required") (SessionInfo.error session) loaded.2.
Proof.
  intros loaded session filename dupCheck.
  unfold HeliumController.OnSubmitClicked, HeliumController.session_Load.
  rewrite !bind_run.
  change (emit CallSessionLoad w).2 with (log_event CallSessionLoad w).
  fold loaded. fold session.
  destruct (SessionInfo.valid session); [|done]. cbn [negb].
  rewrite bind_run. unfold HeliumController.cache_Check. rewrite !bind_run.
  change (emit ?e loaded.2).2 with (log_event e loaded.2).
  cbn [fst snd mret M_ret]. fold filename. fold dupCheck.
  by case_decide.
Qed.

Lemma session_Load_run (env : Env.t) (w : World.t) :
  HeliumController.session_Load env w
  = SessionToken.Load env (log_event CallSessionLoad w).
Proof. unfold HeliumController.session_Load. by rewrite bind_run. Qed.

Lemma grows_OnSubmitClicked_tail env c filename session result :
  grows
    (if SubmitResult.success result then
       c ← HeliumController.cache_AddEntry env c filename
             (SubmitResult.firsReference result) (SessionInfo.username session);
       c ← HeliumController.SetState c SubmitButtonState.Success
             (str "Submitted!")
             (str "FIRS Reference: " ++ SubmitResult.firsReference result);
       HeliumController.Sleep 3000;;
       HeliumController.SetState c SubmitButtonState.AlreadySubmitted
         (str "Already Submitted")
         (str "FIRS Reference: " ++ SubmitResult.firsReference result)
     else
       c ← HeliumController.SetState c SubmitButtonState.Error
             (str "Submit Failed") (SubmitResult.error result);
       HeliumController.Sleep 5000;;
       HeliumController.SetState c SubmitButtonState.Ready (str "Submit to FIRS")
         (str "Click to retry submission")).
Proof. unfold HeliumController.Sleep. repeat grows_step. Qed.

Lemma OnSubmitClicked_submit_log env c path session filename w :
  ∃ info rest,
    World.log (OnSubmitClicked_submit env c path session filename w).2
    = World.log w
      ++ (if HeliumController.m_onStateChange c then [Notify info] else [])
      ++ CallSubmitInvoice path (SessionInfo.username session)
           (SessionInfo.token session) :: rest.
Proof.
  unfold OnSubmitClicked_submit. rewrite bind_run.
  destruct (SetState_spec c SubmitButtonState.Submitting (str "Submitting...")
              (str "Sending to Helium Relay for FIRS processing") w)
    as [_ Hsub].
  destruct (HeliumController.SetState c _ _ _ w) as [c4 w4].
  cbn [fst snd] in *.
  rewrite bind_run. unfold HeliumController.relay_SubmitInvoice.
  rewrite !bind_run. change (emit ?e w4).2 with (log_event e w4).
  set (e := CallSubmitInvoice _ _ _).
  destruct (grows_SubmitInvoice env (HeliumController.m_relay c4) path
              (SessionInfo.username session) (SessionInfo.token session)
              (log_event e w4)) as [e1 He1].
  destruct (RelayClient.SubmitInvoice _ _ _ _ _ _) as [result w6].
  cbn [fst snd] in *.
  destruct (grows_OnSubmitClicked_tail env c4 filename session result w6)
    as [e2 He2].
  eexists _, (e1 ++ e2). rewrite He2, He1. cbn [log_event World.log].
  rewrite Hsub. rewrite <- !app_assoc. reflexivity.
Qed.

Lemma Save_false_fs (c : DuplicateCache.t) (fs fs' : FileSystem.t) (now : Z) :
  DuplicateCache.Save c fs now = (false, fs') → fs' = fs.
Proof.
  unfold DuplicateCache.Save. case_decide; [congruence|].
  destruct (FileSystem.write _ _ _); congruence.
Qed.

(** The controller's [AddEntry] is the cache's, with the next two readings
    of the clock. *)
Lemma cache_AddEntry_run (env : Env.t) (c : HeliumController.t)
    (f r u : list ascii) (w : World.t) :
  let out := HeliumController.cache_AddEntry env c f r u w in
  (HeliumController.m_cache out.1, World.fs out.2)
  = DuplicateCache.AddEntry (HeliumController.m_cache c) (World.fs w) f r u
      (Env.clock env (World.ticks w)) (Env.clock env (S (World.ticks w)))
  ∧ World.log out.2 = World.log w ++ [CallAddEntry f r u].
Proof.
  unfold HeliumController.cache_AddEntry, HeliumController.cache_Save,
    DuplicateCache.AddEntry.
  rewrite !bind_run. cbn [fst snd emit time mret M_ret World.fs World.ticks
                          World.log HeliumController.set_cache
                          HeliumController.m_cache].
  destruct (DuplicateCache.Save _ _ _) as [[] fs'] eqn:HS; [done|].
  apply Save_false_fs in HS. by subst.
Qed.

(** The three ways through [OnSubmitClicked], with what each leaves in the
    log. *)
Lemma OnSubmitClicked_cases (env : Env.t) (c : HeliumController.t)
    (path : wstring) (w : World.t) :
  let session := (HeliumController.session_Load env w).1 in
  let filename := ExtractFilename path in
  let dupCheck := DuplicateCache.Check (HeliumController.m_cache c) filename in
  let out := HeliumController.OnSubmitClicked env c path w in
  let events := events_of (HeliumController.OnSubmitClicked env c path) w in
  let notify info :=
    if HeliumController.m_onStateChange c then [Notify info] else [] in
  if SessionInfo.valid session then
    if decide (DuplicateCheckResult.status dupCheck
               = DuplicateStatus.AlreadySubmitted) then
      ∃ info,
        ButtonStateInfo.state info = SubmitButtonState.AlreadySubmitted
        ∧ HeliumController.m_buttonState out.1 = info
        ∧ events = CallSessionLoad :: CallCheck filename :: notify info
    else
      ∃ info rest,
        events
        = CallSessionLoad :: CallCheck filename :: notify info
          ++ CallSubmitInvoice path (SessionInfo.username session)
               (SessionInfo.token session) :: rest
  else
    ∃ info,
      ButtonStateInfo.state info = SubmitButtonState.NoSession
      ∧ HeliumController.m_buttonState out.1 = info
      ∧ events = CallSessionLoad :: notify info.
Proof.
  intros session filename dupCheck out events notify.
  subst out events session. rewrite session_Load_run.
  pose proof (OnSubmitClicked_unfold env c path w) as Hrun.
  cbv zeta in Hrun. fold filename dupCheck in Hrun.
  pose proof (SessionToken_Load_log env (log_event CallSessionLoad w)) as Hlog.
  cbn [log_event World.log] in Hlog.
  destruct (SessionInfo.valid _).
  - case_decide as Hdup.
    + eexists. split; [|split]; [|rewrite Hrun; apply SetState_spec|].
      * reflexivity.
      * apply events_of_app. rewrite Hrun, (proj2 (SetState_spec _ _ _ _ _)).
        cbn [log_event World.log]. rewrite Hlog. by rewrite <- !app_assoc.
    + destruct (OnSubmitClicked_submit_log env c path
                  (SessionToken.Load env (log_event CallSessionLoad w)).1
                  filename
                  (log_event (CallCheck filename)
                     (SessionToken.Load env (log_event CallSessionLoad w)).2))
        as (info & rest & Hsub).
      exists info, rest. apply events_of_app. rewrite Hrun, Hsub.
      cbn [log_event World.log]. rewrite Hlog. by rewrite <- !app_assoc.
  - eexists. split; [|split]; [|rewrite Hrun; apply SetState_spec|].
    * reflexivity.
    * apply events_of_app. rewrite Hrun, (proj2 (SetState_spec _ _ _ _ _)).
      rewrite Hlog. by rewrite <- !app_assoc.
Qed.

(** C8. In the sequence [OnSubmitClicked] runs: with an invalid session the
    button ends in [NoSession] and nothing is sent to the relay; with a
    valid session and a duplicate the button ends in [AlreadySubmitted] and
    nothing is sent to the relay; and whenever something is sent to the
    relay, the session was valid, the file was not a duplicate, and the
    session was loaded first, the duplicate check came second, and the
    call to the relay came after both. *)
Theorem OnSubmitClicked_guards (env : Env.t) (c : HeliumController.t)
    (path : wstring) (w : World.t) :
  let session := (HeliumController.session_Load env w).1 in
  let filename := ExtractFilename path in
  let dupCheck := DuplicateCache.Check (HeliumController.m_cache c) filename in
  let out := HeliumController.OnSubmitClicked env c path w in
  let events := events_of (HeliumController.OnSubmitClicked env c path) w in
  (SessionInfo.valid session = false →
   ButtonStateInfo.state (HeliumController.m_buttonState out.1)
   = SubmitButtonState.NoSession
   ∧ Forall (λ e, is_transport e = false) events)
  ∧ (SessionInfo.valid session = true →
     DuplicateCheckResult.status dupCheck = DuplicateStatus.AlreadySubmitted →
     ButtonStateInfo.state (HeliumController.m_buttonState out.1)
     = SubmitButtonState.AlreadySubmitted
     ∧ Forall (λ e, is_transport e = false) events)
  ∧ (∀ k e, events !! k = Some e → is_transport e = true →
       SessionInfo.valid session = true
       ∧ DuplicateCheckResult.status dupCheck ≠ DuplicateStatus.AlreadySubmitted
       ∧ events !! 0%nat = Some CallSessionLoad
       ∧ events !! 1%nat = Some (CallCheck filename)
       ∧ (1 < k)%nat).
Proof.
  intros session filename dupCheck out events.
  pose proof (OnSubmitClicked_cases env c path w) as Hcases.
  cbv zeta in Hcases. fold session filename dupCheck out events in Hcases.
  assert (Hquiet : ∀ info,
    Forall (λ e, is_transport e = false)
      (if HeliumController.m_onStateChange c then [Notify info] else [])).
  { intros info. destruct (HeliumController.m_onStateChange c);
      repeat constructor. }
  destruct (SessionInfo.valid session).
  - case_decide as Hdup.
    + destruct Hcases as (info & Hstate & Hbutton & Hevents).
      split_and!; [done| |].
      * intros _ _. rewrite Hbutton, Hevents. split; [done|].
        repeat (constructor; [done|]). apply Hquiet.
      * intros k e Hk He. exfalso. rewrite Hevents in Hk.
        assert (Hall : Forall (λ e, is_transport e = false)
                  (CallSessionLoad :: CallCheck filename
                   :: (if HeliumController.m_onStateChange c
                       then [Notify info] else [])))
          by (repeat (constructor; [done|]); apply Hquiet).
        rewrite Forall_forall in Hall.
        apply list_elem_of_lookup_2, Hall in Hk. congruence.
    + destruct Hcases as (info & rest & Hevents).
      split_and!; [done|done|].
      intros k e Hk He. rewrite Hevents. split_and!; [done..|].
      rewrite Hevents in Hk.
      destruct k as [|[|k]]; simpl in Hk; [|by simplify_eq|lia].
      by simplify_eq.
  - destruct Hcases as (info & Hstate & Hbutton & Hevents).
    split_and!; [|done|].
    + intros _. rewrite Hbutton, Hevents. split; [done|].
      constructor; [done|]. apply Hquiet.
    + intros k e Hk He. exfalso. rewrite Hevents in Hk.
      assert (Hall : Forall (λ e, is_transport e = false)
                (CallSessionLoad
                 :: (if HeliumController.m_onStateChange c
                     then [Notify info] else [])))
        by (constructor; [done|]; apply Hquiet).
      rewrite Forall_forall in Hall.
      apply list_elem_of_lookup_2, Hall in Hk. congruence.
Qed.

Lemma OnSubmitClicked_guards_witness :
  let w := World.mk sample_pdf_fs [] 0 in
  let path := wstr "C:\scans\0042.pdf" in
  ButtonStateInfo.state
    (HeliumController.m_buttonState
       (HeliumController.OnSubmitClicked sample_env sample_controller path w).1)
  = SubmitButtonState.NoSession
  ∧ Forall (λ e, is_transport e = false)
      (events_of
         (HeliumController.OnSubmitClicked sample_env sample_controller path) w).
Proof.
  intros w path.
  apply (proj1 (OnSubmitClicked_guards sample_env sample_controller path w)).
  vm_compute. reflexivity.
Defined.

(** The scenario of the design document: a valid session, a file not yet
    submitted, a relay that accepts. *)
Example OnSubmitClicked_success_scenario :
  let w := World.mk signed_in_fs [] 0 in
  let path := wstr "C:\scans\0042.pdf" in
  let out := HeliumController.OnSubmitClicked sample_env sample_controller path w in
  HeliumController.m_buttonState out.1
  = ButtonStateInfo.mk SubmitButtonState.AlreadySubmitted
      (str "Already Submitted") (str "FIRS Reference: FIRS-2024-00847392")
  ∧ DuplicateCache.Check (HeliumController.m_cache out.1) (str "0042.pdf")
    = DuplicateCheckResult.mk DuplicateStatus.AlreadySubmitted
        (str "FIRS-2024-00847392") (str "bob@example.com") 1700000001
  ∧ is_transport <$> World.log out.2
    = [false; false; false; true; true; false; false; false; false]
  ∧ is_Some (FileSystem.read (World.fs out.2)
               (wstr "C:\ProgramData\Helium\cache\submitted-invoices.cache")).
Proof. vm_compute. split_and!; try reflexivity. by eexists. Qed.

(** * Further properties *)

Section DuplicateCacheMore.
Import DuplicateCache.

(** ** More on the duplicate cache *)

Lemma Check_status (c : DuplicateCache.t) (f : list ascii) :
  DuplicateCheckResult.status (Check c f) = DuplicateStatus.AlreadySubmitted
  ↔ f ∈ m_filenameIndex c.
Proof.
  unfold Check. case_decide as Hin.
  - split; [done|]. intros _. by destruct (scan _ _).
  - split; [discriminate | done].
Qed.

(** X1. [AddEntry] always marks the name as submitted, whatever its length,
    and never takes the mark off another name. *)
Theorem AddEntry_marks_submitted (c : DuplicateCache.t) (fs : FileSystem.t)
    (f r u : list ascii) (now nowSave : Z) :
  let c' := (AddEntry c fs f r u now nowSave).1 in
  DuplicateCheckResult.status (Check c' f) = DuplicateStatus.AlreadySubmitted
  ∧ ∀ g,
      DuplicateCheckResult.status (Check c g)
      = DuplicateStatus.AlreadySubmitted →
      DuplicateCheckResult.status (Check c' g)
      = DuplicateStatus.AlreadySubmitted.
Proof.
  intros c'. split.
  - apply Check_status. unfold c'. simpl. set_solver.
  - intros g Hg. apply Check_status. apply Check_status in Hg.
    unfold c'. simpl. set_solver.
Qed.

Lemma AddEntry_marks_submitted_witness :
  DuplicateCheckResult.status
    (Check (AddEntry sample_cache sample_fs long_name (str "FIRS-9")
              (str "bob") 1700000300 1700000301).1 (str "a.pdf"))
  = DuplicateStatus.AlreadySubmitted.
Proof.
  apply (AddEntry_marks_submitted sample_cache sample_fs long_name).
  vm_compute. reflexivity.
Defined.





Lemma AddEntry_fs (c : DuplicateCache.t) fs f r u now nowSave :
  (AddEntry c fs f r u now nowSave).2
  = (Save (AddEntry c fs f r u now nowSave).1 fs nowSave).2.
Proof. reflexivity. Qed.

(** What a restart finds after an [AddEntry]. *)
Lemma Load_after_AddEntry (c : DuplicateCache.t) (fs : FileSystem.t)
    (f r u : list ascii) (now nowSave : Z) :
  Forall CacheEntry.wf (m_entries c) →
  Z.of_nat (length (m_entries c)) + 1 < 2 ^ 32 →
  m_cachePath c ≠ [] →
  FileSystem.writable fs (m_cachePath c) = true →
  let entries := m_entries c ++ [make_entry f r u now] in
  Load DuplicateCache.new (AddEntry c fs f r u now nowSave).2 (m_cachePath c)
  = (true,
     mk (m_cachePath c) entries (list_to_set (stored_filename <$> entries))).
Proof.
  intros Hwf Hlen Hpath Hw entries. rewrite AddEntry_fs.
  set (c' := (AddEntry c fs f r u now nowSave).1).
  assert (Hwf' : Forall CacheEntry.wf (m_entries c')).
  { unfold c'. simpl. apply Forall_app. split; [done|].
    apply Forall_singleton, make_entry_wf. }
  assert (Hlen' : Z.of_nat (length (m_entries c')) < 2 ^ 32).
  { unfold c'. simpl. rewrite length_app. simpl. lia. }
  destruct (Load_after_Save c' DuplicateCache.new fs nowSave Hwf')
    as (fs' & HS & _ & HL); [done..|].
  rewrite HS. cbn [snd]. change (m_cachePath c) with (m_cachePath c').
  rewrite HL. rewrite Z.mod_small, Nat2Z.id, firstn_all by lia. done.
Qed.

(** X3. A submission survives a restart: after [AddEntry] on a cache with
    a writable path, loading the file into a fresh cache gives the old
    records followed by the new one, and [Check] of a name that needed no
    cutting answers with the reference and the user that were added. *)
Theorem AddEntry_survives_restart (c : DuplicateCache.t) (fs : FileSystem.t)
    (f r u : list ascii) (now nowSave : Z) :
  Forall CacheEntry.wf (m_entries c) →
  Z.of_nat (length (m_entries c)) + 1 < 2 ^ 32 →
  m_cachePath c ≠ [] →
  FileSystem.writable fs (m_cachePath c) = true →
  let restarted :=
    (Load DuplicateCache.new (AddEntry c fs f r u now nowSave).2
       (m_cachePath c)).2 in
  m_entries restarted = m_entries c ++ [make_entry f r u now]
  ∧ index_invariant restarted
  ∧ (fits 255 f → fits 31 r → fits 63 u →
     Forall (λ e, stored_filename e ≠ f) (m_entries c) →
     Check restarted f
     = DuplicateCheckResult.mk DuplicateStatus.AlreadySubmitted r u
         (now mod 2 ^ 64)).
Proof.
  intros Hwf Hlen Hpath Hw restarted.
  pose proof (Load_after_AddEntry c fs f r u now nowSave Hwf Hlen Hpath Hw)
    as HL.
  cbv zeta in HL. unfold restarted. rewrite HL. cbn [snd m_entries].
  split_and!; [done | done |].
  intros Hf Hr Hu Hno. unfold Check. cbn [m_filenameIndex m_entries].
  assert (Hst : stored_filename (make_entry f r u now) = f)
    by (by rewrite make_entry_filename, take_c_str_fits).
  rewrite decide_True.
  2:{ rewrite fmap_app, list_to_set_app_L. simpl. rewrite Hst. set_solver. }
  rewrite scan_app_miss by (by apply Forall_forall).
  simpl. rewrite decide_True by done.
  rewrite make_entry_firsReference, make_entry_submittedBy.
  by rewrite !take_c_str_fits.
Qed.

Lemma AddEntry_survives_restart_witness :
  Check
    (Load DuplicateCache.new
       (AddEntry sample_cache sample_fs (str "c.pdf") (str "FIRS-3")
          (str "eve") 1700000300 1700000301).2
       (m_cachePath sample_cache)).2
    (str "c.pdf")
  = DuplicateCheckResult.mk DuplicateStatus.AlreadySubmitted (str "FIRS-3")
      (str "eve") 1700000300.
Proof.
  apply (AddEntry_survives_restart sample_cache sample_fs (str "c.pdf")
           (str "FIRS-3") (str "eve") 1700000300 1700000301);
    compute_done.
Defined.

Lemma c_str_length_lt (s : list ascii) :
  NUL ∈ s → (length (c_str s) < length s)%nat.
Proof.
  induction s as [|a s IH]; simpl.
  - intros H. by apply elem_of_nil in H.
  - intros [Ha|H]%elem_of_cons.
    + subst a. rewrite decide_True by done. simpl. lia.
    + case_decide; simpl; [lia|]. apply IH in H. lia.
Qed.

Lemma stored_filename_short (e : CacheEntry.t) :
  CacheEntry.wf e → NUL ∈ CacheEntry.filename e →
  (length (stored_filename e) ≤ 255)%nat.
Proof.
  intros (Hf & _) Hnul. rewrite stored_filename_terminated by done.
  apply c_str_length_lt in Hnul. lia.
Qed.

Lemma AddEntry_file (c : DuplicateCache.t) (fs : FileSystem.t)
    (f r u : list ascii) (now nowSave : Z) :
  Forall CacheEntry.wf (m_entries c) →
  Z.of_nat (length (m_entries c)) + 1 < 2 ^ 32 →
  m_cachePath c ≠ [] →
  FileSystem.writable fs (m_cachePath c) = true →
  FileSystem.read (AddEntry c fs f r u now nowSave).2 (m_cachePath c)
  = Some (CacheHeader.to_bytes
            (CacheHeader.mk 1 (Z.of_nat (length (m_entries c)) + 1)
               (nowSave mod 2 ^ 64))
          ++ entries_to_bytes (m_entries c)
          ++ CacheEntry.to_bytes (make_entry f r u now)).
Proof.
  intros Hwf Hlen Hpath Hw. rewrite AddEntry_fs.
  set (c' := (AddEntry c fs f r u now nowSave).1).
  assert (Hwf' : Forall CacheEntry.wf (m_entries c')).
  { unfold c'. simpl. apply Forall_app. split; [done|].
    apply Forall_singleton, make_entry_wf. }
  destruct (Load_after_Save c' DuplicateCache.new fs nowSave Hwf')
    as (fs' & HS & HR & _); [done..|].
  rewrite HS. cbn [snd]. change (m_cachePath c) with (m_cachePath c').
  rewrite HR. unfold c'. cbn [AddEntry fst m_entries].
  rewrite length_app, Nat2Z.inj_add. cbn [length].
  rewrite Z.mod_small by lia. unfold entries_to_bytes.
  rewrite bind_app. cbn [mbind list_bind]. by rewrite app_nil_r.
Qed.

Lemma make_entry_filename_field (f r u : list ascii) (now : Z) :
  CacheEntry.filename (make_entry f r u now)
  = take 255 (c_str f)
    ++ replicate (256 - length (take 255 (c_str f))) NUL.
Proof.
  unfold make_entry, strncpy_s. cbn [CacheEntry.filename CacheEntry.zero].
  assert (Hs : (length (take 255 (c_str f)) ≤ 255)%nat)
    by (rewrite length_take; lia).
  rewrite length_replicate. rewrite decide_True by lia. f_equal.
  rewrite drop_replicate.
  replace (256 - length (take 255 (c_str f)))%nat
    with (S (256 - S (length (take 255 (c_str f)))))%nat by lia.
  reflexivity.
Qed.

(** X4. A name of more than 255 bytes is forgotten by a restart. On a cache
    whose records hold a NUL in their file-name field (as every record
    [AddEntry] writes does): right after [AddEntry] the name is reported as
    submitted; the file then ends with the new record, whose file-name
    field holds the name cut to 255 bytes and NUL bytes behind it; and when
    the machine grants storage for the records, [Load] of that file into a
    fresh cache returns true with the cut name as the last name, and
    [Check] of the whole name answers [NotSubmitted]. *)
Theorem long_name_forgotten_by_restart (can_allocate : nat → bool)
    (c : DuplicateCache.t) (fs : FileSystem.t) (f r u : list ascii)
    (now nowSave : Z) :
  Forall CacheEntry.wf (m_entries c) →
  Forall (λ e, NUL ∈ CacheEntry.filename e) (m_entries c) →
  Z.of_nat (length (m_entries c)) + 1 < 2 ^ 32 →
  m_cachePath c ≠ [] →
  FileSystem.writable fs (m_cachePath c) = true →
  can_allocate (S (length (m_entries c))) = true →
  (255 < length f)%nat →
  let s := AddEntry c fs f r u now nowSave in
  let entry := make_entry f r u now in
  DuplicateCheckResult.status (Check s.1 f) = DuplicateStatus.AlreadySubmitted
  ∧ FileSystem.read s.2 (m_cachePath c)
    = Some (CacheHeader.to_bytes
              (CacheHeader.mk 1 (Z.of_nat (length (m_entries c)) + 1)
                 (nowSave mod 2 ^ 64))
            ++ entries_to_bytes (m_entries c) ++ CacheEntry.to_bytes entry)
  ∧ CacheEntry.filename entry
    = take 255 (c_str f) ++ replicate (256 - length (take 255 (c_str f))) NUL
  ∧ ∃ restarted,
      Load_outcome can_allocate DuplicateCache.new s.2 (m_cachePath c)
      = Some (true, restarted)
      ∧ stored_filename <$> m_entries restarted
        = (stored_filename <$> m_entries c) ++ [take 255 (c_str f)]
      ∧ Check restarted f
        = DuplicateCheckResult.mk DuplicateStatus.NotSubmitted [] [] 0.
Proof.
  intros Hwf Hterm Hlen Hpath Hw Hgrant Hlong s entry.
  pose proof (Load_after_AddEntry c fs f r u now nowSave Hwf Hlen Hpath Hw)
    as HL.
  pose proof (AddEntry_file c fs f r u now nowSave Hwf Hlen Hpath Hw) as HF.
  cbv zeta in HL. fold s in HL, HF. fold entry in HL, HF.
  split_and!.
  - apply Check_status. simpl. set_solver.
  - exact HF.
  - apply make_entry_filename_field.
  - eexists. split_and!.
    + unfold Load_outcome, Load_throws, resize_throws. rewrite HF.
      rewrite read_header_saved.
      2:{ unfold CacheHeader_wf. cbn.
          pose proof (Z.mod_pos_bound nowSave (2 ^ 64)). lia. }
      cbn [CacheHeader.version CacheHeader.entryCount].
      rewrite decide_False by (intros H; by apply H).
      replace (Z.to_nat (Z.of_nat (length (m_entries c)) + 1))
        with (S (length (m_entries c))) by lia.
      rewrite Hgrant, andb_false_r. rewrite HL. reflexivity.
    + cbn [m_entries]. rewrite fmap_app. simpl. unfold entry.
      by rewrite make_entry_filename.
    + apply Check_absent. cbn [m_filenameIndex].
      rewrite elem_of_list_to_set, list_elem_of_fmap.
      intros (e & Hfe & He).
      assert (Hshort : (length (stored_filename e) ≤ 255)%nat).
      { apply elem_of_app in He as [He | He%list_elem_of_singleton].
        - rewrite Forall_forall in Hwf, Hterm.
          apply stored_filename_short; [by apply Hwf | by apply Hterm].
        - rewrite He. unfold entry.
          rewrite make_entry_filename, length_take. lia. }
      rewrite <- Hfe in Hshort. lia.
Qed.

Lemma long_name_forgotten_by_restart_witness :
  let s :=
    AddEntry sample_cache sample_fs long_name (str "FIRS-3") (str "eve")
      1700000300 1700000301 in
  ∃ restarted,
    Load_outcome (λ n, bool_decide (n ≤ 1000)%nat) DuplicateCache.new s.2
      (m_cachePath sample_cache)
    = Some (true, restarted)
    ∧ stored_filename <$> m_entries restarted
      = (stored_filename <$> m_entries sample_cache)
        ++ [take 255 (c_str long_name)]
    ∧ Check restarted long_name
      = DuplicateCheckResult.mk DuplicateStatus.NotSubmitted [] [] 0.
Proof.
  apply (long_name_forgotten_by_restart (λ n, bool_decide (n ≤ 1000)%nat)
           sample_cache sample_fs long_name (str "FIRS-3") (str "eve")
           1700000300 1700000301);
    compute_done.
Defined.

(** X5. A [Save] that fails leaves the disk as it was. It fails exactly
    when no path was ever set by [Load] or the file cannot be opened; an
    [AddEntry] in that situation still records the submission in memory. *)
Theorem Save_failure_leaves_disk (c : DuplicateCache.t) (fs : FileSystem.t)
    (f r u : list ascii) (now nowSave : Z) :
  ((Save c fs now).1 = false
   ↔ m_cachePath c = [] ∨ FileSystem.writable fs (m_cachePath c) = false)
  ∧ ((Save c fs now).1 = false → (Save c fs now).2 = fs)
  ∧ (m_cachePath c = [] ∨ FileSystem.writable fs (m_cachePath c) = false →
     let s := AddEntry c fs f r u now nowSave in
     s.2 = fs
     ∧ m_entries s.1 = m_entries c ++ [make_entry f r u now]
     ∧ DuplicateCheckResult.status (Check s.1 f)
       = DuplicateStatus.AlreadySubmitted).
Proof.
  assert (Hiff : ∀ c now,
    (Save c fs now).1 = false
    ↔ m_cachePath c = [] ∨ FileSystem.writable fs (m_cachePath c) = false).
  { intros c0 now0. unfold Save, FileSystem.write. case_decide as Hp.
    - split; [by left | done].
    - destruct (FileSystem.writable fs (m_cachePath c0)) eqn:Hw; simpl.
      + split; [discriminate | by intros [?|?]].
      + split; [by right | done]. }
  split_and!.
  - apply Hiff.
  - intros Hfail. destruct (Save c fs now) as [ok fs'] eqn:HS.
    simpl in *. subst ok. by apply Save_false_fs in HS.
  - intros Hno s. split_and!.
    + unfold s. rewrite AddEntry_fs.
      set (c' := (AddEntry c fs f r u now nowSave).1).
      assert (Hfail : (Save c' fs nowSave).1 = false) by (by apply Hiff).
      destruct (Save c' fs nowSave) as [ok fs'] eqn:HS.
      simpl in *. subst ok. by apply Save_false_fs in HS.
    + reflexivity.
    + apply Check_status. unfold s. simpl. set_solver.
Qed.

Lemma Save_failure_leaves_disk_witness :
  let s :=
    AddEntry DuplicateCache.new unknown_version_fs (str "a.pdf")
      (str "FIRS-1") (str "bob") 1700000000 1700000001 in
  s.2 = unknown_version_fs
  ∧ m_entries s.1
    = [make_entry (str "a.pdf") (str "FIRS-1") (str "bob") 1700000000]
  ∧ DuplicateCheckResult.status (Check s.1 (str "a.pdf"))
    = DuplicateStatus.AlreadySubmitted.
Proof.
  apply (Save_failure_leaves_disk DuplicateCache.new unknown_version_fs
           (str "a.pdf") (str "FIRS-1") (str "bob") 1700000000 1700000001).
  left. reflexivity.
Defined.

Lemma entries_of_bytes_length (n : nat) (b : list ascii) :
  length (entries_of_bytes n b) = n.
Proof. revert b. induction n; intros b; simpl; [done|]. by rewrite IHn. Qed.

Lemma Load_throws_inv (can_allocate : nat → bool) (c : DuplicateCache.t)
    (fs : FileSystem.t) (path : wstring) :
  Load_throws can_allocate c fs path = true
  ↔ ∃ data,
      FileSystem.read fs path = Some data
      ∧ CacheHeader.version (read_header data) = 1
      ∧ (length (m_entries c)
         < Z.to_nat (CacheHeader.entryCount (read_header data)))%nat
      ∧ can_allocate (Z.to_nat (CacheHeader.entryCount (read_header data)))
        = false.
Proof.
  unfold Load_throws, resize_throws.
  destruct (FileSystem.read fs path) as [data|] eqn:Hread.
  - case_decide as Hv.
    + split; [done|]. intros (data' & [= <-] & Hv' & _). done.
    + rewrite andb_true_iff, bool_decide_eq_true.
      rewrite negb_true_iff. split.
      * intros [Hgrow Hno]. by exists data.
      * intros (data' & [= <-] & _ & Hgrow & Hno). done.
  - split; [done|]. intros (data & [=] & _).
Qed.

(** X6. [Load] never returns false. It throws exactly on a version-1 file
    whose header counts more records than the cache holds when the machine
    does not grant storage for that many: the count is taken from the file
    unchecked. Whenever it returns, it returns true with the path
    remembered; on a version-1 file it leaves exactly as many records as
    the header counts, however short the file is, and if each of them holds
    a NUL in its file-name field the index is the set of the names before
    that NUL; on a missing file or another version it leaves records and
    index alone. *)
Theorem Load_shape (can_allocate : nat → bool) (c : DuplicateCache.t)
    (fs : FileSystem.t) (path : wstring) :
  (Load_outcome can_allocate c fs path = None
   ↔ ∃ data,
       FileSystem.read fs path = Some data
       ∧ CacheHeader.version (read_header data) = 1
       ∧ (length (m_entries c)
          < Z.to_nat (CacheHeader.entryCount (read_header data)))%nat
       ∧ can_allocate (Z.to_nat (CacheHeader.entryCount (read_header data)))
         = false)
  ∧ ∀ ok c',
      Load_outcome can_allocate c fs path = Some (ok, c') →
      ok = true
      ∧ m_cachePath c' = path
      ∧ (∀ data,
           FileSystem.read fs path = Some data →
           CacheHeader.version (read_header data) = 1 →
           length (m_entries c')
           = Z.to_nat (CacheHeader.entryCount (read_header data))
           ∧ (Forall (λ e, NUL ∈ CacheEntry.filename e) (m_entries c') →
              m_filenameIndex c'
              = list_to_set
                  ((λ e, c_str (CacheEntry.filename e)) <$> m_entries c')))
      ∧ (FileSystem.read fs path = None
         ∨ (∃ data, FileSystem.read fs path = Some data
                    ∧ CacheHeader.version (read_header data) ≠ 1) →
         m_entries c' = m_entries c ∧ m_filenameIndex c' = m_filenameIndex c).
Proof.
  split.
  - rewrite <- Load_throws_inv. unfold Load_outcome.
    by destruct (Load_throws can_allocate c fs path).
  - intros ok c'. unfold Load_outcome.
    destruct (Load_throws can_allocate c fs path); [done|].
    intros [= Hload]. revert Hload. unfold Load.
    destruct (FileSystem.read fs path) as [data|] eqn:Hread.
    + case_decide as Hv; intros [= <- <-];
        cbn [m_cachePath m_entries m_filenameIndex].
      * split_and!; [done | done | |].
        -- intros data' [= <-] Hv'. done.
        -- done.
      * split_and!; [done | done | |].
        -- intros data' [= <-] _. split; [apply entries_of_bytes_length|].
           intros Hterm. rewrite build_index_spec. f_equal.
           apply list_fmap_ext. intros i e He.
           apply stored_filename_terminated.
           rewrite Forall_forall in Hterm.
           apply Hterm. by eapply list_elem_of_lookup_2.
        -- intros [? | (data' & [= <-] & Hv')]; [done|].
           exfalso. apply Hv'. by apply dec_stable.
    + intros [= <- <-]. split_and!; [done | done | |].
      * intros data [=].
      * done.
Qed.

Lemma Load_shape_witness :
  ∃ c',
    Load_outcome (λ n, bool_decide (n ≤ 1000)%nat) DuplicateCache.new
      truncated_fs (wstr "C:\cache\submitted-invoices.cache")
    = Some (true, c')
    ∧ length (m_entries c') = 3%nat.
Proof.
  destruct (Load_outcome (λ n, bool_decide (n ≤ 1000)%nat) DuplicateCache.new
              truncated_fs (wstr "C:\cache\submitted-invoices.cache"))
    as [[ok c']|] eqn:Hload; [|by vm_compute in Hload].
  destruct (Load_shape (λ n, bool_decide (n ≤ 1000)%nat) DuplicateCache.new
              truncated_fs (wstr "C:\cache\submitted-invoices.cache"))
    as (_ & Hreturns).
  destruct (Hreturns ok c' Hload) as (-> & _ & Hv1 & _).
  exists c'. split; [done|].
  destruct (Hv1 (le_encode 4 1 ++ le_encode 4 3)) as [Hlen _].
  - reflexivity.
  - vm_compute. reflexivity.
  - rewrite Hlen. vm_compute. reflexivity.
Defined.

End DuplicateCacheMore.

(** ** SessionToken: the JSON written and read back *)

Section SessionTokenProofs.
Import SessionToken.

Lemma find0_single_before (c : ascii) (hay : list ascii) (i : nat) :
  find0 [c] hay = Some i → (c ∉ take i hay) ∧ (i < length hay)%nat.
Proof.
  revert i. induction hay as [|a hay IH]; intros i; cbn [find0 starts_with].
  - done.
  - case_decide as Hca.
    + intros [= <-]. split; [apply not_elem_of_nil|simpl; lia].
    + destruct (find0 [c] hay) as [j|] eqn:Hj; [|done].
      intros [= <-]. destruct (IH j eq_refl) as [Hnot Hlt].
      split; [|simpl; lia]. simpl. rewrite not_elem_of_cons. done.
Qed.

(** Whatever the text, the value read has no quote in it: it ends before
    the first quote after its opening one. *)
Lemma ExtractJsonString_no_quote (json key : list ascii) :
  dquote ∉ ExtractJsonString json key.
Proof.
  unfold ExtractJsonString.
  destruct (find json _ 0) as [p0|]; [|apply not_elem_of_nil].
  destruct (find json (str ":") _) as [p1|]; [|apply not_elem_of_nil].
  destruct (find json [dquote] (p1 + 1)) as [p2|]; [|apply not_elem_of_nil].
  destruct (find json [dquote] (p2 + 1)) as [p3|] eqn:H3; [|apply not_elem_of_nil].
  unfold find in H3. case_decide; [|done].
  destruct (find0 [dquote] (drop (p2 + 1) json)) as [i|] eqn:Hi; [|done].
  injection H3 as <-. apply find0_single_before in Hi as [Hnot _].
  unfold substr. by replace (p2 + 1 + i - p2 - 1)%nat with i by lia.
Qed.

Lemma ExtractJsonString_value (pre key blanks value post : list ascii) :
  let search := dquote :: key ++ [dquote] in
  let json :=
    pre ++ search ++ ":"%char :: blanks ++ dquote :: value ++ dquote :: post in
  find json search 0 = Some (length pre) →
  dquote ∉ blanks → dquote ∉ value →
  ExtractJsonString json key = value.
Proof.
  intros search json Hfirst Hblanks Hvalue. unfold ExtractJsonString.
  fold search. rewrite Hfirst.
  assert (Hb0 : json
    = (pre ++ search) ++ [] ++ ":"%char :: blanks ++ dquote :: value ++ dquote :: post).
  { unfold json. by rewrite <- !app_assoc. }
  rewrite Hb0 at 1. change (str ":") with [":"%char].
  rewrite (find_single_from ":"%char _ [] _ _) by
    (rewrite ?length_app; simpl; lia || apply not_elem_of_nil).
  assert (Hb1 : json
    = (pre ++ search ++ [":"%char]) ++ blanks ++ dquote :: value ++ dquote :: post).
  { unfold json. by rewrite <- !app_assoc. }
  rewrite Hb1 at 1.
  rewrite (find_single_from dquote _ blanks _ _) by
    (rewrite ?length_app; simpl; lia || done).
  assert (Hb2 : json
    = (pre ++ search ++ ":"%char :: blanks ++ [dquote]) ++ value ++ dquote :: post).
  { unfold json. rewrite <- !app_assoc. simpl. rewrite <- !app_assoc. done. }
  rewrite Hb2 at 1.
  rewrite (find_single_from dquote _ value _ _).
  2:{ rewrite !length_app. simpl. rewrite !length_app. simpl. lia. }
  2:{ done. }
  unfold substr. rewrite Hb2.
  rewrite drop_app_length'.
  2:{ rewrite !length_app. simpl. rewrite !length_app. simpl. lia. }
  rewrite take_app_length'; [done|]. lia.
Qed.

(** The same, on a text given by its tokens. *)
Lemma ExtractJsonString_tokens (seg0 key blanks value next : list ascii)
    (before after : list (list ascii)) :
  dquote ∉ seg0 → dquote ∉ key → dquote ∉ blanks → dquote ∉ value →
  Forall (λ tok, (dquote ∉ tok) ∧ tok ≠ key) before →
  ExtractJsonString
    (seg0 ++ dq_join (before ++ [key; ":"%char :: blanks; value; next] ++ after))
    key
  = value.
Proof.
  intros Hseg Hkey Hblanks Hvalue Hbefore.
  assert (Hshape :
    seg0 ++ dq_join (before ++ [key; ":"%char :: blanks; value; next] ++ after)
    = (seg0 ++ dq_join before) ++ (dquote :: key ++ [dquote])
      ++ ":"%char :: blanks ++ dquote :: value ++ dquote :: (next ++ dq_join after)).
  { rewrite !dq_join_app. cbn [dq_join mbind list_bind app].
    repeat (progress (rewrite <- ?app_assoc; simpl)).
    rewrite ?app_nil_r. reflexivity. }
  rewrite Hshape. apply ExtractJsonString_value; [|done..].
  rewrite <- Hshape. unfold find.
  rewrite decide_True by lia. rewrite drop_0.
  rewrite find0_skip by done.
  change ([key; ":"%char :: blanks; value; next] ++ after)
    with (key :: (":"%char :: blanks) :: (value :: next :: after)).
  rewrite find0_dq_join by done. simpl. by rewrite length_app.
Qed.

Lemma BuildJson_tokens (s : SessionInfo.t) :
  BuildJson s
  = str "{" ++ LF ++ str "  "
    ++ dq_join [str "username"; str ": "; SessionInfo.username s;
                str "," ++ LF ++ str "  ";
                str "token"; str ": "; SessionInfo.token s;
                str "," ++ LF ++ str "  ";
                str "expires_at"; str ": "; SessionInfo.expiresAt s;
                str "," ++ LF ++ str "  ";
                str "user_id"; str ": "; SessionInfo.userId s;
                LF ++ str "}"].
Proof.
  unfold BuildJson, json_line. cbn [dq_join mbind list_bind].
  repeat (progress (rewrite <- ?app_assoc; simpl)).
  rewrite ?app_nil_r. reflexivity.
Qed.


(** Each field of what [BuildJson] writes, with what reading it back
    needs. *)
Lemma ExtractJsonString_username (s : SessionInfo.t) :
  dquote ∉ SessionInfo.username s →
  ExtractJsonString (BuildJson s) (str "username") = SessionInfo.username s.
Proof.
  intros Hu. rewrite BuildJson_tokens.
  apply (ExtractJsonString_tokens (str "{" ++ LF ++ str "  ")
           (str "username") (str " ") _ _ []);
    [compute_done|compute_done|compute_done|done|constructor].
Qed.

Lemma ExtractJsonString_token (s : SessionInfo.t) :
  dquote ∉ SessionInfo.username s → dquote ∉ SessionInfo.token s →
  SessionInfo.username s ≠ str "token" →
  ExtractJsonString (BuildJson s) (str "token") = SessionInfo.token s.
Proof.
  intros Hu Ht Hu'. rewrite BuildJson_tokens.
  apply (ExtractJsonString_tokens (str "{" ++ LF ++ str "  ")
           (str "token") (str " ") _ _
           [str "username"; str ": "; SessionInfo.username s;
            str "," ++ LF ++ str "  "]);
    [compute_done|compute_done|compute_done|done|].
  repeat (constructor; [split; [first [done|compute_done]|]|]);
    try compute_done.
  done.
Qed.

Lemma ExtractJsonString_expires_at (s : SessionInfo.t) :
  dquote ∉ SessionInfo.username s → dquote ∉ SessionInfo.token s →
  dquote ∉ SessionInfo.expiresAt s →
  SessionInfo.username s ≠ str "expires_at" →
  SessionInfo.token s ≠ str "expires_at" →
  ExtractJsonString (BuildJson s) (str "expires_at") = SessionInfo.expiresAt s.
Proof.
  intros Hu Ht He Hu' Ht'. rewrite BuildJson_tokens.
  apply (ExtractJsonString_tokens (str "{" ++ LF ++ str "  ")
           (str "expires_at") (str " ") _ _
           [str "username"; str ": "; SessionInfo.username s;
            str "," ++ LF ++ str "  ";
            str "token"; str ": "; SessionInfo.token s;
            str "," ++ LF ++ str "  "]);
    [compute_done|compute_done|compute_done|done|].
  repeat (constructor; [split; [first [done|compute_done]|]|]);
    try compute_done; done.
Qed.

Lemma ExtractJsonString_user_id (s : SessionInfo.t) :
  dquote ∉ SessionInfo.username s → dquote ∉ SessionInfo.token s →
  dquote ∉ SessionInfo.expiresAt s → dquote ∉ SessionInfo.userId s →
  SessionInfo.username s ≠ str "user_id" →
  SessionInfo.token s ≠ str "user_id" →
  SessionInfo.expiresAt s ≠ str "user_id" →
  ExtractJsonString (BuildJson s) (str "user_id") = SessionInfo.userId s.
Proof.
  intros Hu Ht He Hi Hu' Ht' He'. rewrite BuildJson_tokens.
  apply (ExtractJsonString_tokens (str "{" ++ LF ++ str "  ")
           (str "user_id") (str " ") _ _
           [str "username"; str ": "; SessionInfo.username s;
            str "," ++ LF ++ str "  ";
            str "token"; str ": "; SessionInfo.token s;
            str "," ++ LF ++ str "  ";
            str "expires_at"; str ": "; SessionInfo.expiresAt s;
            str "," ++ LF ++ str "  "] []);
    [compute_done|compute_done|compute_done|done|].
  repeat (constructor; [split; [first [done|compute_done]|]|]);
    try compute_done; done.
Qed.

(** X7. What [BuildJson] writes, [ExtractJsonString] reads back field by
    field, for a session with no quote in a field and no field that is the
    name of a later key. *)
Theorem ExtractJsonString_BuildJson (s : SessionInfo.t) :
  json_safe s →
  ExtractJsonString (BuildJson s) (str "username") = SessionInfo.username s
  ∧ ExtractJsonString (BuildJson s) (str "token") = SessionInfo.token s
  ∧ ExtractJsonString (BuildJson s) (str "expires_at") = SessionInfo.expiresAt s
  ∧ ExtractJsonString (BuildJson s) (str "user_id") = SessionInfo.userId s.
Proof.
  intros (Hu & Ht & He & Hi & Hu' & Ht' & He').
  assert (Hu1 : SessionInfo.username s ≠ str "token")
    by (intros E; apply Hu'; rewrite E; compute_done).
  assert (Hu2 : SessionInfo.username s ≠ str "expires_at")
    by (intros E; apply Hu'; rewrite E; compute_done).
  assert (Hu3 : SessionInfo.username s ≠ str "user_id")
    by (intros E; apply Hu'; rewrite E; compute_done).
  assert (Ht1 : SessionInfo.token s ≠ str "expires_at")
    by (intros E; apply Ht'; rewrite E; compute_done).
  assert (Ht2 : SessionInfo.token s ≠ str "user_id")
    by (intros E; apply Ht'; rewrite E; compute_done).
  split_and!.
  - by apply ExtractJsonString_username.
  - by apply ExtractJsonString_token.
  - by apply ExtractJsonString_expires_at.
  - by apply ExtractJsonString_user_id.
Qed.

Lemma ExtractJsonString_BuildJson_witness :
  ExtractJsonString (BuildJson sample_session) (str "username")
  = str "bob@example.com"
  ∧ ExtractJsonString (BuildJson sample_session) (str "token") = str "tok-81"
  ∧ ExtractJsonString (BuildJson sample_session) (str "expires_at")
    = str "2027-01-15T09:00:00Z"
  ∧ ExtractJsonString (BuildJson sample_session) (str "user_id") = str "u-7".
Proof.
  apply (ExtractJsonString_BuildJson sample_session).
  unfold json_safe. split_and!; compute_done.
Defined.

(** The condition on key names is needed: for a user called user_id, the
    token is read where the user id is looked for. *)
Example ExtractJsonString_confused :
  ExtractJsonString (BuildJson confusing_session) (str "user_id")
  = SessionInfo.token confusing_session.
Proof. vm_compute. reflexivity. Qed.

(** X8. No field that [Load] returns holds a quote, whatever the file and
    whatever DPAPI gives back: a value ends at the first quote after its
    opening one, and [BuildJson] escapes none. *)
Theorem SessionToken_Load_no_quote (env : Env.t) (w : World.t) :
  let info := (Load env w).1 in
  (dquote ∉ SessionInfo.username info) ∧ (dquote ∉ SessionInfo.token info)
  ∧ (dquote ∉ SessionInfo.expiresAt info) ∧ (dquote ∉ SessionInfo.userId info).
Proof.
  unfold Load, IsExpired, failed, mbind, M_bind, get_fs, mret, M_ret, time.
  pose proof (ExtractJsonString_no_quote) as Hq.
  pose proof (not_elem_of_nil dquote) as Hnil.
  repeat (case_decide; [simpl; by split_and!|]). simpl.
  destruct (FileSystem.read _ _); [|simpl; by split_and!].
  repeat (case_decide; [simpl; by split_and!|]).
  destruct (Env.parse_expiry _ _); simpl; [|by split_and!].
  case_bool_decide; simpl; by split_and!.
Qed.

(** X9. A session is valid exactly when [Load] reports no error, and a
    valid session has a token and an expiry time that parses and lies
    after the reading of the clock. *)
Theorem SessionToken_Load_valid_iff (env : Env.t) (w : World.t) :
  let info := (Load env w).1 in
  (SessionInfo.valid info = true ↔ SessionInfo.error info = [])
  ∧ (SessionInfo.valid info = true →
     SessionInfo.token info ≠ []
     ∧ ∃ expiry, Env.parse_expiry env (SessionInfo.expiresAt info) = Some expiry
                 ∧ Env.clock env (World.ticks w) < expiry).
Proof.
  unfold Load, IsExpired, failed, mbind, M_bind, get_fs, mret, M_ret, time.
  repeat (case_decide; [simpl; split; [split|]; discriminate|]). simpl.
  destruct (FileSystem.read _ _); [|simpl; split; [split|]; discriminate].
  repeat (case_decide; [simpl; split; [split|]; discriminate|]).
  destruct (Env.parse_expiry _ _) as [expiry|] eqn:Hparse; simpl;
    [|split; [split|]; discriminate].
  case_bool_decide; simpl; [split; [split|]; discriminate|].
  split; [done|]. intros _. split; [done|]. exists expiry. split; [done|]. lia.
Qed.

Lemma SessionToken_Load_valid_iff_witness :
  SessionInfo.error (Load sample_env (World.mk signed_in_fs [] 0)).1 = [].
Proof.
  apply (proj1 (proj1 (SessionToken_Load_valid_iff sample_env
                         (World.mk signed_in_fs [] 0)))).
  vm_compute. reflexivity.
Defined.

Lemma SessionToken_Save_run (Encrypt : list ascii → list ascii) (env : Env.t)
    (s : SessionInfo.t) (w : World.t) :
  Env.GetTokenPath env ≠ [] →
  FileSystem.writable (World.fs w) (Env.GetTokenPath env) = true →
  Encrypt (BuildJson s) ≠ [] →
  Save Encrypt env s w
  = (true,
     World.mk
       (FileSystem.mk
          (<[Env.GetTokenPath env := Encrypt (BuildJson s)]>
             (FileSystem.files (World.fs w)))
          (FileSystem.writable (World.fs w)))
       (World.log w) (World.ticks w)).
Proof.
  intros Hpath Hwr Henc. unfold Save. rewrite !decide_False by done.
  unfold mbind, M_bind, get_fs, put_fs, mret, M_ret, FileSystem.write.
  by rewrite Hwr.
Qed.

Lemma SessionToken_Load_run (env : Env.t) (w : World.t) (encrypted : list ascii) :
  let json := Env.Decrypt env encrypted in
  let username := ExtractJsonString json (str "username") in
  let token := ExtractJsonString json (str "token") in
  let expiresAt := ExtractJsonString json (str "expires_at") in
  let userId := ExtractJsonString json (str "user_id") in
  Env.GetTokenPath env ≠ [] →
  FileSystem.read (World.fs w) (Env.GetTokenPath env) = Some encrypted →
  encrypted ≠ [] → json ≠ [] → token ≠ [] →
  (Load env w).1
  = if (IsExpired env expiresAt w).1
    then SessionInfo.mk username token expiresAt userId false
           (str "Session expired")
    else SessionInfo.mk username token expiresAt userId true [].
Proof.
  intros json username token expiresAt userId Hpath Hread Henc Hjson Htok.
  unfold Load. rewrite decide_False by done. rewrite bind_run.
  unfold get_fs. cbn [fst snd]. rewrite Hread.
  rewrite !decide_False by done. rewrite bind_run.
  fold json. fold expiresAt. by destruct (IsExpired env expiresAt w) as [[|] w2].
Qed.

(** X10. A session saved is the session loaded: when [Save] can write the
    token file and DPAPI gives back what it was given, [Save] returns true
    and [Load] returns the four fields as saved, valid unless expired. *)
Theorem SessionToken_Save_then_Load (Encrypt : list ascii → list ascii) (env : Env.t)
    (s : SessionInfo.t) (w : World.t) :
  Env.GetTokenPath env ≠ [] →
  FileSystem.writable (World.fs w) (Env.GetTokenPath env) = true →
  Encrypt (BuildJson s) ≠ [] →
  Env.Decrypt env (Encrypt (BuildJson s)) = BuildJson s →
  json_safe s →
  SessionInfo.token s ≠ [] →
  let saved := Save Encrypt env s w in
  let loaded := (Load env saved.2).1 in
  saved.1 = true
  ∧ SessionInfo.username loaded = SessionInfo.username s
  ∧ SessionInfo.token loaded = SessionInfo.token s
  ∧ SessionInfo.expiresAt loaded = SessionInfo.expiresAt s
  ∧ SessionInfo.userId loaded = SessionInfo.userId s
  ∧ SessionInfo.valid loaded
    = negb (IsExpired env (SessionInfo.expiresAt s) saved.2).1.
Proof.
  intros Hpath Hwr Henc Hdec Hsafe Htok saved loaded.
  destruct Hsafe as (Hqu & Hqt & Hqe & Hqi & Hu' & Ht' & He').
  assert (Hu1 : SessionInfo.username s ≠ str "token")
    by (intros E; apply Hu'; rewrite E; compute_done).
  assert (Hu2 : SessionInfo.username s ≠ str "expires_at")
    by (intros E; apply Hu'; rewrite E; compute_done).
  assert (Hu3 : SessionInfo.username s ≠ str "user_id")
    by (intros E; apply Hu'; rewrite E; compute_done).
  assert (Ht1 : SessionInfo.token s ≠ str "expires_at")
    by (intros E; apply Ht'; rewrite E; compute_done).
  assert (Ht2 : SessionInfo.token s ≠ str "user_id")
    by (intros E; apply Ht'; rewrite E; compute_done).
  pose proof (ExtractJsonString_username s Hqu) as Hu.
  pose proof (ExtractJsonString_token s Hqu Hqt Hu1) as Ht.
  pose proof (ExtractJsonString_expires_at s Hqu Hqt Hqe Hu2 Ht1) as He.
  pose proof (ExtractJsonString_user_id s Hqu Hqt Hqe Hqi Hu3 Ht2 He') as Hi.
  unfold loaded, saved. rewrite SessionToken_Save_run by done. cbn [fst snd].
  split; [done|].
  rewrite (SessionToken_Load_run env _ (Encrypt (BuildJson s))); [|done| |done|..].
  - rewrite Hdec, Hu, Ht, He, Hi.
    by destruct (IsExpired env (SessionInfo.expiresAt s) _) as [[|] w2].
  - unfold FileSystem.read. cbn [World.fs FileSystem.files].
    apply lookup_insert_eq.
  - rewrite Hdec, BuildJson_tokens. discriminate.
  - by rewrite Hdec, Ht.
Qed.

Lemma SessionToken_Save_then_Load_witness :
  let w := World.mk signed_in_fs [] 0 in
  let loaded :=
    (Load sample_env (Save (λ json, json) sample_env sample_session w).2).1 in
  (Save (λ json, json) sample_env sample_session w).1 = true
  ∧ SessionInfo.username loaded = str "bob@example.com"
  ∧ SessionInfo.token loaded = str "tok-81"
  ∧ SessionInfo.expiresAt loaded = str "2027-01-15T09:00:00Z"
  ∧ SessionInfo.userId loaded = str "u-7"
  ∧ SessionInfo.valid loaded = true.
Proof.
  apply (SessionToken_Save_then_Load (λ json, json) sample_env sample_session
           (World.mk signed_in_fs [] 0)).
  - vm_compute. discriminate.
  - reflexivity.
  - vm_compute. discriminate.
  - reflexivity.
  - unfold json_safe. split_and!; compute_done.
  - vm_compute. discriminate.
Defined.

Lemma ClearSession_run (env : Env.t) (w : World.t) :
  (ClearSession env w).1 = true →
  Env.GetTokenPath env ≠ []
  ∧ (ClearSession env w).2
    = World.mk
        (FileSystem.mk
           (delete (Env.GetTokenPath env) (FileSystem.files (World.fs w)))
           (FileSystem.writable (World.fs w)))
        (World.log w) (World.ticks w).
Proof.
  unfold ClearSession, mbind, M_bind, get_fs, put_fs, mret, M_ret,
    FileSystem.remove.
  case_decide as Hpath; [discriminate|].
  destruct (FileSystem.files (World.fs w) !! Env.GetTokenPath env);
    [|discriminate].
  by destruct (FileSystem.writable _ _).
Qed.

(** X11. After a [ClearSession] that succeeds nobody is signed in: [Load]
    reports that no session was found, and [HasValidSession] is false. *)
Theorem ClearSession_signs_out (env : Env.t) (w : World.t) :
  (ClearSession env w).1 = true →
  (Load env (ClearSession env w).2).1
  = failed "No session found (not logged in)"
  ∧ (HasValidSession env (ClearSession env w).2).1 = false.
Proof.
  intros Hok. destruct (ClearSession_run env w Hok) as [Hpath ->].
  set (w1 := World.mk _ _ _).
  assert (HL : (Load env w1).1 = failed "No session found (not logged in)").
  { unfold Load. rewrite decide_False by done.
    rewrite bind_run. unfold get_fs. cbn [fst snd].
    unfold w1, FileSystem.read. cbn [World.fs FileSystem.files].
    by rewrite lookup_delete_eq. }
  split; [done|].
  unfold HasValidSession. rewrite bind_run. by rewrite HL.
Qed.

Lemma ClearSession_signs_out_witness :
  (HasValidSession sample_env (World.mk signed_in_fs [] 0)).1 = true
  ∧ (HasValidSession sample_env
       (ClearSession sample_env (World.mk signed_in_fs [] 0)).2).1 = false.
Proof.
  split; [vm_compute; reflexivity|].
  apply (ClearSession_signs_out sample_env (World.mk signed_in_fs [] 0)).
  vm_compute. reflexivity.
Defined.

End SessionTokenProofs.

Section InvoiceRouterMore.
Import InvoiceRouter.

(** ** The text excerpt *)

Lemma extract_loop_printable (buffer : list ascii) (maxChars : Z)
    (text run : list ascii) :
  Forall (λ c, printable c = true) text →
  Forall (λ c, printable c = true) run →
  Forall (λ c, printable c = true) (extract_loop buffer maxChars text run).1
  ∧ Forall (λ c, printable c = true) (extract_loop buffer maxChars text run).2.
Proof.
  revert text run. induction buffer as [|c buffer IH]; intros text run Ht Hr.
  - done.
  - cbn [extract_loop]. destruct (_ <? _); [|done].
    destruct (printable c) eqn:Hc.
    + apply IH; [done|]. apply Forall_app. split; [done|].
      by apply Forall_singleton.
    + apply IH; [|constructor]. case_decide; [|done].
      rewrite !Forall_app. split_and!; [done..|]. by apply Forall_singleton.
Qed.

(** X12. The excerpt [ExtractFirstPageText] returns is never longer than
    [maxChars] and holds printable ASCII only (codes 32 to 126), whatever
    the bytes of the file; for a file that cannot be opened it is empty.
    One call is noted and nothing else in the world changes. *)
Theorem ExtractFirstPageText_bounded (path : wstring) (maxChars : Z)
    (w : World.t) :
  0 ≤ maxChars →
  let out := ExtractFirstPageText path maxChars w in
  Z.of_nat (length out.1) ≤ maxChars
  ∧ Forall (λ c, printable c = true) out.1
  ∧ (FileSystem.read (World.fs w) path = None → out.1 = [])
  ∧ out.2 = log_event (CallExtractFirstPageText path maxChars) w.
Proof.
  intros Hmax. unfold ExtractFirstPageText. rewrite !bind_run.
  change (emit ?e w).2 with (log_event e w).
  cbn [get_fs fst snd log_event World.fs].
  destruct (FileSystem.read (World.fs w) path) as [data|]; cbn.
  2:{ split_and!; [lia|constructor|done|done]. }
  destruct (extract_loop_printable (take 8192 data) maxChars [] [])
    as [Ht Hr]; [constructor..|].
  destruct (extract_loop _ _ _ _) as [text run]. cbn [fst snd] in *.
  set (text' := if decide (4 ≤ length run)%nat then text ++ run else text).
  assert (Ht' : Forall (λ c, printable c = true) text').
  { unfold text'. case_decide; [|done]. by apply Forall_app. }
  unfold mret, M_ret. cbn [fst snd].
  split_and!; [| |done|done].
  - destruct (_ >? _) eqn:Hgt; [rewrite length_take|]; lia.
  - destruct (_ >? _); [by apply Forall_take|done].
Qed.

Lemma ExtractFirstPageText_bounded_witness :
  let out :=
    ExtractFirstPageText (wstr "C:\scans\0042.pdf") 10
      (World.mk sample_pdf_fs [] 0) in
  Z.of_nat (length out.1) ≤ 10
  ∧ Forall (λ c, printable c = true) out.1
  ∧ (FileSystem.read sample_pdf_fs (wstr "C:\scans\0042.pdf") = None →
     out.1 = [])
  ∧ out.2
    = log_event (CallExtractFirstPageText (wstr "C:\scans\0042.pdf") 10)
        (World.mk sample_pdf_fs [] 0).
Proof.
  apply (ExtractFirstPageText_bounded (wstr "C:\scans\0042.pdf") 10
           (World.mk sample_pdf_fs [] 0)).
  lia.
Defined.

(** ** Verdicts and their confidence *)

Lemma sum_reachable (P : Marker.t → bool) (ms : list Marker.t) (s : float) :
  In (foldl (λ s m, (s + Marker.weight m)%float) s (List.filter P ms))
     (reachable_scores ms s).
Proof.
  revert s. induction ms as [|m ms IH]; intros s; [by left|].
  cbn [List.filter reachable_scores]. apply in_or_app.
  destruct (P m); [left|right]; apply IH.
Qed.

Lemma reachable_scores_in_range :
  forallb (λ s, confidence_in_range (verdict_of_sum s))
    (reachable_scores markers 0)
  = true.
Proof. vm_compute. reflexivity. Qed.

Lemma score_text_verdict (text : list ascii) :
  ∃ sum,
    In sum (reachable_scores markers 0)
    ∧ RouteResult.decision (score_text text)
      = RouteResult.decision (verdict_of_sum sum)
    ∧ RouteResult.confidenceScore (score_text text)
      = RouteResult.confidenceScore (verdict_of_sum sum).
Proof.
  rewrite score_text_spec. unfold tier2_spec, verdict_of_sum.
  eexists. split; [apply (sum_reachable (found (toupper <$> text)))|].
  cbv zeta. by destruct (PrimFloat.leb _ _).
Qed.

Lemma confidence_in_range_ext (a b : RouteResult.t) :
  RouteResult.decision a = RouteResult.decision b →
  RouteResult.confidenceScore a = RouteResult.confidenceScore b →
  confidence_in_range b = true → confidence_in_range a = true.
Proof.
  destruct a as [da ma ha ca], b as [d_b mb hb cb]. cbn. by intros -> ->.
Qed.

Lemma confidence_in_range_ok (res : RouteResult.t) :
  confidence_in_range res = true →
  RouteResult.decision res ≠ RouteDecision.Unknown →
  confidence_ok res.
Proof.
  destruct res as [d m h c]. unfold confidence_in_range, confidence_ok.
  cbn. destruct d; intros Hrange Hknown; [| |done];
    apply andb_prop in Hrange; exact Hrange.
Qed.

Lemma verdict_of_sum_known (sum : float) :
  RouteResult.decision (verdict_of_sum sum) ≠ RouteDecision.Unknown.
Proof.
  unfold verdict_of_sum. cbv zeta.
  match goal with |- context [if ?b then _ else _] => by destruct b end.
Qed.

Lemma score_text_in_range (text : list ascii) :
  confidence_in_range (score_text text) = true
  ∧ RouteResult.decision (score_text text) ≠ RouteDecision.Unknown.
Proof.
  destruct (score_text_verdict text) as (sum & Hin & Hd & Hc).
  pose proof reachable_scores_in_range as Hall.
  rewrite forallb_forall in Hall. specialize (Hall sum Hin).
  split.
  - exact (confidence_in_range_ext _ _ Hd Hc Hall).
  - rewrite Hd. apply verdict_of_sum_known.
Qed.

Lemma score_text_confidence_ok (text : list ascii) :
  confidence_ok (score_text text).
Proof.
  destruct (score_text_in_range text) as [Hrange Hknown].
  exact (confidence_in_range_ok _ Hrange Hknown).
Qed.

Lemma MatchFilename_loop_cases (ps : list RoutingPattern.t) (f : list ascii) :
  (MatchFilename_loop ps f = RouteResult.mk RouteDecision.Unknown [] [] 0
   ∧ ∀ p, p ∈ ps → pattern_matches f p = false)
  ∨ (∃ p, p ∈ ps ∧ pattern_matches f p = true
          ∧ MatchFilename_loop ps f = tier1_result p).
Proof.
  induction ps as [|q ps IH]; simpl.
  - left. split; [done|]. intros p Hp. by apply elem_of_nil in Hp.
  - destruct (Regex.search f (RoutingPattern.filenameRegex q)) eqn:Hq.
    + right. exists q. split_and!; [by left|done|done].
    + destruct IH as [[-> Hno]|(p & Hp & Hm & ->)].
      * left. split; [done|]. intros p [->|Hp]%elem_of_cons; [done|by apply Hno].
      * right. exists p. split_and!; [by right|done|done].
Qed.

Lemma Route_cases (r : InvoiceRouter.t) (path : wstring) (w : World.t) :
  let filename := ExtractFilename path in
  let text := (ExtractFirstPageText path 500 w).1 in
  (∃ p, p ∈ m_patterns r ∧ pattern_matches filename p = true
        ∧ Route r path w = (tier1_result p, w))
  ∨ ((∀ p, p ∈ m_patterns r → pattern_matches filename p = false)
     ∧ (Route r path w).1
       = if decide (text = []) then RouteResult.mk RouteDecision.Unknown [] [] 0
         else score_text text).
Proof.
  intros filename text. unfold Route, MatchFilename. fold filename.
  destruct (MatchFilename_loop_cases (m_patterns r) filename)
    as [[-> Hno]|(p & Hp & Hm & ->)].
  - right. split; [done|]. rewrite decide_False by done.
    unfold AnalyzeContent. rewrite bind_run. fold text.
    by case_decide.
  - left. exists p. split_and!; [done..|]. by rewrite decide_True.
Qed.

(** X13. Every verdict of [Route] carries a confidence in its range: an
    [Invoice] at least 0.30 and at most 1, a [NotInvoice] at least 0.75 and
    at most 1, an [Unknown] exactly 0, whatever the patterns, the file name
    and the bytes of the file. *)
Theorem Route_confidence (r : InvoiceRouter.t) (path : wstring) (w : World.t) :
  confidence_ok (Route r path w).1.
Proof.
  destruct (Route_cases r path w) as [(p & _ & _ & ->)|[_ ->]].
  - unfold confidence_ok. cbn. split; vm_compute; reflexivity.
  - case_decide; [reflexivity|]. apply score_text_confidence_ok.
Qed.

(** X14. [Route] answers [Unknown] exactly when no pattern matches the file
    name and no text could be taken from the file; in particular a file
    that cannot be opened and whose name matches nothing is [Unknown]. *)
Theorem Route_Unknown_iff (r : InvoiceRouter.t) (path : wstring)
    (w : World.t) :
  RouteResult.decision (Route r path w).1 = RouteDecision.Unknown
  ↔ (∀ p, p ∈ m_patterns r → pattern_matches (ExtractFilename path) p = false)
    ∧ (ExtractFirstPageText path 500 w).1 = [].
Proof.
  destruct (Route_cases r path w) as [(p & Hp & Hm & ->)|[Hno ->]].
  - split; [done|]. intros [Hno _]. rewrite (Hno p Hp) in Hm. done.
  - case_decide as Htext.
    + split; [intros _; by split|reflexivity].
    + split; [|intros [_ ?]; congruence]. intros Hu.
      destruct (score_text_in_range (ExtractFirstPageText path 500 w).1)
        as [_ Hknown].
      congruence.
Qed.

Lemma Route_Unknown_iff_witness :
  (ExtractFirstPageText (wstr "C:\scans\missing.pdf") 500
     (World.mk sample_pdf_fs [] 0)).1 = [].
Proof.
  apply (Route_Unknown_iff InvoiceRouter.new (wstr "C:\scans\missing.pdf")
           (World.mk sample_pdf_fs [] 0)).
  vm_compute. reflexivity.
Defined.

End InvoiceRouterMore.

(** ** File names *)

Lemma find_last_of_spec (s set : list ascii) :
  match find_last_of s set with
  | Some i => Forall (λ c, c ∉ set) (drop (S i) s)
  | None => Forall (λ c, c ∉ set) s
  end.
Proof.
  induction s as [|a s IH]; simpl; [constructor|].
  destruct (find_last_of s set) as [i|]; [done|].
  case_decide; [done|]. by constructor.
Qed.

(** X15. The file name [ExtractFilename] takes from a path holds neither a
    slash nor a backslash: it is what follows the last of them. *)
Theorem ExtractFilename_no_separator (path : wstring) :
  Forall (λ c, c ∉ str "\/") (ExtractFilename path).
Proof.
  unfold ExtractFilename.
  pose proof (find_last_of_spec (WideToUtf8 path) (str "\/")) as H.
  by destruct (find_last_of _ _).
Qed.

(** ** The base name of a path *)

Lemma utf16_decode_sep (n : nat) (dir name : wstring) (sep : N) :
  (length dir ≤ n)%nat →
  is_high_surrogate sep = false → is_low_surrogate sep = false →
  utf16_decode (dir ++ sep :: name)
  = utf16_decode dir ++ sep :: utf16_decode name.
Proof.
  intros Hn Hhi Hlo. revert dir Hn.
  induction n as [|n IH]; intros dir Hn.
  - destruct dir; [|simpl in Hn; lia]. cbn [app utf16_decode].
    by rewrite Hhi, Hlo.
  - destruct dir as [|u rest]; [cbn [app utf16_decode]; by rewrite Hhi, Hlo|].
    simpl in Hn. cbn [app utf16_decode].
    destruct (is_high_surrogate u) eqn:Hu.
    + destruct rest as [|lo rest'].
      * cbn [app utf16_decode]. by rewrite Hlo, Hhi.
      * cbn [app]. destruct (is_low_surrogate lo).
        -- rewrite IH by (simpl in Hn; lia). done.
        -- change (lo :: rest' ++ sep :: name)
             with ((lo :: rest') ++ sep :: name).
           rewrite IH by lia. done.
    + destruct (is_low_surrogate u); rewrite IH by lia; done.
Qed.

Ltac byte_bounds :=
  repeat (apply Forall_cons; split;
          [rewrite N_ascii_embedding;
           zify; Z.to_euclidean_division_equations; lia|]);
  apply Forall_nil_2.

Lemma utf8_encode_high (cp : N) :
  (128 ≤ cp < 1114112)%N →
  Forall (λ b, (128 ≤ N_of_ascii b)%N) (utf8_encode cp).
Proof.
  intros Hcp. unfold utf8_encode.
  destruct (cp <? 128)%N eqn:H1; [apply N.ltb_lt in H1; lia|].
  destruct (cp <? 2048)%N eqn:H2;
    [apply N.ltb_lt in H2; byte_bounds|apply N.ltb_ge in H2].
  destruct (cp <? 65536)%N eqn:H3;
    [apply N.ltb_lt in H3; byte_bounds|apply N.ltb_ge in H3].
  byte_bounds.
Qed.

Lemma utf16_decode_range (w : wstring) :
  Forall (λ u, (u < 65536)%N) w →
  Forall (λ cp, (cp < 1114112)%N) (utf16_decode w).
Proof.
  remember (length w) as n eqn:Hn. revert w Hn.
  induction (lt_wf n) as [n _ IH]. intros w -> Hw.
  destruct w as [|u rest]; [constructor|].
  apply Forall_cons in Hw as [Hu Hrest]. cbn [utf16_decode].
  destruct (is_high_surrogate u) eqn:Hhi.
  - unfold is_high_surrogate in Hhi. apply andb_prop in Hhi as [Ha Hb].
    apply N.leb_le in Ha. apply N.ltb_lt in Hb.
    destruct rest as [|lo rest'].
    + repeat constructor.
    + apply Forall_cons in Hrest as Hrest'. destruct Hrest' as [Hlo' Hrest'].
      destruct (is_low_surrogate lo) eqn:Hlo.
      * unfold is_low_surrogate in Hlo. apply andb_prop in Hlo as [Hc Hd].
        apply N.leb_le in Hc. apply N.ltb_lt in Hd.
        constructor; [lia|].
        apply (IH (length rest')); [simpl; lia|done|done].
      * constructor; [lia|].
        apply (IH (length (lo :: rest'))); [simpl; lia|done|done].
  - destruct (is_low_surrogate u).
    + constructor; [lia|]. apply (IH (length rest)); [simpl; lia|done|done].
    + constructor; [lia|]. apply (IH (length rest)); [simpl; lia|done|done].
Qed.

Lemma utf16_decode_no_sep (w : wstring) (sep : N) :
  (sep < 128)%N → sep ∉ w → sep ∉ utf16_decode w.
Proof.
  intros Hsep. remember (length w) as n eqn:Hn. revert w Hn.
  induction (lt_wf n) as [n _ IH]. intros w -> Hw.
  destruct w as [|u rest]; [done|].
  apply not_elem_of_cons in Hw as [Hu Hrest]. cbn [utf16_decode].
  destruct (is_high_surrogate u) eqn:Hhi.
  - destruct rest as [|lo rest'].
    + apply not_elem_of_cons. split; [lia|apply not_elem_of_nil].
    + apply not_elem_of_cons in Hrest as Hrest'. destruct Hrest' as [Hlo' Hrest'].
      destruct (is_low_surrogate lo) eqn:Hlo.
      * apply not_elem_of_cons. split; [lia|].
        apply (IH (length rest')); [simpl; lia|done|done].
      * apply not_elem_of_cons. split; [lia|].
        apply (IH (length (lo :: rest'))); [simpl; lia|done|done].
  - destruct (is_low_surrogate u).
    + apply not_elem_of_cons. split; [lia|].
      apply (IH (length rest)); [simpl; lia|done|done].
    + apply not_elem_of_cons. split; [done|].
      apply (IH (length rest)); [simpl; lia|done|done].
Qed.

(** The bytes of a name without separators hold no separator. *)
Lemma WideToUtf8_no_separator (name : wstring) :
  Forall (λ u, (u < 65536)%N) name →
  92%N ∉ name → 47%N ∉ name →
  Forall (λ c, c ∉ str "\/") (WideToUtf8 name).
Proof.
  intros Hrange Hb Hs. unfold WideToUtf8.
  pose proof (utf16_decode_range name Hrange) as Hcp.
  pose proof (utf16_decode_no_sep name 92 ltac:(lia) Hb) as Hb'.
  pose proof (utf16_decode_no_sep name 47 ltac:(lia) Hs) as Hs'.
  induction (utf16_decode name) as [|cp cps IH]; [constructor|].
  apply Forall_cons in Hcp as [Hcp Hcps].
  apply not_elem_of_cons in Hb' as [Hb1 Hb2].
  apply not_elem_of_cons in Hs' as [Hs1 Hs2].
  cbn [mbind list_bind]. apply Forall_app. split; [|by apply IH].
  destruct (decide (cp < 128)%N) as [Hlow|Hhigh].
  - unfold utf8_encode. apply N.ltb_lt in Hlow as Hlow'. rewrite Hlow'.
    apply Forall_singleton. intros Hin.
    assert (HN : N_of_ascii (ascii_of_N cp) = cp)
      by (apply N_ascii_embedding; lia).
    apply elem_of_cons in Hin as [Heq|Hin].
    + apply (f_equal N_of_ascii) in Heq. rewrite HN in Heq.
      apply Hb1. by rewrite Heq.
    + apply list_elem_of_singleton in Hin.
      apply (f_equal N_of_ascii) in Hin. rewrite HN in Hin.
      apply Hs1. by rewrite Hin.
  - eapply Forall_impl; [apply utf8_encode_high; lia|].
    intros b Hbyte Hin.
    apply elem_of_cons in Hin as [->|Hin]; [vm_compute in Hbyte; done|].
    apply list_elem_of_singleton in Hin. subst b. vm_compute in Hbyte. done.
Qed.

Lemma find_last_of_last (pre post set : list ascii) (sep : ascii) :
  sep ∈ set → Forall (λ c, c ∉ set) post →
  find_last_of (pre ++ sep :: post) set = Some (length pre).
Proof.
  intros Hsep Hpost.
  assert (Hnone : find_last_of post set = None).
  { induction Hpost as [|c post Hc _ IH]; [done|]. simpl. rewrite IH.
    by rewrite decide_False. }
  induction pre as [|a pre IH]; simpl.
  - rewrite Hnone. by rewrite decide_True.
  - by rewrite IH.
Qed.

(** X16. Only the base name counts: for a name of UTF-16 code units that
    holds neither a slash nor a backslash, [ExtractFilename] of the name
    behind any directory and a slash or backslash is the UTF-8 form of the
    name. Files of the same name in different folders therefore share one
    key in the duplicate cache. *)
Theorem ExtractFilename_basename (dir name : wstring) (sep : N) :
  sep = 92%N ∨ sep = 47%N →
  Forall (λ u, (u < 65536)%N) name →
  92%N ∉ name → 47%N ∉ name →
  ExtractFilename (dir ++ sep :: name) = WideToUtf8 name.
Proof.
  intros Hsep Hrange Hb Hs. unfold ExtractFilename, WideToUtf8.
  rewrite (utf16_decode_sep (length dir)) by (destruct Hsep as [->| ->]; done).
  rewrite bind_app. cbn [mbind list_bind].
  assert (Henc : utf8_encode sep = [ascii_of_N sep])
    by (destruct Hsep as [->| ->]; done).
  rewrite Henc. cbn [app].
  rewrite (find_last_of_last _ _ _ (ascii_of_N sep)).
  - rewrite cons_middle, app_assoc.
    rewrite drop_app_length'; [done|]. rewrite length_app. simpl. lia.
  - destruct Hsep as [->| ->]; compute_done.
  - by apply WideToUtf8_no_separator.
Qed.

Lemma ExtractFilename_basename_witness :
  ExtractFilename (wstr "D:\archive\2024" ++ 92%N :: wstr "0042.pdf")
  = WideToUtf8 (wstr "0042.pdf").
Proof.
  apply (ExtractFilename_basename (wstr "D:\archive\2024") (wstr "0042.pdf")
           92%N).
  - left. reflexivity.
  - compute_done.
  - compute_done.
  - compute_done.
Defined.

(** ** File names are matched without regard to case *)

Section RegexCase.
Import Regex.

Ltac each_ascii x :=
  destruct x as [[] [] [] [] [] [] [] []]; vm_compute; reflexivity.

Lemma tolower_idemp (x : ascii) : tolower (tolower x) = tolower x.
Proof. each_ascii x. Qed.

Lemma case_blind_chr (c : ascii) : case_blind (chr c).
Proof. intros x. cbn beta. by rewrite tolower_idemp. Qed.

Lemma case_blind_word (s : string) : case_blind (word s).
Proof.
  unfold word. induction (str s) as [|c l IH]; [done|].
  split; [apply case_blind_chr|exact IH].
Qed.

Lemma case_blind_dot : case_blind dot.
Proof. intros x. each_ascii x. Qed.

Lemma case_blind_digit : case_blind digit.
Proof. intros x. each_ascii x. Qed.

Lemma case_blind_separator : case_blind separator.
Proof. intros x. each_ascii x. Qed.

Lemma case_blind_times (n : nat) (r : t) : case_blind r → case_blind (times n r).
Proof. intros Hr. induction n; [done|]. by split. Qed.

Lemma case_blind_upto (n : nat) (r : t) : case_blind r → case_blind (upto n r).
Proof. intros Hr. induction n; [done|]. by repeat split. Qed.

Lemma case_blind_cat (r s : t) :
  case_blind r → case_blind s → case_blind (cat r s).
Proof. intros Hr Hs. destruct r, s; simpl in *; tauto. Qed.

Lemma case_blind_alt (r s : t) :
  case_blind r → case_blind s → case_blind (alt r s).
Proof. intros Hr Hs. destruct r, s; simpl in *; tauto. Qed.

Lemma case_blind_deriv (c : ascii) (r : t) :
  case_blind r → case_blind (deriv c r).
Proof.
  induction r as [| |p|r IHr s IHs|r IHr s IHs|r IHr]; cbn [deriv case_blind].
  - done.
  - done.
  - intros _. by destruct (p c).
  - intros [Hr Hs]. destruct (nullable r).
    + apply case_blind_alt; [apply case_blind_cat|]; auto.
    + apply case_blind_cat; auto.
  - intros [Hr Hs]. apply case_blind_alt; auto.
  - intros Hr. apply case_blind_cat; auto.
Qed.

Lemma deriv_tolower (c : ascii) (r : t) :
  case_blind r → deriv (tolower c) r = deriv c r.
Proof.
  induction r as [| |p|r IHr s IHs|r IHr s IHs|r IHr]; cbn [deriv case_blind].
  - done.
  - done.
  - intros Hp. by rewrite Hp.
  - intros [Hr Hs]. by rewrite IHr, IHs.
  - intros [Hr Hs]. by rewrite IHr, IHs.
  - intros Hr. by rewrite IHr.
Qed.

Lemma matches_tolower (r : t) (s : list ascii) :
  case_blind r → matches r (tolower <$> s) = matches r s.
Proof.
  unfold matches. revert r. induction s as [|c s IH]; intros r Hr; [done|].
  cbn [fmap list_fmap foldl]. rewrite deriv_tolower by done.
  apply IH. by apply case_blind_deriv.
Qed.

Lemma search_tolower (r : t) (s : list ascii) :
  case_blind r → search (tolower <$> s) r = search s r.
Proof.
  intros Hr. unfold search. apply matches_tolower.
  split; [done|]. split; [exact Hr|done].
Qed.

Ltac blind :=
  lazymatch goal with
  | |- case_blind (word _) => apply case_blind_word
  | |- case_blind dot => exact case_blind_dot
  | |- case_blind digit => exact case_blind_digit
  | |- case_blind separator => exact case_blind_separator
  | |- case_blind (range _ _ _) => unfold range; blind
  | |- case_blind (times _ _) => apply case_blind_times; blind
  | |- case_blind (upto _ _) => apply case_blind_upto; blind
  | |- case_blind (opt _) => split; [blind|exact I]
  | |- case_blind (alts _) => cbn [alts foldr]; blind
  | |- case_blind (Cat _ _) => split; blind
  | |- case_blind (Alt _ _) => split; blind
  | |- case_blind (Star ?r) => change (case_blind r); blind
  | |- case_blind Fail => exact I
  | |- case_blind Eps => exact I
  end.

Lemma case_blind_default_patterns :
  Forall (λ p, case_blind (RoutingPattern.filenameRegex p))
    InvoiceRouter.InitDefaultPatterns.
Proof.
  unfold InvoiceRouter.InitDefaultPatterns.
  repeat (apply Forall_cons; split;
          [cbn [RoutingPattern.filenameRegex]; blind|]).
  apply Forall_nil_2.
Qed.

Lemma MatchFilename_loop_tolower (ps : list RoutingPattern.t)
    (f : list ascii) :
  Forall (λ p, case_blind (RoutingPattern.filenameRegex p)) ps →
  InvoiceRouter.MatchFilename_loop ps (tolower <$> f)
  = InvoiceRouter.MatchFilename_loop ps f.
Proof.
  induction 1 as [|p ps Hp _ IH]; [done|].
  cbn [InvoiceRouter.MatchFilename_loop].
  rewrite search_tolower by done. by rewrite IH.
Qed.

(** X17. Tier 1 does not look at the case of letters: with the default
    patterns, two file names that agree once lower-cased get the same
    result from [MatchFilename]. *)
Theorem MatchFilename_ignores_case (f g : list ascii) :
  tolower <$> f = tolower <$> g →
  InvoiceRouter.MatchFilename InvoiceRouter.new f
  = InvoiceRouter.MatchFilename InvoiceRouter.new g.
Proof.
  intros Hfg. unfold InvoiceRouter.MatchFilename, InvoiceRouter.new.
  cbn [InvoiceRouter.m_patterns].
  rewrite <- (MatchFilename_loop_tolower _ f case_blind_default_patterns).
  rewrite <- (MatchFilename_loop_tolower _ g case_blind_default_patterns).
  by rewrite Hfg.
Qed.

Lemma MatchFilename_ignores_case_witness :
  InvoiceRouter.MatchFilename InvoiceRouter.new (str "gtbank_INV_0042.PDF")
  = InvoiceRouter.MatchFilename InvoiceRouter.new (str "GTBank_inv_0042.pdf").
Proof.
  apply (MatchFilename_ignores_case (str "gtbank_INV_0042.PDF")
           (str "GTBank_inv_0042.pdf")).
  vm_compute. reflexivity.
Defined.

End RegexCase.

(** ** RelayClient: what a submission returns *)

Lemma read_response_invariant (resp : RelayResponse.t) :
  let result := RelayClient.read_response resp in
  (SubmitResult.success result = true →
   RelayResponse.success resp = true
   ∧ SubmitResult.error result = []
   ∧ (SubmitResult.httpStatus result = 200
      ∨ SubmitResult.httpStatus result = 201))
  ∧ (SubmitResult.success result = false →
     SubmitResult.firsReference result = []
     ∧ SubmitResult.fileUuid result = [])
  ∧ SubmitResult.httpStatus result = RelayResponse.statusCode resp.
Proof.
  unfold RelayClient.read_response.
  destruct (RelayResponse.success resp); cbn [negb]; [|by split_and!].
  case_decide as H200; [by split_and!|].
  case_decide; [by split_and!|]. case_decide; by split_and!.
Qed.

Lemma SubmitInvoice_run (env : Env.t) (r : RelayClient.t) (path : wstring)
    (user token : list ascii) (w : World.t) :
  match FileSystem.read (World.fs w) path with
  | None =>
      RelayClient.SubmitInvoice env r path user token w
      = (SubmitResult.mk false [] [] (str "Failed to read PDF file") 0, w)
  | Some pdf =>
      ∃ body contentType,
        RelayClient.SubmitInvoice env r path user token w
        = (RelayClient.read_response
             (Env.SendRequest env (RelayClient.m_host r) (RelayClient.m_port r)
                (wstr "POST") (wstr "/api/ingest") body contentType token),
           log_event
             (CallSendRequest (wstr "POST") (wstr "/api/ingest") body
                contentType token) w)
  end.
Proof.
  destruct (FileSystem.read (World.fs w) path) as [pdf|] eqn:Hread.
  - destruct (BuildMultipartBody_read env path user pdf w Hread)
      as (body & Hbody & Hne).
    exists body, (str "multipart/form-data; boundary="
                  ++ str "----HeliumBoundary" ++ Env.random_hex env).
    unfold RelayClient.SubmitInvoice. rewrite bind_run, Hbody.
    cbn [fst snd]. rewrite decide_False by done.
    unfold RelayClient.SendRequest. by rewrite !bind_run.
  - unfold RelayClient.SubmitInvoice, RelayClient.BuildMultipartBody.
    rewrite !bind_run. cbn [get_fs fst snd]. rewrite Hread.
    cbn [mret M_ret fst snd]. by rewrite decide_True.
Qed.

(** X18. What [SubmitInvoice] returns hangs together: success comes with an
    empty error text, status 200 or 201 and exactly one request sent for a
    file that could be read; a failure carries no FIRS reference and no
    file id; a file that cannot be read fails with status 0 before anything
    is sent; and the disk is never written. *)
Theorem SubmitInvoice_result_invariant (env : Env.t) (r : RelayClient.t)
    (path : wstring) (user token : list ascii) (w : World.t) :
  let out := RelayClient.SubmitInvoice env r path user token w in
  let result := out.1 in
  (SubmitResult.success result = true →
   SubmitResult.error result = []
   ∧ (SubmitResult.httpStatus result = 200
      ∨ SubmitResult.httpStatus result = 201)
   ∧ is_Some (FileSystem.read (World.fs w) path)
   ∧ ∃ body contentType,
       World.log out.2
       = World.log w
         ++ [CallSendRequest (wstr "POST") (wstr "/api/ingest") body
               contentType token])
  ∧ (SubmitResult.success result = false →
     SubmitResult.firsReference result = []
     ∧ SubmitResult.fileUuid result = [])
  ∧ (FileSystem.read (World.fs w) path = None →
     out = (SubmitResult.mk false [] [] (str "Failed to read PDF file") 0, w))
  ∧ World.fs out.2 = World.fs w.
Proof.
  intros out result. subst result out.
  pose proof (SubmitInvoice_run env r path user token w) as Hrun.
  destruct (FileSystem.read (World.fs w) path) as [pdf|].
  - destruct Hrun as (body & contentType & ->). cbn [fst snd].
    destruct (read_response_invariant
                (Env.SendRequest env (RelayClient.m_host r)
                   (RelayClient.m_port r) (wstr "POST") (wstr "/api/ingest")
                   body contentType token)) as (Hok & Hfail & _).
    split_and!; [|exact Hfail|done|done].
    intros Hs. destruct (Hok Hs) as (_ & He & Hst).
    split_and!; [done|done|by eexists|by exists body, contentType].
  - rewrite Hrun. cbn [fst snd SubmitResult.success SubmitResult.error
                       SubmitResult.firsReference SubmitResult.fileUuid].
    by split_and!.
Qed.

Lemma SubmitInvoice_result_invariant_witness :
  SubmitResult.error
    (RelayClient.SubmitInvoice sample_env RelayClient.new
       (wstr "C:\scans\0042.pdf") (str "bob@example.com") (str "tok-81")
       (World.mk signed_in_fs [] 0)).1
  = [].
Proof.
  apply (SubmitInvoice_result_invariant sample_env RelayClient.new
           (wstr "C:\scans\0042.pdf") (str "bob@example.com") (str "tok-81")
           (World.mk signed_in_fs [] 0)).
  vm_compute. reflexivity.
Defined.

(** ** Computations that stay off the disk and off the relay *)

Lemma offline_mret {A} (a : A) : offline (mret a).
Proof.
  intros w. split; [done|]. exists []. split; [by rewrite app_nil_r|constructor].
Qed.

Lemma offline_bind {A B} (m : M A) (k : A → M B) :
  offline m → (∀ a, offline (k a)) → offline (m ≫= k).
Proof.
  intros Hm Hk w. rewrite bind_run.
  destruct (Hm w) as (Hfs1 & e1 & H1 & Hq1).
  destruct (Hk (m w).1 (m w).2) as (Hfs2 & e2 & H2 & Hq2).
  split; [congruence|]. exists (e1 ++ e2).
  split; [by rewrite H2, H1, app_assoc|by apply Forall_app].
Qed.

Lemma offline_emit (e : Event) : is_transport e = false → offline (emit e).
Proof.
  intros He w. split; [done|]. exists [e]. split; [done|by constructor].
Qed.

Lemma offline_get_fs : offline get_fs.
Proof.
  intros w. split; [done|]. exists []. split; [by rewrite app_nil_r|constructor].
Qed.

Lemma offline_time (clock : nat → Z) : offline (time clock).
Proof.
  intros w. split; [done|]. exists []. split; [by rewrite app_nil_r|constructor].
Qed.

Lemma offline_events {A} (m : M A) (w : World.t) :
  offline m → Forall (λ e, is_transport e = false) (events_of m w).
Proof.
  intros Hm. destruct (Hm w) as (_ & events & Hlog & Hq).
  by rewrite (events_of_app m w events Hlog).
Qed.

Create HintDb offline discriminated.
#[global] Hint Resolve offline_mret offline_get_fs offline_time : offline.

Ltac offline_step :=
  first
    [ apply offline_bind; [|intros ?]
    | apply offline_emit; reflexivity
    | progress eauto with offline
    | match goal with
      | |- offline (match ?x with _ => _ end) => destruct x
      | |- offline (let '(_, _) := ?x in _) => destruct x
      end ].

Lemma offline_SetState c state label tooltip :
  offline (HeliumController.SetState c state label tooltip).
Proof. unfold HeliumController.SetState. repeat offline_step. Qed.

Lemma offline_Load (env : Env.t) : offline (SessionToken.Load env).
Proof.
  unfold SessionToken.Load, SessionToken.IsExpired. repeat offline_step.
Qed.

Lemma offline_ExtractFirstPageText (path : wstring) (maxChars : Z) :
  offline (InvoiceRouter.ExtractFirstPageText path maxChars).
Proof. unfold InvoiceRouter.ExtractFirstPageText. repeat offline_step. Qed.

#[global] Hint Resolve offline_SetState offline_Load
  offline_ExtractFirstPageText : offline.

Lemma offline_Route (r : InvoiceRouter.t) (path : wstring) :
  offline (InvoiceRouter.Route r path).
Proof.
  unfold InvoiceRouter.Route, InvoiceRouter.AnalyzeContent.
  repeat offline_step.
Qed.

Lemma offline_RefreshButtonState (env : Env.t) (c : HeliumController.t)
    (path : wstring) :
  offline (HeliumController.RefreshButtonState env c path).
Proof.
  unfold HeliumController.RefreshButtonState, HeliumController.cache_Check,
    HeliumController.session_HasValidSession, SessionToken.HasValidSession.
  repeat offline_step.
Qed.

#[global] Hint Resolve offline_Route offline_RefreshButtonState : offline.

Lemma offline_OnPdfOpened (env : Env.t) (c : HeliumController.t)
    (path : wstring) :
  offline (HeliumController.OnPdfOpened env c path).
Proof. unfold HeliumController.OnPdfOpened. repeat offline_step. Qed.

(** ** What [SetState] leaves of the controller *)

Lemma SetState_run c state label tooltip w :
  let info := ButtonStateInfo.mk state label tooltip in
  HeliumController.SetState c state label tooltip w
  = (HeliumController.mk (HeliumController.m_relay c)
       (HeliumController.m_cache c) (HeliumController.m_router c) info
       (HeliumController.m_onStateChange c) (HeliumController.m_currentPdf c),
     if HeliumController.m_onStateChange c then log_event (Notify info) w
     else w).
Proof.
  unfold HeliumController.SetState.
  destruct (HeliumController.m_onStateChange c); [|done].
  by rewrite bind_run.
Qed.

Lemma SetState_button c state label tooltip w :
  button (HeliumController.SetState c state label tooltip w).1 = state.
Proof. by rewrite SetState_run. Qed.

Lemma SetState_cache c state label tooltip w :
  HeliumController.m_cache (HeliumController.SetState c state label tooltip w).1
  = HeliumController.m_cache c.
Proof. by rewrite SetState_run. Qed.

Lemma SetState_currentPdf c state label tooltip w :
  HeliumController.m_currentPdf
    (HeliumController.SetState c state label tooltip w).1
  = HeliumController.m_currentPdf c.
Proof. by rewrite SetState_run. Qed.

Lemma SetState_fs c state label tooltip w :
  World.fs (HeliumController.SetState c state label tooltip w).2 = World.fs w.
Proof.
  rewrite SetState_run. cbn [snd].
  by destruct (HeliumController.m_onStateChange c).
Qed.

Lemma SetState_ticks c state label tooltip w :
  World.ticks (HeliumController.SetState c state label tooltip w).2
  = World.ticks w.
Proof.
  rewrite SetState_run. cbn [snd].
  by destruct (HeliumController.m_onStateChange c).
Qed.

(** What [Load] returns depends on the disk and the clock, not on the
    log. *)
Lemma SessionToken_Load_same (env : Env.t) (w w' : World.t) :
  World.fs w' = World.fs w → World.ticks w' = World.ticks w →
  (SessionToken.Load env w').1 = (SessionToken.Load env w).1.
Proof.
  intros Hfs Hticks.
  unfold SessionToken.Load, SessionToken.IsExpired, mbind, M_bind, get_fs,
    mret, M_ret, time.
  case_decide; [done|]. rewrite Hfs.
  destruct (FileSystem.read _ _); [|done].
  repeat (case_decide; [done|]).
  destruct (Env.parse_expiry _ _); [|done]. cbn [fst snd]. rewrite Hticks.
  by case_bool_decide.
Qed.

Lemma HasValidSession_same (env : Env.t) (w w' : World.t) :
  World.fs w' = World.fs w → World.ticks w' = World.ticks w →
  (SessionToken.HasValidSession env w').1
  = (SessionToken.HasValidSession env w).1.
Proof.
  intros Hfs Hticks. unfold SessionToken.HasValidSession.
  rewrite !bind_run. cbn [mret M_ret fst]. by rewrite (SessionToken_Load_same env w w').
Qed.

(** ** Refreshing the button *)

Lemma RefreshButtonState_run (env : Env.t) (c : HeliumController.t)
    (path : wstring) (w : World.t) :
  let filename := ExtractFilename path in
  let dupCheck := DuplicateCache.Check (HeliumController.m_cache c) filename in
  let w1 := log_event (CallCheck filename) w in
  let w2 := log_event CallSessionLoad w1 in
  HeliumController.RefreshButtonState env c path w
  = if decide (DuplicateCheckResult.status dupCheck
               = DuplicateStatus.AlreadySubmitted) then
      HeliumController.SetState c SubmitButtonState.AlreadySubmitted
        (str "Already Submitted")
        (str "Submitted by " ++ DuplicateCheckResult.submittedBy dupCheck
         ++ str " (Ref: " ++ DuplicateCheckResult.firsReference dupCheck
         ++ str ")") w1
    else if (SessionToken.HasValidSession env w2).1 then
      HeliumController.SetState c SubmitButtonState.Ready (str "Submit to FIRS")
        (str "Send this invoice to FIRS for processing")
        (SessionToken.HasValidSession env w2).2
    else
      HeliumController.SetState c SubmitButtonState.NoSession
        (str "Sign In Required") (str "Open Float to sign in")
        (SessionToken.HasValidSession env w2).2.
Proof.
  intros filename dupCheck w1 w2.
  unfold HeliumController.RefreshButtonState, HeliumController.cache_Check.
  rewrite !bind_run. change (emit ?e w).2 with (log_event e w).
  cbn [mret M_ret fst snd]. fold filename dupCheck w1.
  case_decide; [done|].
  unfold HeliumController.session_HasValidSession. rewrite !bind_run.
  change (emit ?e w1).2 with (log_event e w1). fold w2.
  by destruct (SessionToken.HasValidSession env w2).1.
Qed.

Lemma HasValidSession_log (env : Env.t) (w : World.t) :
  World.log (SessionToken.HasValidSession env w).2 = World.log w.
Proof.
  unfold SessionToken.HasValidSession. rewrite bind_run.
  apply SessionToken_Load_log.
Qed.

Lemma RefreshButtonState_spec (env : Env.t) (c : HeliumController.t)
    (path : wstring) (w : World.t) :
  let filename := ExtractFilename path in
  let out := HeliumController.RefreshButtonState env c path w in
  let events := events_of (HeliumController.RefreshButtonState env c path) w in
  let valid := (SessionToken.HasValidSession env w).1 in
  HeliumController.m_cache out.1 = HeliumController.m_cache c
  ∧ (known c filename →
     button out.1 = SubmitButtonState.AlreadySubmitted
     ∧ events
       = CallCheck filename
         :: (if HeliumController.m_onStateChange c
             then [Notify (HeliumController.m_buttonState out.1)] else []))
  ∧ (¬ known c filename →
     button out.1
     = (if valid then SubmitButtonState.Ready else SubmitButtonState.NoSession)
     ∧ events
       = CallCheck filename :: CallSessionLoad
         :: (if HeliumController.m_onStateChange c
             then [Notify (HeliumController.m_buttonState out.1)] else [])).
Proof.
  intros filename out events valid. subst out events.
  pose proof (RefreshButtonState_run env c path w) as Hrun.
  cbv zeta in Hrun. fold filename in Hrun. unfold known.
  set (w1 := log_event (CallCheck filename) w) in *.
  set (w2 := log_event CallSessionLoad w1) in *.
  assert (Hvalid : (SessionToken.HasValidSession env w2).1 = valid).
  { by apply HasValidSession_same. }
  pose proof (HasValidSession_log env w2) as Hlog.
  case_decide as Hdup.
  - split_and!; [by rewrite Hrun, SetState_cache| |done].
    intros _. split; [by rewrite Hrun, SetState_button|].
    apply events_of_app. rewrite Hrun, SetState_run. cbn [fst snd].
    destruct (HeliumController.m_onStateChange c); cbn [log_event World.log w1];
      by rewrite <- ?app_assoc.
  - rewrite Hvalid in Hrun.
    split_and!; [destruct valid; by rewrite Hrun, SetState_cache|done|].
    intros _. split; [destruct valid; by rewrite Hrun, SetState_button|].
    apply events_of_app.
    destruct valid; rewrite Hrun, SetState_run; cbn [fst snd];
      destruct (HeliumController.m_onStateChange c);
      cbn [log_event World.log]; rewrite Hlog; cbn [log_event World.log w2 w1];
      by rewrite <- ?app_assoc.
Qed.

Lemma RefreshButtonState_currentPdf (env : Env.t) (c : HeliumController.t)
    (path : wstring) (w : World.t) :
  HeliumController.m_currentPdf
    (HeliumController.RefreshButtonState env c path w).1
  = HeliumController.m_currentPdf c.
Proof.
  rewrite RefreshButtonState_run. cbv zeta.
  case_decide; [apply SetState_currentPdf|].
  destruct (SessionToken.HasValidSession _ _).1; apply SetState_currentPdf.
Qed.

(** X19. [RefreshButtonState] asks the cache first and the session store
    only for a file the cache does not know; it shows [AlreadySubmitted]
    for a known file, and otherwise [Ready] with a valid session and
    [NoSession] without one. It never reaches the relay, never writes the
    disk and leaves the cache as it was. *)
Theorem RefreshButtonState_outcome (env : Env.t) (c : HeliumController.t)
    (path : wstring) (w : World.t) :
  let filename := ExtractFilename path in
  let out := HeliumController.RefreshButtonState env c path w in
  let events := events_of (HeliumController.RefreshButtonState env c path) w in
  let valid := (SessionToken.HasValidSession env w).1 in
  World.fs out.2 = World.fs w
  ∧ HeliumController.m_cache out.1 = HeliumController.m_cache c
  ∧ Forall (λ e, is_transport e = false) events
  ∧ events !! 0%nat = Some (CallCheck filename)
  ∧ (known c filename →
     button out.1 = SubmitButtonState.AlreadySubmitted
     ∧ CallSessionLoad ∉ events)
  ∧ (¬ known c filename →
     button out.1
     = (if valid then SubmitButtonState.Ready else SubmitButtonState.NoSession)
     ∧ events !! 1%nat = Some CallSessionLoad).
Proof.
  intros filename out events valid.
  destruct (RefreshButtonState_spec env c path w) as (Hcache & Hdup & Hnew).
  fold filename in Hdup, Hnew. fold out in Hcache, Hdup, Hnew.
  fold events in Hdup, Hnew. fold valid in Hnew.
  split_and!.
  - apply (offline_RefreshButtonState env c path w).
  - exact Hcache.
  - apply offline_events, offline_RefreshButtonState.
  - destruct (decide (DuplicateCheckResult.status
                        (DuplicateCache.Check (HeliumController.m_cache c)
                           filename)
                      = DuplicateStatus.AlreadySubmitted)) as [Hk|Hk].
    + destruct (Hdup Hk) as [_ ->]. done.
    + destruct (Hnew Hk) as [_ ->]. done.
  - intros Hk. destruct (Hdup Hk) as [Hb ->]. split; [done|].
    destruct (HeliumController.m_onStateChange c);
      rewrite ?not_elem_of_cons; split_and?; try done; apply not_elem_of_nil.
  - intros Hk. destruct (Hnew Hk) as [Hb ->]. done.
Qed.

Lemma RefreshButtonState_outcome_witness :
  button
    (HeliumController.RefreshButtonState sample_env sample_controller
       (wstr "C:\scans\0042.pdf") (World.mk signed_in_fs [] 0)).1
  = SubmitButtonState.Ready.
Proof.
  destruct (RefreshButtonState_outcome sample_env sample_controller
              (wstr "C:\scans\0042.pdf") (World.mk signed_in_fs [] 0))
    as (_ & _ & _ & _ & _ & Hnew).
  destruct Hnew as [Hb _].
  - vm_compute. discriminate.
  - rewrite Hb. vm_compute. reflexivity.
Defined.

(** ** Opening a document *)

Lemma OnPdfOpened_run (env : Env.t) (c : HeliumController.t)
    (path : wstring) (w : World.t) :
  let routed := InvoiceRouter.Route (HeliumController.m_router c) path w in
  let c1 := HeliumController.set_currentPdf c path in
  HeliumController.OnPdfOpened env c path w
  = if decide (RouteResult.decision routed.1 = RouteDecision.NotInvoice)
    then (routed.1, c1, routed.2)
    else
      (routed.1,
       (HeliumController.RefreshButtonState env c1 path routed.2).1,
       (HeliumController.RefreshButtonState env c1 path routed.2).2).
Proof.
  intros routed c1. unfold HeliumController.OnPdfOpened.
  rewrite bind_run. fold c1.
  change (HeliumController.m_router c1) with (HeliumController.m_router c).
  fold routed.
  destruct (RouteResult.decision routed.1) eqn:Hd.
  - rewrite decide_True by (by left). rewrite decide_False by done.
    by rewrite bind_run.
  - rewrite decide_False by (intros [?|?]; done). by rewrite decide_True.
  - rewrite decide_True by (by right). rewrite decide_False by done.
    by rewrite bind_run.
Qed.

(** X20. [OnPdfOpened] returns the verdict of [Route] and remembers the
    path. For a [NotInvoice] the button is left as it was and nothing else
    is asked; for an [Invoice] or an [Unknown] the button is refreshed and
    ends in [AlreadySubmitted], [NoSession] or [Ready], so that a button
    that said [FloatNotRunning] no longer does. Opening a document never
    reaches the relay, never writes the disk and never changes the
    cache. *)
Theorem OnPdfOpened_outcome (env : Env.t) (c : HeliumController.t)
    (path : wstring) (w : World.t) :
  let routed := InvoiceRouter.Route (HeliumController.m_router c) path w in
  let out := HeliumController.OnPdfOpened env c path w in
  let events := events_of (HeliumController.OnPdfOpened env c path) w in
  out.1.1 = routed.1
  ∧ HeliumController.m_currentPdf out.1.2 = path
  ∧ HeliumController.m_cache out.1.2 = HeliumController.m_cache c
  ∧ World.fs out.2 = World.fs w
  ∧ Forall (λ e, is_transport e = false) events
  ∧ (RouteResult.decision routed.1 = RouteDecision.NotInvoice →
     HeliumController.m_buttonState out.1.2 = HeliumController.m_buttonState c
     ∧ out.2 = routed.2)
  ∧ (RouteResult.decision routed.1 ≠ RouteDecision.NotInvoice →
     button out.1.2 = SubmitButtonState.AlreadySubmitted
     ∨ button out.1.2 = SubmitButtonState.NoSession
     ∨ button out.1.2 = SubmitButtonState.Ready).
Proof.
  intros routed out events.
  pose proof (OnPdfOpened_run env c path w) as Hrun. cbv zeta in Hrun.
  fold routed in Hrun. fold out in Hrun.
  set (c1 := HeliumController.set_currentPdf c path) in *.
  destruct (RefreshButtonState_spec env c1 path routed.2)
    as (Hcache & Hdup & Hnew).
  set (refreshed := HeliumController.RefreshButtonState env c1 path routed.2)
    in *.
  assert (Hpdf : HeliumController.m_currentPdf refreshed.1 = path).
  { apply (RefreshButtonState_currentPdf env c1 path routed.2). }
  split_and!.
  - rewrite Hrun. by case_decide.
  - rewrite Hrun. by case_decide.
  - rewrite Hrun. case_decide; [done|]. exact Hcache.
  - apply (offline_OnPdfOpened env c path w).
  - apply offline_events, offline_OnPdfOpened.
  - intros Hd. rewrite Hrun. by rewrite decide_True.
  - intros Hd. rewrite Hrun. rewrite decide_False by done. cbn [fst snd].
    destruct (decide (DuplicateCheckResult.status
                        (DuplicateCache.Check (HeliumController.m_cache c1)
                           (ExtractFilename path))
                      = DuplicateStatus.AlreadySubmitted)) as [Hk|Hk].
    + left. by destruct (Hdup Hk).
    + destruct (Hnew Hk) as [-> _].
      destruct (SessionToken.HasValidSession _ _).1; auto.
Qed.

Lemma OnPdfOpened_outcome_witness :
  let out :=
    HeliumController.OnPdfOpened sample_env sample_controller
      (wstr "C:\scans\0042.pdf") (World.mk signed_in_fs [] 0) in
  button out.1.2 = SubmitButtonState.AlreadySubmitted
  ∨ button out.1.2 = SubmitButtonState.NoSession
  ∨ button out.1.2 = SubmitButtonState.Ready.
Proof.
  apply (OnPdfOpened_outcome sample_env sample_controller
           (wstr "C:\scans\0042.pdf") (World.mk signed_in_fs [] 0)).
  vm_compute. discriminate.
Defined.

(** ** Start-up *)

Lemma IsRelayAvailable_run (env : Env.t) (r : RelayClient.t) (w : World.t) :
  let resp :=
    Env.SendRequest env (RelayClient.m_host r) (RelayClient.m_port r)
      (wstr "GET") (wstr "/health") [] [] [] in
  RelayClient.IsRelayAvailable env r w
  = (RelayResponse.success resp
     && bool_decide (RelayResponse.statusCode resp = 200),
     log_event (CallSendRequest (wstr "GET") (wstr "/health") [] [] []) w).
Proof.
  unfold RelayClient.IsRelayAvailable, RelayClient.SendRequest.
  by rewrite !bind_run.
Qed.

Lemma Initialize_run (env : Env.t) (can_allocate : nat → bool)
    (cachePath : wstring) (c : HeliumController.t) (w : World.t) :
  let c1 :=
    HeliumController.set_cache c
      (DuplicateCache.Load (HeliumController.m_cache c) (World.fs w)
         cachePath).2 in
  let w1 := log_event CallSessionLoad w in
  let session := SessionToken.HasValidSession env w1 in
  let probe := RelayClient.IsRelayAvailable env (HeliumController.m_relay c1)
                 session.2 in
  let final (s : HeliumController.t * World.t) := (Some (true, s.1), s.2) in
  HeliumController.Initialize env can_allocate cachePath c w
  = if DuplicateCache.Load_throws can_allocate (HeliumController.m_cache c)
         (World.fs w) cachePath
    then (None, w)
    else if session.1 then
      if probe.1 then
        final (HeliumController.SetState c1 SubmitButtonState.Ready
                 (str "Submit to FIRS")
                 (str "Send this invoice to FIRS for processing") probe.2)
      else
        final (HeliumController.SetState c1 SubmitButtonState.FloatNotRunning
                 (str "Start Float")
                 (str "Helium Float must be running to submit invoices")
                 probe.2)
    else
      final (HeliumController.SetState c1 SubmitButtonState.NoSession
               (str "Sign In Required")
               (str "Open Float to sign in to your Helium account") session.2).
Proof.
  intros c1 w1 session probe final.
  unfold HeliumController.Initialize, HeliumController.cache_Load.
  rewrite !bind_run. cbn [get_fs mret M_ret fst snd].
  unfold DuplicateCache.Load_outcome.
  destruct (DuplicateCache.Load_throws _ _ _ _); [reflexivity|].
  cbn [mret M_ret fst snd]. fold c1.
  unfold HeliumController.session_HasValidSession. rewrite !bind_run.
  change (emit ?e w).2 with (log_event e w). fold w1. fold session.
  destruct session.1; cbn [negb].
  - rewrite bind_run. fold probe. destruct probe.1; cbn [negb];
      by rewrite bind_run.
  - by rewrite bind_run.
Qed.

(** X21. [Initialize] does not return exactly when [m_cache.Load] throws,
    which is when the cache file has version 1 and counts more records than
    the cache holds and the allocator grants: nothing is logged or written
    then. Otherwise it returns true and leaves a button that can be clicked:
    [NoSession] without a valid session, and with one [FloatNotRunning] or
    [Ready] as the relay answers its health check, which is asked once and
    only with a valid session. The cache is then the one [Load] read from
    the cache file, and the disk is not written. *)
Theorem Initialize_outcome (env : Env.t) (can_allocate : nat → bool)
    (cachePath : wstring) (c : HeliumController.t) (w : World.t) :
  let out := HeliumController.Initialize env can_allocate cachePath c w in
  let events :=
    events_of (HeliumController.Initialize env can_allocate cachePath c) w in
  let throws :=
    DuplicateCache.Load_throws can_allocate (HeliumController.m_cache c)
      (World.fs w) cachePath in
  let valid := (SessionToken.HasValidSession env w).1 in
  let health :=
    Env.SendRequest env (RelayClient.m_host (HeliumController.m_relay c))
      (RelayClient.m_port (HeliumController.m_relay c))
      (wstr "GET") (wstr "/health") [] [] [] in
  let request := CallSendRequest (wstr "GET") (wstr "/health") [] [] [] in
  (out.1 = None ↔ throws = true)
  ∧ (throws = true →
     out.2 = w
     ∧ ∃ data,
         FileSystem.read (World.fs w) cachePath = Some data
         ∧ CacheHeader.version (DuplicateCache.read_header data) = 1
         ∧ (length (DuplicateCache.m_entries (HeliumController.m_cache c))
            < Z.to_nat (CacheHeader.entryCount
                          (DuplicateCache.read_header data)))%nat
         ∧ can_allocate
             (Z.to_nat (CacheHeader.entryCount
                          (DuplicateCache.read_header data))) = false)
  ∧ (throws = false →
     ∃ c',
       out.1 = Some (true, c')
       ∧ SumatraIntegration.IsButtonClickable (button c') = true
       ∧ HeliumController.m_cache c'
         = (DuplicateCache.Load (HeliumController.m_cache c) (World.fs w)
              cachePath).2
       ∧ World.fs out.2 = World.fs w
       ∧ (valid = false →
          button c' = SubmitButtonState.NoSession
          ∧ Forall (λ e, is_transport e = false) events)
       ∧ (valid = true →
          button c'
          = (if RelayResponse.success health
                && bool_decide (RelayResponse.statusCode health = 200)
             then SubmitButtonState.Ready
             else SubmitButtonState.FloatNotRunning)
          ∧ List.filter is_transport events = [request])).
Proof.
  intros out events throws valid health request.
  pose proof (Initialize_run env can_allocate cachePath c w) as Hrun.
  cbv zeta in Hrun. fold out in Hrun. fold throws in Hrun.
  assert (Hevents : events = drop (length (World.log w)) (World.log out.2))
    by reflexivity.
  destruct throws eqn:Hthrows.
  { rewrite Hrun. cbn [fst snd].
    split_and!; [done| |done]. intros _. split; [done|].
    by apply (Load_throws_inv can_allocate). }
  split; [|split; [done|intros _]].
  { split; [|done]. intros Hnone. exfalso. revert Hnone. rewrite Hrun.
    repeat match goal with |- context [if ?b then _ else _] => destruct b end;
      done. }
  set (c1 := HeliumController.set_cache c _) in *.
  set (w1 := log_event CallSessionLoad w) in *.
  assert (Hvalid : (SessionToken.HasValidSession env w1).1 = valid).
  { by apply HasValidSession_same. }
  pose proof (HasValidSession_log env w1) as Hlog.
  assert (Hfs : World.fs (SessionToken.HasValidSession env w1).2 = World.fs w).
  { unfold SessionToken.HasValidSession. rewrite bind_run.
    apply (offline_Load env w1). }
  rewrite Hvalid in Hrun.
  rewrite IsRelayAvailable_run in Hrun. cbn [fst snd] in Hrun.
  change (HeliumController.m_relay c1) with (HeliumController.m_relay c)
    in Hrun.
  fold health in Hrun. fold request in Hrun.
  set (up := RelayResponse.success health
             && bool_decide (RelayResponse.statusCode health = 200)) in *.
  set (w2 := (SessionToken.HasValidSession env w1).2) in *.
  destruct valid.
  - assert (Hout : ∃ st l t,
      out = (Some (true, (HeliumController.SetState c1 st l t
                            (log_event request w2)).1),
             (HeliumController.SetState c1 st l t (log_event request w2)).2)
      ∧ st = if up then SubmitButtonState.Ready
             else SubmitButtonState.FloatNotRunning).
    { destruct up; rewrite Hrun; by eexists _, _, _. }
    destruct Hout as (st & l & t & -> & Hst).
    eexists. cbn [fst snd] in *.
    rewrite SetState_button, SetState_cache, SetState_fs.
    split_and!; [done| |done|done|done|].
    + rewrite Hst. by destruct up.
    + intros _. split; [done|]. rewrite Hevents, SetState_run. cbn [snd].
      destruct (HeliumController.m_onStateChange c1);
        cbn [log_event World.log]; rewrite Hlog; cbn [w1 log_event World.log];
        rewrite <- !app_assoc, drop_app_length; reflexivity.
  - rewrite Hrun in *. eexists. cbn [fst snd] in *.
    rewrite SetState_button, SetState_cache, SetState_fs.
    split_and!; [done|done|done|done| |done].
    intros _. split; [done|]. rewrite Hevents, SetState_run. cbn [snd].
    destruct (HeliumController.m_onStateChange c1);
      cbn [log_event World.log]; rewrite Hlog; cbn [w1 log_event World.log];
      rewrite <- ?app_assoc, drop_app_length; repeat constructor.
Qed.

Lemma Initialize_outcome_witness :
  let grants := λ n : nat, bool_decide (n ≤ 1000)%nat in
  let path := wstr "C:\ProgramData\Helium\cache\submitted-invoices.cache" in
  let start := World.mk signed_in_fs [] 0 in
  let out :=
    HeliumController.Initialize offline_env grants path HeliumController.new
      start in
  DuplicateCache.Load_throws grants
    (HeliumController.m_cache HeliumController.new) (World.fs start) path
  = false
  ∧ ∃ c',
      out.1 = Some (true, c')
      ∧ button c' = SubmitButtonState.FloatNotRunning
      ∧ List.filter is_transport
          (events_of
             (HeliumController.Initialize offline_env grants path
                HeliumController.new) start)
        = [CallSendRequest (wstr "GET") (wstr "/health") [] [] []].
Proof.
  intros grants path start out.
  assert (Hquiet :
    DuplicateCache.Load_throws grants
      (HeliumController.m_cache HeliumController.new) (World.fs start) path
    = false) by (vm_compute; reflexivity).
  split; [exact Hquiet|].
  destruct (Initialize_outcome offline_env grants path HeliumController.new
              start) as (_ & _ & Hreturns).
  destruct (Hreturns Hquiet) as (c' & Hout & _ & _ & _ & _ & Hvalid).
  exists c'. split; [exact Hout|].
  apply Hvalid. vm_compute. reflexivity.
Defined.

(** ** The end of a submission *)

Lemma SubmitInvoice_fs (env : Env.t) (r : RelayClient.t) (path : wstring)
    (user token : list ascii) (w : World.t) :
  World.fs (RelayClient.SubmitInvoice env r path user token w).2 = World.fs w.
Proof.
  pose proof (SubmitInvoice_run env r path user token w) as Hrun.
  destruct (FileSystem.read (World.fs w) path).
  - by destruct Hrun as (body & contentType & ->).
  - by rewrite Hrun.
Qed.

(** Steps 3 to 5 end in one of two ways. *)
Lemma OnSubmitClicked_submit_outcome (env : Env.t) (c : HeliumController.t)
    (path : wstring) (session : SessionInfo.t) (filename : list ascii)
    (w : World.t) :
  let out := OnSubmitClicked_submit env c path session filename w in
  (button out.1 = SubmitButtonState.AlreadySubmitted
   ∧ filename ∈ DuplicateCache.m_filenameIndex (HeliumController.m_cache out.1)
   ∧ CallAddEntry filename
       (SubmitResult.firsReference
          (RelayClient.SubmitInvoice env (HeliumController.m_relay c) path
             (SessionInfo.username session) (SessionInfo.token session)
             (log_event
                (CallSubmitInvoice path (SessionInfo.username session)
                   (SessionInfo.token session))
                (HeliumController.SetState c SubmitButtonState.Submitting
                   (str "Submitting...")
                   (str "Sending to Helium Relay for FIRS processing") w).2)).1)
       (SessionInfo.username session)
     ∈ World.log out.2)
  ∨ (button out.1 = SubmitButtonState.Ready
     ∧ HeliumController.m_cache out.1 = HeliumController.m_cache c
     ∧ World.fs out.2 = World.fs w).
Proof.
  intros out. subst out. unfold OnSubmitClicked_submit.
  rewrite bind_run.
  pose proof (SetState_cache c SubmitButtonState.Submitting
                (str "Submitting...")
                (str "Sending to Helium Relay for FIRS processing") w) as Hc4.
  pose proof (SetState_fs c SubmitButtonState.Submitting
                (str "Submitting...")
                (str "Sending to Helium Relay for FIRS processing") w) as Hf4.
  assert (Hr4 : HeliumController.m_relay
                  (HeliumController.SetState c SubmitButtonState.Submitting
                     (str "Submitting...")
                     (str "Sending to Helium Relay for FIRS processing") w).1
                = HeliumController.m_relay c) by (by rewrite SetState_run).
  destruct (HeliumController.SetState c _ _ _ w) as [c4 w4].
  cbn [fst snd] in *.
  rewrite bind_run. unfold HeliumController.relay_SubmitInvoice.
  rewrite !bind_run. change (emit ?e w4).2 with (log_event e w4).
  rewrite Hr4.
  pose proof (SubmitInvoice_fs env (HeliumController.m_relay c) path
                (SessionInfo.username session) (SessionInfo.token session)
                (log_event
                   (CallSubmitInvoice path (SessionInfo.username session)
                      (SessionInfo.token session)) w4)) as Hf6.
  destruct (RelayClient.SubmitInvoice _ _ _ _ _ _) as [result w6].
  cbn [fst snd log_event World.fs] in *.
  destruct (SubmitResult.success result).
  - left. rewrite !bind_run.
    destruct (cache_AddEntry_run env c4 filename
                (SubmitResult.firsReference result)
                (SessionInfo.username session) w6) as [Hadd Hlog].
    destruct (HeliumController.cache_AddEntry _ _ _ _ _ w6) as [c7 w7].
    cbn [fst snd] in *.
    apply (f_equal fst) in Hadd. cbn [fst] in Hadd.
    split_and!.
    + apply SetState_button.
    + rewrite SetState_cache, SetState_cache, Hadd.
      unfold DuplicateCache.AddEntry. cbn. set_solver.
    + destruct (grows_SetState c7 SubmitButtonState.Success (str "Submitted!")
                  (str "FIRS Reference: " ++ SubmitResult.firsReference result)
                  w7) as [e8 H8].
      destruct (HeliumController.SetState c7 _ _ _ w7) as [c8 w8].
      cbn [fst snd] in *.
      destruct (grows_SetState c8 SubmitButtonState.AlreadySubmitted
                  (str "Already Submitted")
                  (str "FIRS Reference: " ++ SubmitResult.firsReference result)
                  (HeliumController.Sleep 3000 w8).2) as [e9 H9].
      rewrite H9. unfold HeliumController.Sleep. cbn [emit snd World.log].
      rewrite H8, Hlog. rewrite !elem_of_app, list_elem_of_singleton. auto.
  - right. rewrite !bind_run.
    split_and!.
    + apply SetState_button.
    + by rewrite SetState_cache, SetState_cache.
    + rewrite SetState_fs. unfold HeliumController.Sleep. cbn [emit snd World.fs].
      rewrite SetState_fs. congruence.
Qed.

Lemma OnSubmitClicked_settled (env : Env.t) (c : HeliumController.t)
    (path : wstring) (w : World.t) :
  let out := HeliumController.OnSubmitClicked env c path w in
  let filename := ExtractFilename path in
  (button out.1 = SubmitButtonState.NoSession
   ∧ HeliumController.m_cache out.1 = HeliumController.m_cache c
   ∧ World.fs out.2 = World.fs w)
  ∨ (button out.1 = SubmitButtonState.AlreadySubmitted
     ∧ known out.1 filename)
  ∨ (button out.1 = SubmitButtonState.Ready
     ∧ ¬ known c filename
     ∧ HeliumController.m_cache out.1 = HeliumController.m_cache c
     ∧ World.fs out.2 = World.fs w).
Proof.
  intros out filename. subst out.
  rewrite OnSubmitClicked_unfold. fold filename. cbv zeta.
  pose proof (offline_Load env (log_event CallSessionLoad w)) as [Hfs _].
  cbn [log_event World.fs] in Hfs.
  destruct (SessionInfo.valid _).
  - case_decide as Hdup.
    + right. left. split; [apply SetState_button|].
      unfold known. by rewrite SetState_cache.
    + destruct (OnSubmitClicked_submit_outcome env c path
                  (SessionToken.Load env (log_event CallSessionLoad w)).1
                  filename
                  (log_event (CallCheck filename)
                     (SessionToken.Load env (log_event CallSessionLoad w)).2))
        as [(Hb & Hin & _)|(Hb & Hc & Hf)].
      * right. left. split; [done|]. by apply Check_status.
      * right. right. split_and!; [done|done|done|].
        rewrite Hf. cbn [log_event World.fs]. done.
  - left. split_and!; [apply SetState_button|apply SetState_cache|].
    by rewrite SetState_fs.
Qed.

(** X22. [OnSubmitClicked] never leaves the button in a passing state: it
    ends in [NoSession], [AlreadySubmitted] or [Ready]. When it ends in
    [AlreadySubmitted] the cache knows the file; when it does not, the
    cache and the disk are as they were before the click, so that only an
    accepted submission is ever recorded. *)
Theorem OnSubmitClicked_ends_settled (env : Env.t) (c : HeliumController.t)
    (path : wstring) (w : World.t) :
  let out := HeliumController.OnSubmitClicked env c path w in
  let filename := ExtractFilename path in
  (button out.1 = SubmitButtonState.NoSession
   ∨ button out.1 = SubmitButtonState.AlreadySubmitted
   ∨ button out.1 = SubmitButtonState.Ready)
  ∧ (button out.1 = SubmitButtonState.AlreadySubmitted → known out.1 filename)
  ∧ (button out.1 ≠ SubmitButtonState.AlreadySubmitted →
     HeliumController.m_cache out.1 = HeliumController.m_cache c
     ∧ World.fs out.2 = World.fs w).
Proof.
  intros out filename.
  destruct (OnSubmitClicked_settled env c path w)
    as [(Hb & Hc & Hf)|[(Hb & Hk)|(Hb & _ & Hc & Hf)]];
    fold out in Hb; rewrite Hb; split_and!; auto; try done.
Qed.

Lemma OnSubmitClicked_ends_settled_witness :
  let out :=
    HeliumController.OnSubmitClicked sample_env sample_controller
      (wstr "C:\scans\0042.pdf") (World.mk signed_in_fs [] 0) in
  known out.1 (ExtractFilename (wstr "C:\scans\0042.pdf")).
Proof.
  apply (OnSubmitClicked_ends_settled sample_env sample_controller
           (wstr "C:\scans\0042.pdf") (World.mk signed_in_fs [] 0)).
  vm_compute. reflexivity.
Defined.

(** X23. No file is submitted twice from the same controller, and the
    folder does not matter: once [OnSubmitClicked] has ended in
    [AlreadySubmitted] for a path, a later click for any path with the same
    base name, whatever has happened to the session, the disk and the relay
    in between, sends nothing to the relay, ends in [AlreadySubmitted] or
    [NoSession] and leaves the cache alone. *)
Theorem OnSubmitClicked_no_resubmission (env env' : Env.t)
    (c : HeliumController.t) (path path' : wstring) (w w' : World.t) :
  let first := HeliumController.OnSubmitClicked env c path w in
  let second := HeliumController.OnSubmitClicked env' first.1 path' w' in
  ExtractFilename path' = ExtractFilename path →
  button first.1 = SubmitButtonState.AlreadySubmitted →
  Forall (λ e, is_transport e = false)
    (events_of (HeliumController.OnSubmitClicked env' first.1 path') w')
  ∧ (button second.1 = SubmitButtonState.AlreadySubmitted
     ∨ button second.1 = SubmitButtonState.NoSession)
  ∧ HeliumController.m_cache second.1 = HeliumController.m_cache first.1.
Proof.
  intros first second Hname Hb.
  assert (Hk : known first.1 (ExtractFilename path')).
  { rewrite Hname.
    destruct (OnSubmitClicked_settled env c path w)
      as [(Hb' & _)|[(_ & Hk)|(Hb' & _)]];
      [fold first in Hb'; congruence | exact Hk
      | fold first in Hb'; congruence]. }
  pose proof (OnSubmitClicked_cases env' first.1 path' w') as Hcases.
  cbv zeta in Hcases.
  pose proof (OnSubmitClicked_unfold env' first.1 path' w') as Hrun.
  cbv zeta in Hrun. rewrite <- session_Load_run in Hrun.
  fold second in Hrun, Hcases. unfold known in Hk.
  assert (Hquiet : ∀ info,
    Forall (λ e, is_transport e = false)
      (if HeliumController.m_onStateChange first.1 then [Notify info] else [])).
  { intros info. destruct (HeliumController.m_onStateChange first.1);
      repeat constructor. }
  destruct (SessionInfo.valid _).
  - rewrite decide_True in Hcases by done.
    rewrite decide_True in Hrun by done.
    destruct Hcases as (info & Hstate & Hbutton & ->).
    split_and!.
    + repeat (constructor; [done|]). apply Hquiet.
    + left. unfold button. by rewrite Hbutton.
    + by rewrite Hrun, SetState_cache.
  - destruct Hcases as (info & Hstate & Hbutton & ->).
    split_and!.
    + repeat (constructor; [done|]). apply Hquiet.
    + right. unfold button. by rewrite Hbutton.
    + by rewrite Hrun, SetState_cache.
Qed.

Lemma OnSubmitClicked_no_resubmission_witness :
  let first :=
    HeliumController.OnSubmitClicked sample_env sample_controller
      (wstr "C:\scans\0042.pdf") (World.mk signed_in_fs [] 0) in
  Forall (λ e, is_transport e = false)
    (events_of
       (HeliumController.OnSubmitClicked sample_env first.1
          (wstr "D:\archive\2024\0042.pdf")) first.2).
Proof.
  apply (OnSubmitClicked_no_resubmission sample_env sample_env
           sample_controller (wstr "C:\scans\0042.pdf")
           (wstr "D:\archive\2024\0042.pdf") (World.mk signed_in_fs [] 0)).
  - vm_compute. reflexivity.
  - vm_compute. reflexivity.
Defined.
